(** * Route comparison engine of lifi-lens ([src/lib/route-analysis.ts])

    A shallow embedding of the route-analysis module and of the types of
    [src/types/lifi.ts] it works on, followed by the properties of the
    metrics calculator, the recommendation synthesizer, the deduplicator,
    the failure-reason analyzer and the comparison entry point.

    Numbers.  The module is embedded twice.  The first embedding reads a
    JavaScript [number] as an exact rational [Q] (finite values, no
    rounding, results compared with [==]) and [parseFloat] as a function
    into them; it carries the properties of strings, lists, tables and
    thresholds, which do not depend on how numbers round.  The second
    embedding, [Double], computes in IEEE 754 binary64 as the language
    does, with rounding, [NaN], the infinities and the members that a
    plain object inherits; it carries the properties that depend on them.
    Chain ids are integers ([Z]).  The built-in [parseFloat] belongs to
    the language, not to the repository: it is a parameter of the
    development.  [readDecimal] and [Double.readNumber] below are readers
    of plain decimal numerals, used for the concrete examples. *)

From stdpp Require Import gmap strings list.
From Stdlib Require Import Sorted Ascii QArith Qabs Qminmax Lqa DecimalString.
From Stdlib Require Floats Zpower.

Local Open Scope Q_scope.

(** ** JavaScript helpers *)

Module JS.

  (** [a < b], [a > b] and [a >= b] on numbers, as booleans. *)
Definition ltb (a b : Q) : bool := negb (Qle_bool b a).
Definition gtb (a b : Q) : bool := ltb b a.
Definition geb (a b : Q) : bool := Qle_bool b a.

  (** Truthiness: a number is falsy when it is zero, a string when it is
      empty, an optional value when it is absent. *)
Definition truthy_num (x : Q) : bool := negb (Qeq_bool x 0).
Definition truthy_str (s : string) : bool := negb (String.eqb s "").

Definition truthy_onum (x : option Q) : bool :=
    match x with Some q => truthy_num q | None => false end.
Definition truthy_oint (x : option Z) : bool :=
    match x with Some z => negb (Z.eqb z 0) | None => false end.
Definition truthy_ostr (x : option string) : bool :=
    match x with Some s => truthy_str s | None => false end.

  (** [x || d] on numbers and on optional numbers, integers and strings. *)
Definition or_num (x d : Q) : Q := if truthy_num x then x else d.
Definition or_onum (x : option Q) (d : Q) : Q :=
    match x with Some q => or_num q d | None => d end.
Definition or_oint (x : option Z) (d : Z) : Z :=
    match x with Some z => if Z.eqb z 0 then d else z | None => d end.
Definition or_ostr (x : option string) (d : string) : string :=
    match x with Some s => if truthy_str s then s else d | None => d end.

  (** [String.prototype.toLowerCase], on ASCII letters. *)
Definition lower_ascii (c : ascii) : ascii :=
    let n := nat_of_ascii c in
    if ((65 <=? n) && (n <=? 90))%nat then ascii_of_nat (n + 32) else c.

Fixpoint toLowerCase (s : string) : string :=
    match s with
    | EmptyString => EmptyString
    | String c s' => String (lower_ascii c) (toLowerCase s')
    end.

  (** [Array.prototype.includes] on an array of strings. *)
Definition includes (l : list string) (x : string) : bool :=
    existsb (String.eqb x) l.

  (** [Array.prototype.join]. *)
Fixpoint join (sep : string) (l : list string) : string :=
    match l with
    | [] => ""
    | [x] => x
    | x :: l' => x +:+ sep +:+ join sep l'
    end.

  (** Number-to-string conversion of an integer, as a template literal
      performs it. *)
Definition int_to_string (z : Z) : string :=
    NilZero.string_of_int (Z.to_int z).

  (** [Array.prototype.sort] with a comparator: the sort is stable, [a]
      goes before [b] when [cmp a b < 0] and after it when [cmp a b > 0].
      Written as an insertion sort from the right end. *)
Section Sort.
Context {A : Type} (cmp : A -> A -> Q).

Fixpoint insert (x : A) (l : list A) : list A :=
      match l with
      | [] => [x]
      | y :: l' =>
          if Qle_bool (cmp x y) 0 then x :: y :: l' else y :: insert x l'
      end.

Definition sort (l : list A) : list A := foldr insert [] l.
End Sort.

End JS.

(** A reader of plain decimal numerals: an optional sign, digits, and an
    optional fraction; it stops at the first character that does not fit.
    On such numerals it reads what [parseFloat] reads, without rounding. *)
Module Decimal_reader.

Definition digit_of (c : ascii) : option Z :=
    let n := nat_of_ascii c in
    if ((48 <=? n) && (n <=? 57))%nat then Some (Z.of_nat (n - 48)) else None.

  (** digits after the point: [num / den] is the value read so far *)
Fixpoint read_frac (s : string) (num : Z) (den : positive) : Q :=
    match s with
    | EmptyString => num # den
    | String c s' =>
        match digit_of c with
        | Some d => read_frac s' (10 * num + d)%Z (10 * den)%positive
        | None => num # den
        end
    end.

  (** digits before the point *)
Fixpoint read_int (s : string) (acc : Z) : Q :=
    match s with
    | EmptyString => inject_Z acc
    | String c s' =>
        match digit_of c with
        | Some d => read_int s' (10 * acc + d)%Z
        | None =>
            if Ascii.eqb c "."%char then read_frac s' acc 1 else inject_Z acc
        end
    end.

Definition readDecimal (s : string) : Q :=
    match s with
    | String "-"%char s' => - read_int s' 0
    | String "+"%char s' => read_int s' 0
    | _ => read_int s 0
    end.

End Decimal_reader.
Export Decimal_reader.

(** ** Data model ([src/types/lifi.ts]) *)

Record TokenInfo := {
  address : string;
  token_chainId : Z;
  symbol : string;
  decimals : Z;
  token_name : string;
  priceUSD : option string
}.

Record FeeCost := {
  fee_name : string;
  fee_token : TokenInfo;
  fee_amount : option string;
  fee_amountUSD : option string;
  fee_included : option bool
}.

Inductive GasCostType := SEND | APPROVE | CROSS.

Record GasCost := {
  gas_type : GasCostType;
  gas_amount : string;
  gas_amountUSD : option string;
  gas_token : TokenInfo
}.

Inductive StepType := lifi | cross | swap.

Definition StepType_eqb (a b : StepType) : bool :=
  match a, b with
  | lifi, lifi | cross, cross | swap, swap => true
  | _, _ => false
  end.

Record StepAction := {
  act_fromChainId : Z;
  act_toChainId : Z;
  act_fromToken : TokenInfo;
  act_toToken : TokenInfo;
  act_fromAmount : string;
  slippage : option Q
}.

Record StepEstimate := {
  est_tool : string;
  est_fromAmount : string;
  est_toAmount : string;
  est_toAmountMin : string;
  executionDuration : Q;
  feeCosts : option (list FeeCost);
  gasCosts : option (list GasCost)
}.

(** [includedSteps] and [toolDetails] of a step are not read by the
    route analysis and are left out. *)
Record RouteStep := {
  step_id : string;
  step_type : StepType;
  tool : string;
  action : StepAction;
  estimate : StepEstimate
}.

(** The two USD amounts of a route are declared [string]; the code reads
    them with [|| "0"], so an absent field is part of the model. *)
Record Route := {
  route_id : string;
  fromChainId : Z;
  fromAmountUSD : option string;
  fromAmount : string;
  fromToken : TokenInfo;
  fromAddress : option string;
  toChainId : Z;
  toAmountUSD : option string;
  toAmount : string;
  toAmountMin : string;
  toToken : TokenInfo;
  toAddress : option string;
  gasCostUSD : option string;
  steps : list RouteStep
}.

Record RouteMetrics := {
  totalFeesUSD : Q;
  totalGasUSD : Q;
  estimatedTime : Q;
  priceImpact : Q;
  complexityScore : Q;
  gasEfficiency : Q;
  liquidityScore : Q;
  bridgeReliability : Q;
  slippageTolerance : Q
}.

Inductive RouteRecommendationType :=
  OPTIMAL | FASTEST | CHEAPEST | SAFEST | ALTERNATIVE.

Record Adjustments := {
  adj_slippage : option Q;
  adj_amount : option string;
  adj_timing : option string
}.

Record RouteRecommendation := {
  rec_type : RouteRecommendationType;
  reasons : list string;
  rec_pros : list string;
  rec_cons : list string;
  adjustments : option Adjustments
}.

Inductive RiskLevel := LOW | MEDIUM | HIGH.

(** [Partial<Route>]: every field may be absent. *)
Record PartialRoute := {
  p_id : option string;
  p_fromChainId : option Z;
  p_fromAmount : option string;
  p_fromAmountUSD : option string;
  p_fromToken : option TokenInfo;
  p_toChainId : option Z;
  p_toAmount : option string;
  p_toAmountUSD : option string;
  p_toAmountMin : option string;
  p_toToken : option TokenInfo;
  p_gasCostUSD : option string;
  p_steps : option (list RouteStep);
  p_fromAddress : option string;
  p_toAddress : option string
}.

Record AlternativeRoute := {
  route : Route;
  metrics : RouteMetrics;
  recommendation : RouteRecommendationType;
  successProbability : Q;
  riskLevel : RiskLevel;
  pros : list string;
  cons : list string
}.

Record RouteComparison := {
  originalRoute : option PartialRoute;
  alternativeRoutes : list AlternativeRoute;
  failureReasons : list string;
  recommendations : list RouteRecommendation
}.

(** *** Transaction status *)

Record IncludedStep := {
  inc_tool : string;
  inc_fromAmount : option string;
  inc_fromToken : option TokenInfo;
  inc_toAmount : option string;
  inc_toToken : option TokenInfo
}.

Record TransactionInfo := {
  txHash : string;
  tx_amount : option string;
  tx_token : option TokenInfo;
  tx_chainId : option Z;
  gasAmountUSD : option string;
  tx_amountUSD : option string;
  includedSteps : option (list IncludedStep)
}.

Inductive TransactionStatus := NOT_FOUND | INVALID | PENDING | DONE | FAILED.

(** [substatus] is a member of the string enum [TransactionSubstatus]; it
    is kept as the string the status API sends. *)
Record StatusResponse := {
  sending : TransactionInfo;
  receiving : option TransactionInfo;
  status : TransactionStatus;
  substatus : option string;
  substatusMessage : option string;
  st_fromAddress : option string;
  st_toAddress : option string
}.

(** *** Route requests *)

Record AllowDenyPrefer := {
  allow : option (list string);
  deny : option (list string);
  prefer : option (list string)
}.

Inductive Order := Order_CHEAPEST | Order_FASTEST.

(** [timing] is never set or read by the route analysis and is left out. *)
Record RouteOptions := {
  integrator : option string;
  fee : option Q;
  maxPriceImpact : option Q;
  order : option Order;
  opt_slippage : option Q;
  referrer : option string;
  allowSwitchChain : option bool;
  allowDestinationCall : option bool;
  bridges : option AllowDenyPrefer;
  exchanges : option AllowDenyPrefer
}.

(** [Partial<RoutesRequest>]; the cast to [RoutesRequest] in
    [fetchAlternativeRoutes] does not change the value. *)
Record RoutesRequest := {
  req_fromChainId : option Z;
  req_toChainId : option Z;
  fromTokenAddress : option string;
  toTokenAddress : option string;
  req_fromAmount : option string;
  req_fromAddress : option string;
  req_toAddress : option string;
  fromAmountForGas : option string;
  options : option RouteOptions
}.

Record RoutesResponse := { routes : list Route }.

(** ** The route analysis ([src/lib/route-analysis.ts]) *)

Import JS.

(** *** extractRouteParameters *)

Definition with_destination (p : RoutesRequest) (chain : Z) (addr : string)
  : RoutesRequest :=
  {| req_fromChainId := req_fromChainId p;
     req_toChainId := Some chain;
     fromTokenAddress := fromTokenAddress p;
     toTokenAddress := Some addr;
     req_fromAmount := req_fromAmount p;
     req_fromAddress := req_fromAddress p;
     req_toAddress := req_toAddress p;
     fromAmountForGas := fromAmountForGas p;
     options := options p |}.

(** the receiving leg, when it names both a token and a chain *)
Definition receiving_leg (tx : StatusResponse) : option (Z * string) :=
  match receiving tx with
  | Some r =>
      match tx_token r, tx_chainId r with
      | Some tok, Some chain =>
          if truthy_oint (Some chain) then Some (chain, address tok) else None
      | _, _ => None
      end
  | None => None
  end.

Definition extractRouteParameters (transactionData : StatusResponse)
  : option RoutesRequest :=
  let s := sending transactionData in
  match tx_token s with
  | None => None
  | Some tok =>
      if negb (truthy_oint (tx_chainId s)) then None
      else
        let baseParams :=
          {| req_fromChainId := tx_chainId s;
             req_toChainId := None;
             fromTokenAddress := Some (address tok);
             toTokenAddress := None;
             req_fromAmount := Some (or_ostr (tx_amount s) "0");
             req_fromAddress := st_fromAddress transactionData;
             req_toAddress := st_toAddress transactionData;
             fromAmountForGas := None;
             options := None |} in
        match receiving_leg transactionData with
        | Some (chain, addr) => Some (with_destination baseParams chain addr)
        | None =>
            match includedSteps s with
            | Some stps =>
                match last stps with
                | Some lastStep =>
                    match inc_toToken lastStep with
                    | Some t =>
                        Some (with_destination baseParams
                                (token_chainId t) (address t))
                    | None => Some baseParams
                    end
                | None => Some baseParams
                end
            | None => Some baseParams
            end
        end
  end.

(** *** generateAlternativeConfigs *)

Definition no_options : RouteOptions :=
  {| integrator := None; fee := None; maxPriceImpact := None; order := None;
     opt_slippage := None; referrer := None; allowSwitchChain := None;
     allowDestinationCall := None; bridges := None; exchanges := None |}.

(** [{...baseParams.options}] *)
Definition spread_options (o : option RouteOptions) : RouteOptions :=
  match o with Some x => x | None => no_options end.

Definition set_slippage (v : Q) (o : RouteOptions) : RouteOptions :=
  {| integrator := integrator o; fee := fee o;
     maxPriceImpact := maxPriceImpact o; order := order o;
     opt_slippage := Some v; referrer := referrer o;
     allowSwitchChain := allowSwitchChain o;
     allowDestinationCall := allowDestinationCall o;
     bridges := bridges o; exchanges := exchanges o |}.

Definition set_order (v : Order) (o : RouteOptions) : RouteOptions :=
  {| integrator := integrator o; fee := fee o;
     maxPriceImpact := maxPriceImpact o; order := Some v;
     opt_slippage := opt_slippage o; referrer := referrer o;
     allowSwitchChain := allowSwitchChain o;
     allowDestinationCall := allowDestinationCall o;
     bridges := bridges o; exchanges := exchanges o |}.

Definition set_bridges (v : AllowDenyPrefer) (o : RouteOptions) : RouteOptions :=
  {| integrator := integrator o; fee := fee o;
     maxPriceImpact := maxPriceImpact o; order := order o;
     opt_slippage := opt_slippage o; referrer := referrer o;
     allowSwitchChain := allowSwitchChain o;
     allowDestinationCall := allowDestinationCall o;
     bridges := Some v; exchanges := exchanges o |}.

Definition set_exchanges (v : AllowDenyPrefer) (o : RouteOptions) : RouteOptions :=
  {| integrator := integrator o; fee := fee o;
     maxPriceImpact := maxPriceImpact o; order := order o;
     opt_slippage := opt_slippage o; referrer := referrer o;
     allowSwitchChain := allowSwitchChain o;
     allowDestinationCall := allowDestinationCall o;
     bridges := bridges o; exchanges := Some v |}.

Definition set_allowSwitchChain (v : bool) (o : RouteOptions) : RouteOptions :=
  {| integrator := integrator o; fee := fee o;
     maxPriceImpact := maxPriceImpact o; order := order o;
     opt_slippage := opt_slippage o; referrer := referrer o;
     allowSwitchChain := Some v;
     allowDestinationCall := allowDestinationCall o;
     bridges := bridges o; exchanges := exchanges o |}.

(** [{...baseParams, options: o}] *)
Definition with_options (p : RoutesRequest) (o : RouteOptions) : RoutesRequest :=
  {| req_fromChainId := req_fromChainId p;
     req_toChainId := req_toChainId p;
     fromTokenAddress := fromTokenAddress p;
     toTokenAddress := toTokenAddress p;
     req_fromAmount := req_fromAmount p;
     req_fromAddress := req_fromAddress p;
     req_toAddress := req_toAddress p;
     fromAmountForGas := fromAmountForGas p;
     options := Some o |}.

Definition prefer_only (l : list string) : AllowDenyPrefer :=
  {| allow := None; deny := None; prefer := Some l |}.

Definition generateAlternativeConfigs (baseParams : RoutesRequest)
  : list RoutesRequest :=
  let base := spread_options (options baseParams) in
  let alternatives := [] in
  (* Base configuration *)
  let alternatives := alternatives ++ [baseParams] in
  (* Higher slippage tolerance *)
  let alternatives := alternatives ++
    [with_options baseParams
       (set_order Order_CHEAPEST (set_slippage (3 # 100) base))] in
  let alternatives := alternatives ++
    [with_options baseParams
       (set_order Order_FASTEST (set_slippage (5 # 100) base))] in
  (* Different bridge preferences *)
  let alternatives := alternatives ++
    [with_options baseParams
       (set_bridges (prefer_only ["hop"; "across"; "cbridge"])
          (set_slippage (2 # 100) base))] in
  (* Different exchange preferences *)
  let alternatives := alternatives ++
    [with_options baseParams
       (set_exchanges (prefer_only ["1inch"; "paraswap"; "0x"])
          (set_slippage (2 # 100) base))] in
  (* Allow switch chain *)
  let alternatives := alternatives ++
    [with_options baseParams
       (set_allowSwitchChain true (set_slippage (25 # 1000) base))] in
  (* Conservative approach *)
  let alternatives := alternatives ++
    [with_options baseParams
       (set_order Order_CHEAPEST
          (set_bridges (prefer_only ["hop"; "arbitrum"; "optimism"; "polygon"])
             (set_slippage (1 # 100) base)))] in
  alternatives.

(** *** Helper functions that do not read amounts *)

Inductive LiquidityDepth := DEPTH_HIGH | DEPTH_MEDIUM | DEPTH_LOW.

Definition highLiquidityTools : list string :=
  ["1inch"; "paraswap"; "0x"; "uniswap"; "sushiswap"].
Definition mediumLiquidityTools : list string :=
  ["dodo"; "kyber"; "balancer"].

Definition estimateLiquidityDepth (r : Route) : LiquidityDepth :=
  let hasHighLiquidity :=
    existsb (fun step => includes highLiquidityTools (toLowerCase (tool step)))
      (steps r) in
  let hasMediumLiquidity :=
    existsb (fun step => includes mediumLiquidityTools (toLowerCase (tool step)))
      (steps r) in
  if hasHighLiquidity then DEPTH_HIGH
  else if hasMediumLiquidity then DEPTH_MEDIUM
  else DEPTH_LOW.

(** The reliability table, a plain object used as a map from tool names.
    Only its own keys are modelled: the reading is that of the code for
    routes whose bridge steps use no name that every object inherits
    ([no_inherited_tool] below); [Double] models the inherited members
    too. *)
Definition reliabilityScores : gmap string Q :=
  list_to_map
    [("hop", 9); ("across", 85 # 10); ("cbridge", 8); ("arbitrum", 95 # 10);
     ("optimism", 95 # 10); ("polygon", 9); ("avalanche", 85 # 10);
     ("gnosis", 75 # 10); ("relay", 7); ("symbiosis", 65 # 10);
     ("thorswap", 6); ("squid", 7); ("allbridge", 6); ("mayan", 6);
     ("debridge", 65 # 10); ("chainflip", 55 # 10)].

Definition is_cross (s : RouteStep) : bool := StepType_eqb (step_type s) cross.
Definition is_swap (s : RouteStep) : bool := StepType_eqb (step_type s) swap.

(** [array.length] as a number *)
Definition len {A} (l : list A) : Q := inject_Z (Z.of_nat (length l)).

Definition calculateBridgeReliability (r : Route) : Q :=
  let bridgeSteps := List.filter is_cross (steps r) in
  if (length bridgeSteps =? 0)%nat then 9
  else
    let totalScore :=
      fold_left
        (fun sum step =>
           sum + or_onum (reliabilityScores !! toLowerCase (tool step)) 5)
        bridgeSteps 0 in
    totalScore / len bridgeSteps.

Definition extractSlippageTolerance (r : Route) : option Q :=
  let swapSteps :=
    List.filter (fun step => truthy_onum (slippage (action step))) (steps r) in
  match swapSteps with
  | s0 :: _ => Some (or_onum (slippage (action s0)) 0 * 100)
  | [] => None
  end.

Definition calculateOptimalScore (m : RouteMetrics) : Q :=
  let feeScore := Qmax 0 (100 - totalFeesUSD m) in
  let timeScore := Qmax 0 (100 - (estimatedTime m / 60) * 2) in
  let reliabilityScore := bridgeReliability m * 10 in
  let complexityScore := Qmax 0 (100 - complexityScore m * 10) in
  (feeScore * (3 # 10)) + (timeScore * (2 # 10))
  + (reliabilityScore * (3 # 10)) + (complexityScore * (2 # 10)).

Definition wellKnownBridges : list string :=
  ["hop"; "across"; "cbridge"; "arbitrum"; "optimism"; "polygon";
   "avalanche"; "gnosis"; "relay"].

Definition isWellKnownBridge (t : string) : bool :=
  includes wellKnownBridges (toLowerCase t).

(** *** Deduplication *)

Definition signature (r : Route) : string :=
  int_to_string (fromChainId r) +:+ "-" +:+
  int_to_string (toChainId r) +:+ "-" +:+
  address (fromToken r) +:+ "-" +:+
  address (toToken r) +:+ "-" +:+
  join "-" (map tool (steps r)).

(** The callback of [routes.filter] reads and extends the set [seen];
    the set is threaded through the traversal. *)
Fixpoint filter_seen (seen : gset string) (rs : list Route) : list Route :=
  match rs with
  | [] => []
  | r :: rs' =>
      let sig := signature r in
      if bool_decide (sig ∈ seen) then filter_seen seen rs'
      else r :: filter_seen ({[sig]} ∪ seen) rs'
  end.

Definition removeDuplicateRoutes (rs : list Route) : list Route :=
  filter_seen ∅ rs.

(** *** Failure reasons *)

(** [reasons.push(s)] *)
Definition push (l : list string) (s : string) : list string := l ++ [s].
Definition push_if (b : bool) (l : list string) (s : string) : list string :=
  if b then push l s else l.

Definition substatus_sentence (s : string) : string :=
  if String.eqb s "SLIPPAGE_EXCEEDED" then
    "Price moved beyond slippage tolerance during execution"
  else if String.eqb s "INSUFFICIENT_BALANCE" then
    "Insufficient balance to complete the transaction"
  else if String.eqb s "INSUFFICIENT_ALLOWANCE" then
    "Token allowance was insufficient"
  else if String.eqb s "OUT_OF_GAS" then
    "Transaction ran out of gas"
  else if String.eqb s "BRIDGE_NOT_AVAILABLE" then
    "Bridge service was unavailable"
  else "Transaction failed due to unknown reasons".

Definition analyzeFailureReasons (transactionData : StatusResponse)
  : list string :=
  let reasons := [] in
  let reasons :=
    match substatus transactionData with
    | Some s =>
        if truthy_str s then push reasons (substatus_sentence s) else reasons
    | None => reasons
    end in
  let reasons :=
    match substatusMessage transactionData with
    | Some m => if truthy_str m then push reasons m else reasons
    | None => reasons
    end in
  if (0 <? length reasons)%nat then reasons else ["Transaction failed"].

(** *** extractOriginalRoute *)

Definition extractOriginalRoute (transactionData : StatusResponse)
  : option PartialRoute :=
  let s := sending transactionData in
  let r := receiving transactionData in
  match tx_token s with
  | None => None
  | Some tok =>
      Some
        {| p_id := Some "original";
           p_fromChainId := Some (or_oint (tx_chainId s) 0%Z);
           p_fromAmount := Some (or_ostr (tx_amount s) "0");
           p_fromAmountUSD := Some (or_ostr (tx_amountUSD s) "0");
           p_fromToken := Some tok;
           p_toChainId :=
             Some (or_oint (r ≫= tx_chainId) (or_oint (tx_chainId s) 0%Z));
           p_toAmount := Some (or_ostr (r ≫= tx_amount) "0");
           p_toAmountUSD := Some (or_ostr (r ≫= tx_amountUSD) "0");
           p_toAmountMin := Some (or_ostr (r ≫= tx_amount) "0");
           p_toToken :=
             Some (match r ≫= tx_token with Some t => t | None => tok end);
           p_gasCostUSD := gasAmountUSD s;
           p_steps := Some [];
           p_fromAddress := st_fromAddress transactionData;
           p_toAddress := st_toAddress transactionData |}
  end.

(** *** Risk and success probability *)

Definition calculateSuccessProbability (r : Route) (m : RouteMetrics) : Q :=
  let probability := 95 in
  (* Reduce based on complexity *)
  let probability := probability - complexityScore m * 2 in
  (* Reduce based on bridge reliability *)
  let probability := probability - (10 - bridgeReliability m) * 3 in
  (* Reduce based on liquidity score *)
  let probability :=
    if ltb (liquidityScore m) 4 then probability - 15
    else if ltb (liquidityScore m) 7 then probability - 5
    else probability in
  (* Reduce based on price impact *)
  let probability :=
    if gtb (priceImpact m) (2 # 100) then probability - 10
    else if gtb (priceImpact m) (1 # 100) then probability - 5
    else probability in
  (* Reduce based on gas efficiency *)
  let probability :=
    if gtb (gasEfficiency m) 10 then probability - 10
    else if gtb (gasEfficiency m) 5 then probability - 5
    else probability in
  (* Apply route-specific factors *)
  let hasUnknownBridges :=
    existsb (fun step => negb (isWellKnownBridge (tool step))) (steps r) in
  let probability :=
    if hasUnknownBridges then probability - 10 else probability in
  Qmax 50 (Qmin 98 probability).

Definition calculateRiskLevel (m : RouteMetrics) (successProbability : Q)
  : RiskLevel :=
  if ltb successProbability 70 || gtb (complexityScore m) 6
     || ltb (bridgeReliability m) 6 then HIGH
  else if ltb successProbability 85 || gtb (complexityScore m) 3
          || ltb (bridgeReliability m) 8 then MEDIUM
  else LOW.

(** *** Functions that read amounts *)

Section Analysis.

(** The language's [parseFloat], restricted to finite results. *)
Variable parseFloat : string -> Q.

Definition sum_feeCosts (l : list FeeCost) : Q :=
  fold_left
    (fun stepTotal fee => stepTotal + parseFloat (or_ostr (fee_amountUSD fee) "0"))
    l 0.

Definition sum_gasCosts (l : list GasCost) : Q :=
  fold_left
    (fun gasTotal gas => gasTotal + parseFloat (or_ostr (gas_amountUSD gas) "0"))
    l 0.

(** [step.estimate.feeCosts?.reduce(...) || 0] and the same for gas *)
Definition stepFees (step : RouteStep) : Q :=
  or_onum (sum_feeCosts <$> feeCosts (estimate step)) 0.
Definition gasFees (step : RouteStep) : Q :=
  or_onum (sum_gasCosts <$> gasCosts (estimate step)) 0.

Definition calculateRouteMetrics (r : Route) : RouteMetrics :=
  (* Calculate total fees in USD *)
  let totalFeesUSD :=
    fold_left (fun total step => total + stepFees step + gasFees step)
      (steps r) 0 in
  (* Calculate execution time (sum of all steps) *)
  let executionTimeMinutes :=
    fold_left
      (fun total step => total + executionDuration (estimate step) / 60)
      (steps r) 0 in
  (* Calculate price impact *)
  let fromAmountUSD := parseFloat (or_ostr (fromAmountUSD r) "0") in
  let toAmountUSD := parseFloat (or_ostr (toAmountUSD r) "0") in
  let priceImpactPercent :=
    if gtb fromAmountUSD 0
    then Qabs ((fromAmountUSD - toAmountUSD - totalFeesUSD) / fromAmountUSD) * 100
    else 0 in
  (* Complexity score based on number of steps and types *)
  let complexityScore :=
    len (steps r)
    + (if existsb is_cross (steps r) then 2 else 0)
    + len (List.filter is_swap (steps r)) * (5 # 10) in
  (* Gas efficiency (lower is better) *)
  let totalGasUSD :=
    fold_left (fun total step => total + gasFees step) (steps r) 0 in
  let gasEfficiency :=
    if gtb fromAmountUSD 0 then (totalGasUSD / fromAmountUSD) * 100 else 100 in
  let liquidityDepth := estimateLiquidityDepth r in
  let bridgeReliability := calculateBridgeReliability r in
  let slippageTolerance := or_onum (extractSlippageTolerance r) 2 in
  {| totalFeesUSD := totalFeesUSD;
     totalGasUSD := totalGasUSD;
     estimatedTime := executionTimeMinutes * 60;
     priceImpact := priceImpactPercent / 100;
     complexityScore := complexityScore;
     gasEfficiency := gasEfficiency;
     liquidityScore :=
       match liquidityDepth with
       | DEPTH_HIGH => 9
       | DEPTH_MEDIUM => 6
       | DEPTH_LOW => 3
       end;
     bridgeReliability := bridgeReliability;
     slippageTolerance := slippageTolerance |}.

Definition RouteRecommendationType_eqb (a b : RouteRecommendationType) : bool :=
  match a, b with
  | OPTIMAL, OPTIMAL | FASTEST, FASTEST | CHEAPEST, CHEAPEST
  | SAFEST, SAFEST | ALTERNATIVE, ALTERNATIVE => true
  | _, _ => false
  end.

(** [sorted[0]?.id === route.id] *)
Definition first_is (sorted : list Route) (r : Route) : bool :=
  match head sorted with
  | Some r0 => String.eqb (route_id r0) (route_id r)
  | None => false
  end.

Definition byFees (allRoutes : list Route) : list Route :=
  sort (fun a b => totalFeesUSD (calculateRouteMetrics a)
                   - totalFeesUSD (calculateRouteMetrics b)) allRoutes.
Definition byTime (allRoutes : list Route) : list Route :=
  sort (fun a b => estimatedTime (calculateRouteMetrics a)
                   - estimatedTime (calculateRouteMetrics b)) allRoutes.
Definition byReliability (allRoutes : list Route) : list Route :=
  sort (fun a b => bridgeReliability (calculateRouteMetrics b)
                   - bridgeReliability (calculateRouteMetrics a)) allRoutes.

Definition isOptimal (r : Route) (m : RouteMetrics) (allRoutes : list Route)
  : bool :=
  let optimalScore := calculateOptimalScore m in
  forallb
    (fun r' =>
       let otherMetrics := calculateRouteMetrics r' in
       let otherScore := calculateOptimalScore otherMetrics in
       geb optimalScore otherScore || String.eqb (route_id r') (route_id r))
    allRoutes.

Definition generateRouteRecommendation
  (r : Route) (m : RouteMetrics) (allRoutes : list Route)
  : RouteRecommendation :=
  let type := ALTERNATIVE in
  let reasons := [] in
  let pros := [] in
  let cons := [] in
  (* Determine recommendation type *)
  let '(type, reasons) :=
    if first_is (byFees allRoutes) r then
      (CHEAPEST, push reasons "Lowest total fees among all options")
    else if first_is (byTime allRoutes) r then
      (FASTEST, push reasons "Shortest estimated execution time")
    else if first_is (byReliability allRoutes) r then
      (SAFEST, push reasons "Uses most reliable bridges and exchanges")
    else (type, reasons) in
  (* Determine if this is the optimal route (balanced score) *)
  let '(type, reasons) :=
    if isOptimal r m allRoutes && RouteRecommendationType_eqb type ALTERNATIVE
    then (OPTIMAL, push reasons "Best balance of cost, time, and reliability")
    else (type, reasons) in
  (* Generate pros *)
  let pros := push_if (ltb (totalFeesUSD m) 10) pros "Low transaction fees" in
  let pros := push_if (ltb (estimatedTime m) 300) pros "Fast execution time" in
  let pros := push_if (gtb (bridgeReliability m) 8) pros
                "Uses reliable, battle-tested bridges" in
  let pros := push_if (ltb (complexityScore m) 3) pros
                "Simple, straightforward route" in
  let pros := push_if (ltb (gasEfficiency m) 2) pros "Gas efficient" in
  let pros := push_if (gtb (liquidityScore m) 7) pros "High liquidity depth" in
  (* Generate cons *)
  let cons := push_if (gtb (totalFeesUSD m) 50) cons "Higher transaction fees" in
  let cons := push_if (gtb (estimatedTime m) 900) cons "Longer execution time" in
  let cons := push_if (ltb (bridgeReliability m) 6) cons
                "Uses less proven bridges" in
  let cons := push_if (gtb (complexityScore m) 5) cons
                "Complex multi-step route" in
  let cons := push_if (gtb (gasEfficiency m) 5) cons "Higher gas costs" in
  let cons := push_if (gtb (priceImpact m) (1 # 100)) cons
                "Higher price impact" in
  (* Suggest adjustments *)
  let adjustments :=
    if ltb (slippageTolerance m) 2 && gtb (priceImpact m) (5 # 1000)
    then Some {| adj_slippage := Some 3; adj_amount := None;
                 adj_timing := None |}
    else None in
  {| rec_type := type;
     reasons := reasons;
     rec_pros := pros;
     rec_cons := cons;
     adjustments := adjustments |}.

(** *** fetchAlternativeRoutes *)

Section Fetch.

(** [lifiClient.getRoutes], the routing API: [None] stands for a rejected
    promise. *)
Variable getRoutes : RoutesRequest -> option RoutesResponse.

(** one entry of the comparison, built from a deduplicated route *)
Definition to_alternative (uniqueRoutes : list Route) (r : Route)
  : AlternativeRoute :=
  let metrics := calculateRouteMetrics r in
  let successProbability := calculateSuccessProbability r metrics in
  let riskLevel := calculateRiskLevel metrics successProbability in
  let recommendation := generateRouteRecommendation r metrics uniqueRoutes in
  {| route := r;
     metrics := metrics;
     recommendation := rec_type recommendation;
     successProbability := successProbability;
     riskLevel := riskLevel;
     pros := rec_pros recommendation;
     cons := rec_cons recommendation |}.

(** The seven requests are awaited jointly; a rejected one counts as an
    empty list.  With typed inputs nothing else in the body throws, so the
    outer [catch] is never entered. *)
Definition fetchAlternativeRoutes (transactionData : StatusResponse)
  : option RouteComparison :=
  match extractRouteParameters transactionData with
  | None => None
  | Some baseParams =>
      if negb (truthy_oint (req_fromChainId baseParams))
         || negb (truthy_oint (req_toChainId baseParams))
      then None
      else
        let alternatives := generateAlternativeConfigs baseParams in
        let allRoutesArrays :=
          map (fun config =>
                 match getRoutes config with
                 | Some response => routes response
                 | None => []
                 end)
            alternatives in
        let allRoutes := concat allRoutesArrays in
        if (length allRoutes =? 0)%nat then
          Some {| originalRoute := None;
                  alternativeRoutes := [];
                  failureReasons := ["No alternative routes found"];
                  recommendations := [] |}
        else
          (* Remove duplicates and process routes *)
          let uniqueRoutes := removeDuplicateRoutes allRoutes in
          let alternativeRoutes := map (to_alternative uniqueRoutes) uniqueRoutes in
          (* Sort by optimal score (best routes first) *)
          let alternativeRoutes :=
            sort (fun a b =>
                    let scoreA := calculateOptimalScore (metrics a) in
                    let scoreB := calculateOptimalScore (metrics b) in
                    scoreB - scoreA)
              alternativeRoutes in
          let failureReasons := analyzeFailureReasons transactionData in
          let recommendations :=
            map (fun r =>
                   generateRouteRecommendation (route r) (metrics r) uniqueRoutes)
              alternativeRoutes in
          Some {| originalRoute := extractOriginalRoute transactionData;
                  alternativeRoutes := alternativeRoutes;
                  failureReasons := failureReasons;
                  recommendations := recommendations |}
  end.

End Fetch.
End Analysis.

(** ** Notions used to state the properties *)

Section Extremes.
Context {A : Type} (key : A -> Q).

(** [x] is the first element of [l], in list order, that has the lowest
    key: every element before it has a larger key, none after it a
    smaller one. *)
Definition first_lowest (l : list A) (x : A) : Prop :=
  exists l1 l2,
    l = l1 ++ x :: l2
    /\ Forall (fun y => key x < key y) l1
    /\ Forall (fun y => key x <= key y) l2.

End Extremes.

Section Readings.
Variable parseFloat : string -> Q.

(** metrics of a candidate, as the recommendation function recomputes them *)
Definition fees_of (r : Route) : Q :=
  totalFeesUSD (calculateRouteMetrics parseFloat r).
Definition time_of (r : Route) : Q :=
  estimatedTime (calculateRouteMetrics parseFloat r).
Definition reliability_of (r : Route) : Q :=
  bridgeReliability (calculateRouteMetrics parseFloat r).
Definition score_of (r : Route) : Q :=
  calculateOptimalScore (calculateRouteMetrics parseFloat r).

(** the category a candidate receives when it is passed together with its
    own metrics, as [fetchAlternativeRoutes] does *)
Definition label (allRoutes : list Route) (r : Route) : RouteRecommendationType :=
  rec_type
    (generateRouteRecommendation parseFloat r
       (calculateRouteMetrics parseFloat r) allRoutes).

(** the score [s] is at least the score of every candidate whose id is not
    [i] *)
Definition tops (allRoutes : list Route) (i : string) (s : Q) : Prop :=
  forall r', r' ∈ allRoutes -> route_id r' <> i -> score_of r' <= s.

(** The priority rule in the words of the specification: lowest fees,
    else lowest time, else highest reliability, else top score. *)
Definition claimed_category (allRoutes : list Route) (r : Route)
  : RouteRecommendationType :=
  if forallb (fun r' => Qle_bool (fees_of r) (fees_of r')) allRoutes
  then CHEAPEST
  else if forallb (fun r' => Qle_bool (time_of r) (time_of r')) allRoutes
  then FASTEST
  else if forallb (fun r' => Qle_bool (reliability_of r') (reliability_of r))
            allRoutes
  then SAFEST
  else if forallb (fun r' => Qle_bool (score_of r') (score_of r)) allRoutes
  then OPTIMAL
  else ALTERNATIVE.


End Readings.

(** The composite signature in the words of the specification: the five
    components as a tuple. *)
Definition composite (r : Route) : Z * Z * string * string * list string :=
  (fromChainId r, toChainId r, address (fromToken r), address (toToken r),
   map tool (steps r)).

(** First occurrence wins: a route is kept when no route before it in the
    input has the same key. *)
Fixpoint first_occurrences `{EqDecision K} (key : Route -> K)
    (earlier : list K) (rs : list Route) : list Route :=
  match rs with
  | [] => []
  | r :: rs' =>
      if bool_decide (key r ∈ earlier)
      then first_occurrences key (earlier ++ [key r]) rs'
      else r :: first_occurrences key (earlier ++ [key r]) rs'
  end.

(** the fixed sentences of the failure analyzer *)
Definition known_sentences : list (string * string) :=
  [("SLIPPAGE_EXCEEDED",
    "Price moved beyond slippage tolerance during execution");
   ("INSUFFICIENT_BALANCE",
    "Insufficient balance to complete the transaction");
   ("INSUFFICIENT_ALLOWANCE", "Token allowance was insufficient");
   ("OUT_OF_GAS", "Transaction ran out of gas");
   ("BRIDGE_NOT_AVAILABLE", "Bridge service was unavailable")].

(** the free-text message as a list: empty when absent *)
Definition message_part (tx : StatusResponse) : list string :=
  match substatusMessage tx with
  | Some m => if truthy_str m then [m] else []
  | None => []
  end.

(** ** Sample inputs *)

Module Sample.

Definition usdc (a : string) (c : Z) : TokenInfo :=
  {| address := a; token_chainId := c; symbol := "USDC"; decimals := 6;
     token_name := "USD Coin"; priceUSD := None |}.

Definition fee_of (usd : string) : FeeCost :=
  {| fee_name := "Bridge fee"; fee_token := usdc "0xA0b8" 1;
     fee_amount := None; fee_amountUSD := Some usd; fee_included := None |}.

Definition gas_of (usd : string) : GasCost :=
  {| gas_type := SEND; gas_amount := "21000"; gas_amountUSD := Some usd;
     gas_token := usdc "0xEeee" 1 |}.

Definition step_of (ty : StepType) (t : string) (seconds : Q)
    (fees : list FeeCost) (gas : list GasCost) : RouteStep :=
  {| step_id := "step"; step_type := ty; tool := t;
     action :=
       {| act_fromChainId := 1; act_toChainId := 10;
          act_fromToken := usdc "0xA0b8" 1; act_toToken := usdc "0x0b2C" 10;
          act_fromAmount := "1000000000"; slippage := None |};
     estimate :=
       {| est_tool := t; est_fromAmount := "1000000000";
          est_toAmount := "990000000"; est_toAmountMin := "980000000";
          executionDuration := seconds;
          feeCosts := Some fees; gasCosts := Some gas |} |}.

Definition route_of (i : string) (fromUSD toUSD : string)
    (ss : list RouteStep) : Route :=
  {| route_id := i; fromChainId := 1; fromAmountUSD := Some fromUSD;
     fromAmount := "1000000000"; fromToken := usdc "0xA0b8" 1;
     fromAddress := None; toChainId := 10; toAmountUSD := Some toUSD;
     toAmount := "990000000"; toAmountMin := "980000000";
     toToken := usdc "0x0b2C" 10; toAddress := None; gasCostUSD := None;
     steps := ss |}.

(** two bridge routes with the same fees; the second one is faster *)
Definition via_hop : Route :=
  route_of "route-1" "1000" "990"
    [step_of cross "hop" 120 [fee_of "1.00"] [gas_of "0.50"]].
Definition via_across : Route :=
  route_of "route-2" "1000" "990"
    [step_of cross "across" 60 [fee_of "1.00"] [gas_of "0.50"]].

(** a slow and expensive route through a bridge outside the table *)
Definition via_unknown : Route :=
  route_of "route-3" "1000" "900"
    [step_of swap "dodo" 600 [fee_of "20"] [gas_of "5"];
     step_of cross "wormhole" 1200 [fee_of "40"] [gas_of "5"]].

(** a route whose only fee cost is a negative amount *)
Definition with_rebate : Route :=
  route_of "route-4" "1000" "990"
    [step_of cross "hop" 120 [fee_of "-1"] [gas_of "0.50"]].

(** a route whose source amount in USD is negative *)
Definition negative_source : Route :=
  route_of "route-5" "-100" "0"
    [step_of cross "hop" 120 [fee_of "1.00"] [gas_of "0.50"]].

(** a route without the source amount in USD *)
Definition missing_source : Route :=
  {| route_id := "route-6"; fromChainId := 1; fromAmountUSD := None;
     fromAmount := "1000000000"; fromToken := usdc "0xA0b8" 1;
     fromAddress := None; toChainId := 10; toAmountUSD := Some "990";
     toAmount := "990000000"; toAmountMin := "980000000";
     toToken := usdc "0x0b2C" 10; toAddress := None; gasCostUSD := None;
     steps := [step_of cross "hop" 120 [fee_of "1.00"] [gas_of "0.50"]] |}.

(** two routes whose tool sequences differ and whose joined signatures
    coincide *)
Definition one_tool : Route :=
  route_of "route-7" "1000" "990" [step_of cross "a-b" 120 [] []].
Definition two_tools : Route :=
  route_of "route-8" "1000" "990"
    [step_of swap "a" 60 [] []; step_of cross "b" 60 [] []].

Definition leg (amount : string) (t : TokenInfo) (c : Z) : TransactionInfo :=
  {| txHash := "0xabc"; tx_amount := Some amount; tx_token := Some t;
     tx_chainId := Some c; gasAmountUSD := Some "0.50";
     tx_amountUSD := Some "1000"; includedSteps := None |}.

(** a failed transfer from chain 1 to chain 10 *)
Definition failed_tx (sub msg : option string) : StatusResponse :=
  {| sending := leg "1000000000" (usdc "0xA0b8" 1) 1;
     receiving := Some (leg "990000000" (usdc "0x0b2C" 10) 10);
     status := FAILED; substatus := sub; substatusMessage := msg;
     st_fromAddress := Some "0x1111"; st_toAddress := Some "0x1111" |}.

(** the request parameters read from [failed_tx] *)
Definition failed_params : RoutesRequest :=
  {| req_fromChainId := Some 1%Z; req_toChainId := Some 10%Z;
     fromTokenAddress := Some "0xA0b8"; toTokenAddress := Some "0x0b2C";
     req_fromAmount := Some "1000000000";
     req_fromAddress := Some "0x1111"; req_toAddress := Some "0x1111";
     fromAmountForGas := None; options := None |}.

(** a routing API on which every request is rejected *)
Definition api_down : RoutesRequest -> option RoutesResponse :=
  fun _ => None.

(** a routing API that answers every request with the same three routes *)
Definition api_three : RoutesRequest -> option RoutesResponse :=
  fun _ => Some {| routes := [via_unknown; via_hop; via_across] |}.

End Sample.

(** ** Further notions *)

(** the sum of a numeric reading over a list *)
Definition total {A : Type} (f : A -> Q) (l : list A) : Q :=
  foldr (fun x acc => f x + acc) 0 l.

(** risk levels in increasing order of risk *)
Definition risk_rank (l : RiskLevel) : nat :=
  match l with LOW => 0 | MEDIUM => 1 | HIGH => 2 end.

(** what a request says besides its options *)
Definition endpoints (p : RoutesRequest)
  : option Z * option Z * option string * option string * option string
    * option string * option string * option string :=
  (req_fromChainId p, req_toChainId p, fromTokenAddress p, toTokenAddress p,
   req_fromAmount p, req_fromAddress p, req_toAddress p, fromAmountForGas p).

(** the options that no variant of [generateAlternativeConfigs] sets *)
Definition untouched_options (o : option RouteOptions)
  : option string * option Q * option Q * option string * option bool :=
  (o ≫= integrator, o ≫= fee, o ≫= maxPriceImpact, o ≫= referrer,
   o ≫= allowDestinationCall).

(** the slippage a request asks for *)
Definition requested_slippage (p : RoutesRequest) : option Q :=
  options p ≫= opt_slippage.

(** the routes one request contributes: those of the response, none when
    the request is rejected *)
Definition answered (getRoutes : RoutesRequest -> option RoutesResponse)
    (config : RoutesRequest) : list Route :=
  match getRoutes config with
  | Some response => routes response
  | None => []
  end.

(** all routes answered to the variants of a request, in request order *)
Definition gathered (getRoutes : RoutesRequest -> option RoutesResponse)
    (baseParams : RoutesRequest) : list Route :=
  concat (map (answered getRoutes) (generateAlternativeConfigs baseParams)).

(** a step that carries a non-zero slippage *)
Definition has_slippage (step : RouteStep) : bool :=
  truthy_onum (slippage (action step)).

(** The properties of [Object.prototype].  Reading one of these keys from
    a plain object that does not define it yields the inherited member, a
    function or an object. *)
Definition Object_prototype : list string :=
  ["constructor"; "__defineGetter__"; "__defineSetter__"; "hasOwnProperty";
   "__lookupGetter__"; "__lookupSetter__"; "isPrototypeOf";
   "propertyIsEnumerable"; "toString"; "valueOf"; "__proto__";
   "toLocaleString"].

(** no bridge step of the route uses a tool whose lower-cased name is a
    key that the reliability table inherits *)
Definition no_inherited_tool (r : Route) : bool :=
  forallb (fun step => negb (includes Object_prototype (toLowerCase (tool step))))
    (List.filter is_cross (steps r)).

(** *** The expanded-routes state of the comparison view
    ([src/components/flow/StageDetails.tsx]) *)

Record RouteComparisonState := {
  loading : bool;
  alternatives : option RouteComparison;
  error : option string;
  expandedRoutes : gset string;
  copiedText : option string
}.

(** the state update of [toggleExpanded]: a copy of the set with the id
    removed when present and added otherwise *)
Definition toggleExpanded (routeId : string) (prev : RouteComparisonState)
  : RouteComparisonState :=
  let newExpanded := expandedRoutes prev in
  let newExpanded :=
    if bool_decide (routeId ∈ newExpanded)
    then newExpanded ∖ {[routeId]}
    else {[routeId]} ∪ newExpanded in
  {| loading := loading prev;
     alternatives := alternatives prev;
     error := error prev;
     expandedRoutes := newExpanded;
     copiedText := copiedText prev |}.

(** ** Further sample inputs *)

Module More.
Import Sample.

(** a single aggregator step, neither a swap nor a bridge *)
Definition via_1inch : Route :=
  route_of "route-9" "1000" "995"
    [step_of lifi "1inch" 30 [fee_of "1.00"] [gas_of "0.50"]].

(** a step with a slippage setting *)
Definition step_with_slippage (t : string) (s : option Q) : RouteStep :=
  {| step_id := "step"; step_type := swap; tool := t;
     action :=
       {| act_fromChainId := 1; act_toChainId := 1;
          act_fromToken := usdc "0xA0b8" 1; act_toToken := usdc "0xdAC1" 1;
          act_fromAmount := "1000000000"; slippage := s |};
     estimate :=
       {| est_tool := t; est_fromAmount := "1000000000";
          est_toAmount := "990000000"; est_toAmountMin := "980000000";
          executionDuration := 30;
          feeCosts := None; gasCosts := Some [gas_of "0.50"] |} |}.

(** a route whose second step is the first with a slippage *)
Definition with_slippage : Route :=
  route_of "route-10" "1000" "990"
    [step_with_slippage "uniswap" None;
     step_with_slippage "sushiswap" (Some (5 # 1000));
     step_with_slippage "dodo" (Some (3 # 100))].

Definition hint (t : string) (to : option TokenInfo) : IncludedStep :=
  {| inc_tool := t; inc_fromAmount := None; inc_fromToken := None;
     inc_toAmount := None; inc_toToken := to |}.

(** a failed transfer without a receiving leg, with included steps *)
Definition hinted_tx : StatusResponse :=
  {| sending :=
       {| txHash := "0xabc"; tx_amount := None;
          tx_token := Some (usdc "0xA0b8" 1); tx_chainId := Some 1%Z;
          gasAmountUSD := None; tx_amountUSD := None;
          includedSteps :=
            Some [hint "uniswap" (Some (usdc "0xdAC1" 1));
                  hint "hop" (Some (usdc "0x0b2C" 10))] |};
     receiving := None; status := FAILED; substatus := None;
     substatusMessage := None; st_fromAddress := None;
     st_toAddress := None |}.

(** a failed transfer without any hint of its destination *)
Definition blind_tx : StatusResponse :=
  {| sending :=
       {| txHash := "0xabc"; tx_amount := Some "5";
          tx_token := Some (usdc "0xA0b8" 1); tx_chainId := Some 1%Z;
          gasAmountUSD := None; tx_amountUSD := None;
          includedSteps := None |};
     receiving := None; status := FAILED; substatus := None;
     substatusMessage := None; st_fromAddress := None;
     st_toAddress := None |}.

(** request parameters that already carry options *)
Definition tuned_params : RoutesRequest :=
  {| req_fromChainId := Some 1%Z; req_toChainId := Some 10%Z;
     fromTokenAddress := Some "0xA0b8"; toTokenAddress := Some "0x0b2C";
     req_fromAmount := Some "1000000000";
     req_fromAddress := None; req_toAddress := None;
     fromAmountForGas := None;
     options :=
       Some {| integrator := Some "lifi-lens"; fee := Some (1 # 100);
               maxPriceImpact := None; order := Some Order_FASTEST;
               opt_slippage := Some (1 # 1000); referrer := None;
               allowSwitchChain := None; allowDestinationCall := Some true;
               bridges := None; exchanges := None |} |}.

(** a routing API that answers the base request only, with a repeated
    route *)
Definition api_base_only : RoutesRequest -> option RoutesResponse :=
  fun config =>
    match options config with
    | None => Some {| routes := [via_hop; via_across; via_hop] |}
    | Some _ => None
    end.

Definition view_state (expanded : gset string) : RouteComparisonState :=
  {| loading := false; alternatives := None; error := None;
     expandedRoutes := expanded; copiedText := None |}.

End More.

(** ** The analysis in double precision

    The functions of the route analysis that compute with numbers, a
    second time: over IEEE 754 binary64 values, the numbers of JavaScript.
    Every operation rounds to the nearest value, [NaN] and the two
    infinities are values, a comparison with [NaN] is false, and [0], [-0]
    and [NaN] are falsy.  The properties that depend on rounding, on [NaN]
    or on what [parseFloat] makes of a string are stated on this embedding.
    Token, fee and gas records carry no number and are shared with the
    embedding above. *)

Module Double.
Import Floats.

Local Open Scope float_scope.
Local Set Warnings "-inexact-float".

(** *** JavaScript helpers on numbers *)

(** [a > b] and [a >= b]; [a < b] and [a <= b] are [a <? b] and
    [a <=? b]. *)
Definition gtb (a b : float) : bool := b <? a.
Definition geb (a b : float) : bool := b <=? a.

(** the comparisons as propositions *)
Definition lt (a b : float) : Prop := (a <? b) = true.
Definition le (a b : float) : Prop := (a <=? b) = true.

(** Truthiness of a number: [0], [-0] and [NaN] are falsy. *)
Definition truthy_num (x : float) : bool := (x <? 0) || (0 <? x).
Definition truthy_onum (x : option float) : bool :=
  match x with Some v => truthy_num v | None => false end.

(** [x || d] on numbers and on optional numbers *)
Definition or_num (x d : float) : float := if truthy_num x then x else d.
Definition or_onum (x : option float) (d : float) : float :=
  match x with Some v => or_num v d | None => d end.

(** [Math.max] and [Math.min] of two numbers: [NaN] when an argument is
    [NaN]; [+0] counts as larger than [-0]. *)
Definition Math_max (a b : float) : float :=
  if is_nan a || is_nan b then nan
  else if a <? b then b
  else if b <? a then a
  else if get_sign a then b else a.
Definition Math_min (a b : float) : float :=
  if is_nan a || is_nan b then nan
  else if a <? b then a
  else if b <? a then b
  else if get_sign a then a else b.

(** an integer as a number, and [array.length] *)
Definition of_Z (z : Z) : float := of_uint63 (Uint63.of_Z z).
Definition len {A} (l : list A) : float := of_Z (Z.of_nat (length l)).

(** [Array.prototype.sort] with a comparator.  The comparator's result
    puts [b] before [a] when it is above zero; a [NaN] result counts as
    [+0].  The sort is stable, so for a consistent comparator the language
    fixes the result, which this insertion sort from the right end
    computes.  For a comparator that is not consistent (its results may be
    [NaN] for keys that differ) the order is left to the implementation;
    the properties below that depend on the order assume keys other than
    [NaN]. *)
Section Sort.
Context {A : Type} (cmp : A -> A -> float).

Fixpoint insert (x : A) (l : list A) : list A :=
  match l with
  | [] => [x]
  | y :: l' => if 0 <? cmp x y then y :: insert x l' else x :: y :: l'
  end.

Definition sort (l : list A) : list A := foldr insert [] l.
End Sort.

(** A reader of plain decimal numerals with the results of [parseFloat]
    on them: an optional sign, then [Infinity] or digits with an optional
    fraction; it stops at the first character that does not fit and
    yields [NaN] when no digit was read.  The value is the quotient of two
    integers, rounded once, as [parseFloat] rounds (exact integers up to
    fifteen digits in all). *)
Fixpoint read_digits (s : string) (num den : Z) (seen point : bool)
  : Z * Z * bool :=
  match s with
  | EmptyString => (num, den, seen)
  | String c s' =>
      match digit_of c with
      | Some d =>
          read_digits s' (10 * num + d)%Z (if point then (10 * den)%Z else den)
            true point
      | None =>
          if Ascii.eqb c "."%char && negb point
          then read_digits s' num den seen true
          else (num, den, seen)
      end
  end.

Definition read_unsigned (s : string) : float :=
  if String.prefix "Infinity" s then infinity
  else
    let '(num, den, seen) := read_digits s 0 1 false false in
    if seen then of_Z num / of_Z den else nan.

Definition readNumber (s : string) : float :=
  match s with
  | String "-"%char s' => - read_unsigned s'
  | String "+"%char s' => read_unsigned s'
  | _ => read_unsigned s
  end.

(** *** Data model: the records that carry numbers *)

Record StepAction := {
  act_fromChainId : Z;
  act_toChainId : Z;
  act_fromToken : TokenInfo;
  act_toToken : TokenInfo;
  act_fromAmount : string;
  slippage : option float
}.

Record StepEstimate := {
  est_tool : string;
  est_fromAmount : string;
  est_toAmount : string;
  est_toAmountMin : string;
  executionDuration : float;
  feeCosts : option (list FeeCost);
  gasCosts : option (list GasCost)
}.

Record RouteStep := {
  step_id : string;
  step_type : StepType;
  tool : string;
  action : StepAction;
  estimate : StepEstimate
}.

Record Route := {
  route_id : string;
  fromChainId : Z;
  fromAmountUSD : option string;
  fromAmount : string;
  fromToken : TokenInfo;
  fromAddress : option string;
  toChainId : Z;
  toAmountUSD : option string;
  toAmount : string;
  toAmountMin : string;
  toToken : TokenInfo;
  toAddress : option string;
  gasCostUSD : option string;
  steps : list RouteStep
}.

Record RouteMetrics := {
  totalFeesUSD : float;
  totalGasUSD : float;
  estimatedTime : float;
  priceImpact : float;
  complexityScore : float;
  gasEfficiency : float;
  liquidityScore : float;
  bridgeReliability : float;
  slippageTolerance : float
}.

Record Adjustments := {
  adj_slippage : option float;
  adj_amount : option string;
  adj_timing : option string
}.

Record RouteRecommendation := {
  rec_type : RouteRecommendationType;
  reasons : list string;
  rec_pros : list string;
  rec_cons : list string;
  adjustments : option Adjustments
}.

(** *** Helper functions *)

Definition estimateLiquidityDepth (r : Route) : LiquidityDepth :=
  let hasHighLiquidity :=
    existsb (fun step => includes highLiquidityTools (toLowerCase (tool step)))
      (steps r) in
  let hasMediumLiquidity :=
    existsb (fun step => includes mediumLiquidityTools (toLowerCase (tool step)))
      (steps r) in
  if hasHighLiquidity then DEPTH_HIGH
  else if hasMediumLiquidity then DEPTH_MEDIUM
  else DEPTH_LOW.

(** The reliability table is a plain object.  Reading a key yields the
    number of the table, or the member every object inherits under that
    key, or [undefined]. *)
Definition reliabilityScores : gmap string float :=
  list_to_map
    [("hop", 9); ("across", 8.5); ("cbridge", 8); ("arbitrum", 9.5);
     ("optimism", 9.5); ("polygon", 9); ("avalanche", 8.5);
     ("gnosis", 7.5); ("relay", 7); ("symbiosis", 6.5);
     ("thorswap", 6); ("squid", 7); ("allbridge", 6); ("mayan", 6);
     ("debridge", 6.5); ("chainflip", 5.5)].

Inductive Member := Own (v : float) | Inherited | Undefined.

Definition get_score (key : string) : Member :=
  match reliabilityScores !! key with
  | Some v => Own v
  | None => if includes Object_prototype key then Inherited else Undefined
  end.

(** The accumulator of the [reduce] over the bridge steps: a number, or,
    once an inherited member has been added to it, a string that is not a
    numeral ([+] concatenates from then on). *)
Inductive Accumulator := Num (x : float) | Text.

Definition is_cross (s : RouteStep) : bool := StepType_eqb (step_type s) cross.
Definition is_swap (s : RouteStep) : bool := StepType_eqb (step_type s) swap.

Definition calculateBridgeReliability (r : Route) : float :=
  let bridgeSteps := List.filter is_cross (steps r) in
  if (length bridgeSteps =? 0)%nat then 9
  else
    let totalScore :=
      fold_left
        (fun sum step =>
           match sum, get_score (toLowerCase (tool step)) with
           | Num x, Own v => Num (x + or_num v 5)
           | Num x, Undefined => Num (x + 5)
           | _, _ => Text
           end)
        bridgeSteps (Num 0) in
    match totalScore with
    | Num t => t / len bridgeSteps
    | Text => nan
    end.

Definition extractSlippageTolerance (r : Route) : option float :=
  let swapSteps :=
    List.filter (fun step => truthy_onum (slippage (action step))) (steps r) in
  match swapSteps with
  | s0 :: _ => Some (or_onum (slippage (action s0)) 0 * 100)
  | [] => None
  end.

Definition calculateOptimalScore (m : RouteMetrics) : float :=
  let feeScore := Math_max 0 (100 - totalFeesUSD m) in
  let timeScore := Math_max 0 (100 - (estimatedTime m / 60) * 2) in
  let reliabilityScore := bridgeReliability m * 10 in
  let complexityScore := Math_max 0 (100 - complexityScore m * 10) in
  (feeScore * 0.3) + (timeScore * 0.2)
  + (reliabilityScore * 0.3) + (complexityScore * 0.2).

(** *** Risk and success probability *)

(** the value of [probability] before it is clamped *)
Definition probability (r : Route) (m : RouteMetrics) : float :=
  let probability := 95 in
  let probability := probability - complexityScore m * 2 in
  let probability := probability - (10 - bridgeReliability m) * 3 in
  let probability :=
    if liquidityScore m <? 4 then probability - 15
    else if liquidityScore m <? 7 then probability - 5
    else probability in
  let probability :=
    if gtb (priceImpact m) 0.02 then probability - 10
    else if gtb (priceImpact m) 0.01 then probability - 5
    else probability in
  let probability :=
    if gtb (gasEfficiency m) 10 then probability - 10
    else if gtb (gasEfficiency m) 5 then probability - 5
    else probability in
  let hasUnknownBridges :=
    existsb (fun step => negb (isWellKnownBridge (tool step))) (steps r) in
  if hasUnknownBridges then probability - 10 else probability.

Definition calculateSuccessProbability (r : Route) (m : RouteMetrics) : float :=
  Math_max 50 (Math_min 98 (probability r m)).

Definition calculateRiskLevel (m : RouteMetrics) (successProbability : float)
  : RiskLevel :=
  if (successProbability <? 70) || gtb (complexityScore m) 6
     || (bridgeReliability m <? 6) then HIGH
  else if (successProbability <? 85) || gtb (complexityScore m) 3
          || (bridgeReliability m <? 8) then MEDIUM
  else LOW.

(** *** Functions that read amounts *)

Section Analysis.

(** The language's [parseFloat]: any number may come out of it, [NaN] and
    the infinities included. *)
Variable parseFloat : string -> float.

Definition sum_feeCosts (l : list FeeCost) : float :=
  fold_left
    (fun stepTotal fee => stepTotal + parseFloat (or_ostr (fee_amountUSD fee) "0"))
    l 0.

Definition sum_gasCosts (l : list GasCost) : float :=
  fold_left
    (fun gasTotal gas => gasTotal + parseFloat (or_ostr (gas_amountUSD gas) "0"))
    l 0.

(** [step.estimate.feeCosts?.reduce(...) || 0] and the same for gas: a sum
    that is [0] or [NaN] is replaced by [0] *)
Definition stepFees (step : RouteStep) : float :=
  or_onum (sum_feeCosts <$> feeCosts (estimate step)) 0.
Definition gasFees (step : RouteStep) : float :=
  or_onum (sum_gasCosts <$> gasCosts (estimate step)) 0.

Definition calculateRouteMetrics (r : Route) : RouteMetrics :=
  (* Calculate total fees in USD *)
  let totalFeesUSD :=
    fold_left (fun total step => total + stepFees step + gasFees step)
      (steps r) 0 in
  (* Calculate execution time (sum of all steps) *)
  let executionTimeMinutes :=
    fold_left
      (fun total step => total + executionDuration (estimate step) / 60)
      (steps r) 0 in
  (* Calculate price impact *)
  let fromAmountUSD := parseFloat (or_ostr (fromAmountUSD r) "0") in
  let toAmountUSD := parseFloat (or_ostr (toAmountUSD r) "0") in
  let priceImpactPercent :=
    if gtb fromAmountUSD 0
    then abs ((fromAmountUSD - toAmountUSD - totalFeesUSD) / fromAmountUSD) * 100
    else 0 in
  (* Complexity score based on number of steps and types *)
  let complexityScore :=
    len (steps r)
    + (if existsb is_cross (steps r) then 2 else 0)
    + len (List.filter is_swap (steps r)) * 0.5 in
  (* Gas efficiency (lower is better) *)
  let totalGasUSD :=
    fold_left (fun total step => total + gasFees step) (steps r) 0 in
  let gasEfficiency :=
    if gtb fromAmountUSD 0 then (totalGasUSD / fromAmountUSD) * 100 else 100 in
  let liquidityDepth := estimateLiquidityDepth r in
  let bridgeReliability := calculateBridgeReliability r in
  let slippageTolerance := or_onum (extractSlippageTolerance r) 2 in
  {| totalFeesUSD := totalFeesUSD;
     totalGasUSD := totalGasUSD;
     estimatedTime := executionTimeMinutes * 60;
     priceImpact := priceImpactPercent / 100;
     complexityScore := complexityScore;
     gasEfficiency := gasEfficiency;
     liquidityScore :=
       match liquidityDepth with
       | DEPTH_HIGH => 9
       | DEPTH_MEDIUM => 6
       | DEPTH_LOW => 3
       end;
     bridgeReliability := bridgeReliability;
     slippageTolerance := slippageTolerance |}.

(** [sorted[0]?.id === route.id] *)
Definition first_is (sorted : list Route) (r : Route) : bool :=
  match head sorted with
  | Some r0 => String.eqb (route_id r0) (route_id r)
  | None => false
  end.

Definition byFees (allRoutes : list Route) : list Route :=
  sort (fun a b => totalFeesUSD (calculateRouteMetrics a)
                   - totalFeesUSD (calculateRouteMetrics b)) allRoutes.
Definition byTime (allRoutes : list Route) : list Route :=
  sort (fun a b => estimatedTime (calculateRouteMetrics a)
                   - estimatedTime (calculateRouteMetrics b)) allRoutes.
Definition byReliability (allRoutes : list Route) : list Route :=
  sort (fun a b => bridgeReliability (calculateRouteMetrics b)
                   - bridgeReliability (calculateRouteMetrics a)) allRoutes.

Definition isOptimal (r : Route) (m : RouteMetrics) (allRoutes : list Route)
  : bool :=
  let optimalScore := calculateOptimalScore m in
  forallb
    (fun r' =>
       let otherMetrics := calculateRouteMetrics r' in
       let otherScore := calculateOptimalScore otherMetrics in
       geb optimalScore otherScore || String.eqb (route_id r') (route_id r))
    allRoutes.

Definition generateRouteRecommendation
  (r : Route) (m : RouteMetrics) (allRoutes : list Route)
  : RouteRecommendation :=
  let type := ALTERNATIVE in
  let reasons := [] in
  let pros := [] in
  let cons := [] in
  (* Determine recommendation type *)
  let '(type, reasons) :=
    if first_is (byFees allRoutes) r then
      (CHEAPEST, push reasons "Lowest total fees among all options")
    else if first_is (byTime allRoutes) r then
      (FASTEST, push reasons "Shortest estimated execution time")
    else if first_is (byReliability allRoutes) r then
      (SAFEST, push reasons "Uses most reliable bridges and exchanges")
    else (type, reasons) in
  (* Determine if this is the optimal route (balanced score) *)
  let '(type, reasons) :=
    if isOptimal r m allRoutes && RouteRecommendationType_eqb type ALTERNATIVE
    then (OPTIMAL, push reasons "Best balance of cost, time, and reliability")
    else (type, reasons) in
  (* Generate pros *)
  let pros := push_if (totalFeesUSD m <? 10) pros "Low transaction fees" in
  let pros := push_if (estimatedTime m <? 300) pros "Fast execution time" in
  let pros := push_if (gtb (bridgeReliability m) 8) pros
                "Uses reliable, battle-tested bridges" in
  let pros := push_if (complexityScore m <? 3) pros
                "Simple, straightforward route" in
  let pros := push_if (gasEfficiency m <? 2) pros "Gas efficient" in
  let pros := push_if (gtb (liquidityScore m) 7) pros "High liquidity depth" in
  (* Generate cons *)
  let cons := push_if (gtb (totalFeesUSD m) 50) cons "Higher transaction fees" in
  let cons := push_if (gtb (estimatedTime m) 900) cons "Longer execution time" in
  let cons := push_if (bridgeReliability m <? 6) cons
                "Uses less proven bridges" in
  let cons := push_if (gtb (complexityScore m) 5) cons
                "Complex multi-step route" in
  let cons := push_if (gtb (gasEfficiency m) 5) cons "Higher gas costs" in
  let cons := push_if (gtb (priceImpact m) 0.01) cons
                "Higher price impact" in
  (* Suggest adjustments *)
  let adjustments :=
    if (slippageTolerance m <? 2) && gtb (priceImpact m) 0.005
    then Some {| adj_slippage := Some 3; adj_amount := None;
                 adj_timing := None |}
    else None in
  {| rec_type := type;
     reasons := reasons;
     rec_pros := pros;
     rec_cons := cons;
     adjustments := adjustments |}.

(** *** Notions used to state the properties *)

(** metrics of a candidate, as the recommendation function recomputes them *)
Definition fees_of (r : Route) : float :=
  totalFeesUSD (calculateRouteMetrics r).
Definition time_of (r : Route) : float :=
  estimatedTime (calculateRouteMetrics r).
Definition reliability_of (r : Route) : float :=
  bridgeReliability (calculateRouteMetrics r).
Definition score_of (r : Route) : float :=
  calculateOptimalScore (calculateRouteMetrics r).

(** the category a candidate receives when it is passed together with its
    own metrics *)
Definition label (allRoutes : list Route) (r : Route) : RouteRecommendationType :=
  rec_type (generateRouteRecommendation r (calculateRouteMetrics r) allRoutes).

(** the score [s] is at least the score of every candidate whose id is not
    [i] *)
Definition tops (allRoutes : list Route) (i : string) (s : float) : Prop :=
  forall r', r' ∈ allRoutes -> route_id r' <> i -> le (score_of r') s.



End Analysis.

(** no element of the list has a key that is [NaN] *)
Definition numbers {A : Type} (key : A -> float) (l : list A) : bool :=
  forallb (fun x => negb (is_nan (key x))) l.

(** [x] is the first element of [l], in list order, that has the lowest
    key: every element before it has a larger key, none after it a
    smaller one. *)
Definition first_lowest {A : Type} (key : A -> float) (l : list A) (x : A)
  : Prop :=
  exists l1 l2,
    l = l1 ++ x :: l2
    /\ Forall (fun y => lt (key x) (key y)) l1
    /\ Forall (fun y => le (key x) (key y)) l2.

(** the same for the highest key *)
Definition first_highest {A : Type} (key : A -> float) (l : list A) (x : A)
  : Prop :=
  exists l1 l2,
    l = l1 ++ x :: l2
    /\ Forall (fun y => lt (key y) (key x)) l1
    /\ Forall (fun y => le (key y) (key x)) l2.

(** *** Notions on the specification of binary64

    The class and sign of a rounded result: a number or infinity of sign
    [s], or one of these, a zero of sign [s] or [NaN]. *)
Definition signed (s : bool) (X : spec_float) : Prop :=
  match X with
  | S754_finite s' _ _ | S754_infinity s' => s' = s
  | _ => False
  end.

Definition signed_or_null (s : bool) (X : spec_float) : Prop :=
  match X with
  | S754_finite s' _ _ | S754_infinity s' | S754_zero s' => s' = s
  | S754_nan => True
  end.

(** Rounding, counted in units of [2 ^ emin], the least positive
    number: every number of the format is a whole number of them. *)
Section Units.
Local Open Scope Z_scope.








End Units.

(** *** Sample inputs *)

Module Inputs.

Definition step_of (ty : StepType) (t : string) (seconds : float)
    (fees : list FeeCost) (gas : list GasCost) : RouteStep :=
  {| step_id := "step"; step_type := ty; tool := t;
     action :=
       {| act_fromChainId := 1; act_toChainId := 10;
          act_fromToken := Sample.usdc "0xA0b8" 1;
          act_toToken := Sample.usdc "0x0b2C" 10;
          act_fromAmount := "1000000000"; slippage := None |};
     estimate :=
       {| est_tool := t; est_fromAmount := "1000000000";
          est_toAmount := "990000000"; est_toAmountMin := "980000000";
          executionDuration := seconds;
          feeCosts := Some fees; gasCosts := Some gas |} |}.

Definition route_of (i : string) (fromUSD toUSD : string)
    (ss : list RouteStep) : Route :=
  {| route_id := i; fromChainId := 1; fromAmountUSD := Some fromUSD;
     fromAmount := "1000000000"; fromToken := Sample.usdc "0xA0b8" 1;
     fromAddress := None; toChainId := 10; toAmountUSD := Some toUSD;
     toAmount := "990000000"; toAmountMin := "980000000";
     toToken := Sample.usdc "0x0b2C" 10; toAddress := None; gasCostUSD := None;
     steps := ss |}.

(** the three candidates of the samples above *)
Definition via_hop : Route :=
  route_of "route-1" "1000" "990"
    [step_of cross "hop" 120 [Sample.fee_of "1.00"] [Sample.gas_of "0.50"]].
Definition via_across : Route :=
  route_of "route-2" "1000" "990"
    [step_of cross "across" 60 [Sample.fee_of "1.00"] [Sample.gas_of "0.50"]].
Definition via_unknown : Route :=
  route_of "route-3" "1000" "900"
    [step_of swap "dodo" 600 [Sample.fee_of "20"] [Sample.gas_of "5"];
     step_of cross "wormhole" 1200 [Sample.fee_of "40"] [Sample.gas_of "5"]].

(** a bridge whose name is a property every object inherits *)
Definition via_constructor : Route :=
  route_of "route-11" "1000" "990"
    [step_of cross "constructor" 120 [Sample.fee_of "2.00"]
       [Sample.gas_of "0.50"]].

(** a fee cost that is a negative amount *)
Definition with_rebate : Route :=
  route_of "route-4" "1000" "990"
    [step_of cross "hop" 120 [Sample.fee_of "-1"] [Sample.gas_of "0.50"]].

(** two candidates that carry the same id *)
Definition twin_hop : Route :=
  route_of "route-12" "1000" "990"
    [step_of cross "hop" 120 [Sample.fee_of "1.00"] [Sample.gas_of "0.50"]].
Definition twin_relay : Route :=
  route_of "route-12" "1000" "980"
    [step_of cross "relay" 300 [Sample.fee_of "3.00"] [Sample.gas_of "0.50"]].

(** fees of 0.1 + 0.2 against fees of 0.3 *)
Definition split_fees : Route :=
  route_of "route-13" "1000" "990"
    [step_of cross "hop" 120 [Sample.fee_of "0.1"; Sample.fee_of "0.2"] []].
Definition whole_fee : Route :=
  route_of "route-14" "1000" "990"
    [step_of cross "hop" 60 [Sample.fee_of "0.3"] []].

(** source 1000, destination 995, fees 1.5 *)
Definition small_impact : Route :=
  route_of "route-15" "1000" "995"
    [step_of cross "hop" 31 [Sample.fee_of "1.5"] []].

(** a destination amount that is not a numeral *)
Definition unreadable_destination : Route :=
  route_of "route-16" "1000" "n/a"
    [step_of cross "hop" 120 [Sample.fee_of "1.00"] [Sample.gas_of "0.50"]].

(** a negative source amount, and a missing one *)
Definition negative_source : Route :=
  route_of "route-5" "-100" "0"
    [step_of cross "hop" 120 [Sample.fee_of "1.00"] [Sample.gas_of "0.50"]].
Definition missing_source : Route :=
  {| route_id := "route-6"; fromChainId := 1; fromAmountUSD := None;
     fromAmount := "1000000000"; fromToken := Sample.usdc "0xA0b8" 1;
     fromAddress := None; toChainId := 10; toAmountUSD := Some "990";
     toAmount := "990000000"; toAmountMin := "980000000";
     toToken := Sample.usdc "0x0b2C" 10; toAddress := None; gasCostUSD := None;
     steps := [step_of cross "hop" 120 [Sample.fee_of "1.00"]
                 [Sample.gas_of "0.50"]] |}.

(** gas costs of which one is not a numeral, and gas costs that are
    infinite with opposite signs *)
Definition unreadable_gas : Route :=
  route_of "route-17" "1000" "990"
    [step_of cross "hop" 120 [] [Sample.gas_of "5"; Sample.gas_of "abc"]].
Definition infinite_gas : Route :=
  route_of "route-18" "1000" "990"
    [step_of swap "dodo" 60 [] [Sample.gas_of "Infinity"];
     step_of cross "hop" 120 [] [Sample.gas_of "-Infinity"]].

(** a metrics record of zeros *)
Definition all_zero : RouteMetrics :=
  {| totalFeesUSD := 0; totalGasUSD := 0; estimatedTime := 0;
     priceImpact := 0; complexityScore := 0; gasEfficiency := 0;
     liquidityScore := 0; bridgeReliability := 0; slippageTolerance := 0 |}.

End Inputs.

End Double.

(** ** Comparisons and truthiness *)

Lemma ltb_lt (a b : Q) : ltb a b = true <-> a < b.
Proof.
  unfold ltb. rewrite negb_true_iff, <- not_true_iff_false, Qle_bool_iff.
  split; [apply Qnot_le_lt | apply Qlt_not_le].
Qed.

Lemma ltb_ge (a b : Q) : ltb a b = false <-> b <= a.
Proof. unfold ltb. rewrite negb_false_iff. apply Qle_bool_iff. Qed.

Lemma gtb_gt (a b : Q) : gtb a b = true <-> b < a.
Proof. apply ltb_lt. Qed.

Lemma gtb_le (a b : Q) : gtb a b = false <-> a <= b.
Proof. apply ltb_ge. Qed.

Lemma geb_ge (a b : Q) : geb a b = true <-> b <= a.
Proof. apply Qle_bool_iff. Qed.

Lemma includes_cases (l : list string) (s : string) :
  includes l s = true -> s ∈ l.
Proof.
  unfold includes. intros H. apply existsb_exists in H as (x & Hx & E).
  apply String.eqb_eq in E. subst x. now apply list_elem_of_In.
Qed.

(** ** The stable sort *)

Section Sort_facts.
Context {A : Type} (cmp : A -> A -> Q).

Lemma insert_Permutation (x : A) (l : list A) : insert cmp x l ≡ₚ x :: l.
Proof.
  induction l as [|y l IH]; simpl; [done|].
  destruct (Qle_bool (cmp x y) 0); [done|].
  rewrite IH. apply Permutation_swap.
Qed.

Lemma sort_Permutation (l : list A) : sort cmp l ≡ₚ l.
Proof.
  induction l as [|x l IH]; simpl; [done|].
  rewrite insert_Permutation. now rewrite IH.
Qed.

Lemma sort_elem_of (l : list A) (x : A) : x ∈ sort cmp l <-> x ∈ l.
Proof. now rewrite sort_Permutation. Qed.

Lemma sort_length (l : list A) : length (sort cmp l) = length l.
Proof. now rewrite sort_Permutation. Qed.

(** When the comparator orders by a key, the sorted array starts with the
    first element of the input that has the lowest key. *)
Lemma head_sort_first_lowest (key : A -> Q) (l : list A) :
  (forall a b, cmp a b <= 0 <-> key a <= key b) ->
  l <> [] ->
  exists x, head (sort cmp l) = Some x /\ first_lowest key l x.
Proof.
  intros Hcmp. induction l as [|a l IH]; [done|]. intros _.
  destruct l as [|b l'].
  - exists a. split; [done|]. exists [], []. repeat split; constructor.
  - destruct IH as (y & Hy & l1 & l2 & Hl & H1 & H2); [done|].
    change (sort cmp (a :: b :: l')) with (insert cmp a (sort cmp (b :: l'))).
    destruct (sort cmp (b :: l')) as [|y' rest]; [done|].
    simpl in Hy. injection Hy as ->. simpl.
    destruct (Qle_bool (cmp a y)) eqn:E.
    + apply Qle_bool_iff, Hcmp in E.
      exists a. split; [done|]. exists [], (b :: l'). repeat split; [constructor|].
      rewrite Hl. apply Forall_app. split.
      * eapply Forall_impl; [exact H1|]. simpl. intros z Hz. lra.
      * constructor; [exact E|].
        eapply Forall_impl; [exact H2|]. simpl. intros z Hz. lra.
    + assert (key y < key a) as Hlt.
      { apply Qnot_le_lt. intros Hle. apply Hcmp, Qle_bool_iff in Hle. congruence. }
      exists y. split; [done|]. exists (a :: l1), l2. repeat split.
      * now rewrite Hl.
      * constructor; assumption.
      * assumption.
Qed.

(** The result is ordered by the key, and elements with equal keys keep
    their input order: the two facts determine the result of any stable
    sort. *)
Lemma insert_StronglySorted (key : A -> Q) (x : A) (l : list A) :
  (forall a b, cmp a b <= 0 <-> key a <= key b) ->
  StronglySorted (fun a b => key a <= key b) l ->
  StronglySorted (fun a b => key a <= key b) (insert cmp x l).
Proof.
  intros Hcmp. induction 1 as [|y l Hl IH Hy]; simpl.
  - repeat constructor.
  - destruct (Qle_bool (cmp x y) 0) eqn:E.
    + apply Qle_bool_iff, Hcmp in E. constructor; [now constructor|].
      constructor; [exact E|].
      eapply Forall_impl; [exact Hy|]. simpl. intros z Hz. lra.
    + constructor; [exact IH|].
      rewrite insert_Permutation. constructor; [|exact Hy].
      apply Qlt_le_weak, Qnot_le_lt. intros Hle.
      apply Hcmp, Qle_bool_iff in Hle. congruence.
Qed.

Lemma sort_StronglySorted (key : A -> Q) (l : list A) :
  (forall a b, cmp a b <= 0 <-> key a <= key b) ->
  StronglySorted (fun a b => key a <= key b) (sort cmp l).
Proof.
  intros Hcmp. induction l as [|x l IH]; simpl; [constructor|].
  now apply insert_StronglySorted.
Qed.

Lemma insert_stable (key : A -> Q) (k : Q) (x : A) (l : list A) :
  (forall a b, cmp a b <= 0 <-> key a <= key b) ->
  List.filter (fun y => Qeq_bool (key y) k) (insert cmp x l)
  = List.filter (fun y => Qeq_bool (key y) k) (x :: l).
Proof.
  intros Hcmp. induction l as [|y l IH]; [reflexivity|].
  cbn [insert]. destruct (Qle_bool (cmp x y) 0) eqn:E; [reflexivity|].
  assert (key y < key x) as Hlt.
  { apply Qnot_le_lt. intros Hle. apply Hcmp, Qle_bool_iff in Hle. congruence. }
  cbn [List.filter] in *. rewrite IH.
  destruct (Qeq_bool (key x) k) eqn:Ex, (Qeq_bool (key y) k) eqn:Ey;
    try reflexivity.
  apply Qeq_bool_eq in Ex, Ey. lra.
Qed.

Lemma sort_stable (key : A -> Q) (k : Q) (l : list A) :
  (forall a b, cmp a b <= 0 <-> key a <= key b) ->
  List.filter (fun y => Qeq_bool (key y) k) (sort cmp l)
  = List.filter (fun y => Qeq_bool (key y) k) l.
Proof.
  intros Hcmp. induction l as [|x l IH]; [reflexivity|].
  change (sort cmp (x :: l)) with (insert cmp x (sort cmp l)).
  rewrite (insert_stable key k x (sort cmp l) Hcmp).
  cbn [List.filter]. now rewrite IH.
Qed.

End Sort_facts.

(** ** The recommendation category *)

Section Category.
Variable parseFloat : string -> Q.

Local Abbreviation fees := (fees_of parseFloat).
Local Abbreviation top := (tops parseFloat).

Lemma head_byFees (allRoutes : list Route) :
  allRoutes <> [] ->
  exists c, head (byFees parseFloat allRoutes) = Some c
            /\ first_lowest fees allRoutes c.
Proof.
  intros Hne. apply head_sort_first_lowest; [|exact Hne].
  intros a b. unfold fees_of. lra.
Qed.

Lemma isOptimal_tops (r : Route) (m : RouteMetrics) (allRoutes : list Route) :
  isOptimal parseFloat r m allRoutes = true
  <-> top allRoutes (route_id r) (calculateOptimalScore m).
Proof.
  unfold isOptimal, tops. rewrite forallb_forall. split.
  - intros H r' Hin Hid. apply list_elem_of_In, H in Hin.
    apply orb_true_iff in Hin as [Hge | Heq].
    + now apply geb_ge in Hge.
    + now apply String.eqb_eq in Heq.
  - intros H r' Hin. apply list_elem_of_In in Hin. apply orb_true_iff.
    destruct (String.eqb_spec (route_id r') (route_id r)) as [|Hne]; [now right|].
    left. apply geb_ge. now apply H.
Qed.

(** The category, as a cascade over the three sorted copies and the
    optimality test. *)
Lemma rec_type_cascade (r : Route) (m : RouteMetrics) (allRoutes : list Route) :
  rec_type (generateRouteRecommendation parseFloat r m allRoutes) =
  if first_is (byFees parseFloat allRoutes) r then CHEAPEST
  else if first_is (byTime parseFloat allRoutes) r then FASTEST
  else if first_is (byReliability parseFloat allRoutes) r then SAFEST
  else if isOptimal parseFloat r m allRoutes then OPTIMAL
  else ALTERNATIVE.
Proof.
  unfold generateRouteRecommendation.
  destruct (first_is (byFees parseFloat allRoutes) r);
    [destruct (isOptimal parseFloat r m allRoutes); reflexivity|].
  destruct (first_is (byTime parseFloat allRoutes) r);
    [destruct (isOptimal parseFloat r m allRoutes); reflexivity|].
  destruct (first_is (byReliability parseFloat allRoutes) r);
    destruct (isOptimal parseFloat r m allRoutes); reflexivity.
Qed.

Lemma first_is_head (sorted : list Route) (x r : Route) :
  head sorted = Some x ->
  first_is sorted r = true <-> route_id x = route_id r.
Proof. intros H. unfold first_is. rewrite H. apply String.eqb_eq. Qed.

End Category.

(** ** Deduplication *)

Lemma filter_seen_idempotent (seen : gset string) (rs : list Route) :
  filter_seen seen (filter_seen seen rs) = filter_seen seen rs.
Proof.
  revert seen. induction rs as [|r rs IH]; intros seen; simpl; [done|].
  destruct (bool_decide (signature r ∈ seen)) eqn:E; [apply IH|].
  simpl. rewrite E. f_equal. apply IH.
Qed.

(** C5. Deduplication is idempotent. *)
Theorem removeDuplicateRoutes_idempotent (rs : list Route) :
  removeDuplicateRoutes (removeDuplicateRoutes rs) = removeDuplicateRoutes rs.
Proof. apply filter_seen_idempotent. Qed.

(** The traversal with the set [seen] keeps the first occurrence of every
    signature string. *)
Lemma filter_seen_first_occurrences
    (seen : gset string) (earlier : list string) (rs : list Route) :
  (forall k, k ∈ seen <-> k ∈ earlier) ->
  filter_seen seen rs = first_occurrences signature earlier rs.
Proof.
  revert seen earlier. induction rs as [|r rs IH]; intros seen earlier H; simpl;
    [done|].
  rewrite (bool_decide_ext _ _ (H (signature r))).
  destruct (bool_decide (signature r ∈ earlier)) eqn:E.
  - apply IH. intros k. rewrite elem_of_app, list_elem_of_singleton, H.
    apply bool_decide_eq_true in E. split; [tauto|].
    intros [?| ->]; assumption.
  - f_equal. apply IH. intros k.
    rewrite elem_of_union, elem_of_singleton, elem_of_app,
      list_elem_of_singleton, H. tauto.
Qed.

Lemma removeDuplicateRoutes_first_occurrences (rs : list Route) :
  removeDuplicateRoutes rs = first_occurrences signature [] rs.
Proof.
  apply filter_seen_first_occurrences. intros k.
  rewrite elem_of_empty, elem_of_nil. tauto.
Qed.

(** What keeping first occurrences means: the result is a subsequence of
    the input, its keys are pairwise different and new, and every key of
    the input that is new occurs in it. *)
Lemma first_occurrences_sublist `{EqDecision K}
    (key : Route -> K) (earlier : list K) (rs : list Route) :
  first_occurrences key earlier rs `sublist_of` rs.
Proof.
  revert earlier. induction rs as [|r rs IH]; intros earlier; simpl; [done|].
  destruct (bool_decide (key r ∈ earlier)).
  - apply sublist_cons, IH.
  - apply sublist_skip, IH.
Qed.

Lemma first_occurrences_keys `{EqDecision K}
    (key : Route -> K) (earlier : list K) (rs : list Route) (k : K) :
  k ∈ key <$> first_occurrences key earlier rs
  <-> k ∈ key <$> rs /\ k ∉ earlier.
Proof.
  revert earlier. induction rs as [|r rs IH]; intros earlier;
    cbn [first_occurrences].
  - rewrite fmap_nil, elem_of_nil. tauto.
  - rewrite (fmap_cons key r rs).
    destruct (bool_decide (key r ∈ earlier)) eqn:E.
    + apply bool_decide_eq_true in E.
      rewrite IH, elem_of_cons, elem_of_app, list_elem_of_singleton.
      split; [tauto|]. intros [[->|?] ?]; [tauto|]. split; [assumption|].
      intros [?| ->]; tauto.
    + apply bool_decide_eq_false in E. rewrite fmap_cons, !elem_of_cons.
      rewrite IH, elem_of_app, list_elem_of_singleton.
      destruct (decide (k = key r)) as [->|]; tauto.
Qed.

Lemma first_occurrences_NoDup `{EqDecision K}
    (key : Route -> K) (earlier : list K) (rs : list Route) :
  NoDup (key <$> first_occurrences key earlier rs).
Proof.
  revert earlier. induction rs as [|r rs IH]; intros earlier;
    cbn [first_occurrences]; [constructor|].
  destruct (bool_decide (key r ∈ earlier)); [apply IH|].
  rewrite fmap_cons. constructor; [|apply IH].
  rewrite first_occurrences_keys, elem_of_app, list_elem_of_singleton. tauto.
Qed.

(** The first route of the input that has a given key is kept. *)
Lemma first_occurrences_keeps_first `{EqDecision K}
    (key : Route -> K) (l1 l2 : list Route) (r : Route) :
  key r ∉ key <$> l1 ->
  r ∈ first_occurrences key [] (l1 ++ r :: l2).
Proof.
  assert (forall earlier,
             key r ∉ earlier -> key r ∉ key <$> l1 ->
             r ∈ first_occurrences key earlier (l1 ++ r :: l2)) as H;
    [|intros; apply H; [apply not_elem_of_nil | assumption]].
  induction l1 as [|a l1 IH]; intros earlier He Hl; simpl.
  - rewrite bool_decide_eq_false_2 by exact He. apply list_elem_of_here.
  - rewrite fmap_cons, not_elem_of_cons in Hl. destruct Hl as [Hne Hl].
    assert (r ∈ first_occurrences key (earlier ++ [key a]) (l1 ++ r :: l2)).
    { apply IH; [|exact Hl].
      rewrite elem_of_app, list_elem_of_singleton. tauto. }
    destruct (bool_decide (key a ∈ earlier)); [assumption|].
    now apply list_elem_of_further.
Qed.

(** Two keys that identify the same routes of the input give the same
    result. *)
Lemma first_occurrences_ext `{EqDecision K1} `{EqDecision K2}
    (key1 : Route -> K1) (key2 : Route -> K2) (seen rs : list Route) :
  (forall a b, a ∈ seen ++ rs -> b ∈ seen ++ rs ->
               key1 a = key1 b <-> key2 a = key2 b) ->
  first_occurrences key1 (key1 <$> seen) rs
  = first_occurrences key2 (key2 <$> seen) rs.
Proof.
  revert seen. induction rs as [|r rs IH]; intros seen H; simpl; [done|].
  assert (forall b, b ∈ seen -> key1 r = key1 b <-> key2 r = key2 b) as Hr.
  { intros b Hb. apply H; rewrite elem_of_app.
    - right. apply list_elem_of_here.
    - now left. }
  assert (bool_decide (key1 r ∈ key1 <$> seen)
          = bool_decide (key2 r ∈ key2 <$> seen)) as ->.
  { apply bool_decide_ext. rewrite !list_elem_of_fmap.
    split; intros (b & Hb & Hin); exists b; split; try assumption;
      apply (Hr b Hin); assumption. }
  assert (first_occurrences key1 (key1 <$> seen ++ [r]) rs
          = first_occurrences key2 (key2 <$> seen ++ [r]) rs) as IH'.
  { apply IH. intros a b Ha Hb. apply H; rewrite <- app_assoc in *; assumption. }
  rewrite !fmap_app in IH'. simpl in IH'. rewrite IH'. reflexivity.
Qed.

Lemma signature_of_composite (a b : Route) :
  composite a = composite b -> signature a = signature b.
Proof. unfold composite, signature. intros [= -> -> -> -> ->]. reflexivity. Qed.

(** Where the joined strings of the input separate the composite
    signatures, the code keeps the first route of every composite
    signature. *)
Lemma removeDuplicateRoutes_composite (rs : list Route) :
  (forall a b, a ∈ rs -> b ∈ rs ->
               signature a = signature b -> composite a = composite b) ->
  removeDuplicateRoutes rs = first_occurrences composite [] rs.
Proof.
  intros H. rewrite removeDuplicateRoutes_first_occurrences.
  apply (first_occurrences_ext signature composite [] rs).
  intros a b Ha Hb. split; [now apply H | apply signature_of_composite].
Qed.

(** Of two routes with the same composite signature, whatever their ids,
    only the first is retained. *)
Lemma removeDuplicateRoutes_pair (r1 r2 : Route) :
  composite r1 = composite r2 -> removeDuplicateRoutes [r1; r2] = [r1].
Proof.
  intros H. apply signature_of_composite in H.
  unfold removeDuplicateRoutes. simpl.
  rewrite bool_decide_eq_false_2 by apply not_elem_of_empty.
  rewrite H, bool_decide_eq_true_2; [reflexivity|].
  apply elem_of_union_l, elem_of_singleton. reflexivity.
Qed.

(** C4 (the code departs from the specification). The two sample routes
    differ in
    their tool sequences, hence in their composite signatures, and their
    signature strings are the same: the code drops the second one, while
    keeping the first route of each composite signature retains both. *)
Theorem removeDuplicateRoutes_collision :
  composite Sample.one_tool <> composite Sample.two_tools
  /\ signature Sample.one_tool = signature Sample.two_tools
  /\ removeDuplicateRoutes [Sample.one_tool; Sample.two_tools]
     = [Sample.one_tool]
  /\ first_occurrences composite [] [Sample.one_tool; Sample.two_tools]
     = [Sample.one_tool; Sample.two_tools].
Proof.
  split; [intros H; discriminate H|].
  split; [reflexivity|]. split; [vm_compute; reflexivity|reflexivity].
Qed.

(** ** Failure reasons *)

Lemma analyzeFailureReasons_with_substatus (tx : StatusResponse) (s : string) :
  substatus tx = Some s -> s <> "" ->
  analyzeFailureReasons tx = substatus_sentence s :: message_part tx.
Proof.
  intros Hs Hne. unfold analyzeFailureReasons, message_part, truthy_str.
  rewrite Hs. apply String.eqb_neq in Hne. rewrite Hne. simpl.
  destruct (substatusMessage tx) as [m|]; [|reflexivity].
  destruct (negb (m =? ""))%string; reflexivity.
Qed.

(** C9. A known substatus yields its fixed sentence and any other
    substatus the generic sentence; the free-text message follows when
    there is one (a non-empty string); without substatus the message
    stands alone, and without both the result is the single reason
    "Transaction failed".  The result is never empty, and for
    INSUFFICIENT_BALANCE without a message it is exactly the sentence on
    insufficient balance. *)
Theorem analyzeFailureReasons_spec (tx : StatusResponse) :
  (forall s sentence,
      substatus tx = Some s -> (s, sentence) ∈ known_sentences ->
      analyzeFailureReasons tx = sentence :: message_part tx)
  /\ (forall s,
      substatus tx = Some s -> s <> "" -> s ∉ known_sentences.*1 ->
      analyzeFailureReasons tx
      = "Transaction failed due to unknown reasons" :: message_part tx)
  /\ (truthy_ostr (substatus tx) = false -> message_part tx <> [] ->
      analyzeFailureReasons tx = message_part tx)
  /\ (truthy_ostr (substatus tx) = false ->
      truthy_ostr (substatusMessage tx) = false ->
      analyzeFailureReasons tx = ["Transaction failed"])
  /\ analyzeFailureReasons tx <> []
  /\ (substatus tx = Some "INSUFFICIENT_BALANCE" ->
      truthy_ostr (substatusMessage tx) = false ->
      analyzeFailureReasons tx
      = ["Insufficient balance to complete the transaction"]).
Proof.
  assert (truthy_ostr (substatusMessage tx) = false -> message_part tx = [])
    as Hnomsg.
  { unfold truthy_ostr, message_part.
    destruct (substatusMessage tx) as [m|]; [|reflexivity]. now intros ->. }
  assert (truthy_ostr (substatus tx) = false ->
          analyzeFailureReasons tx
          = if (0 <? length (message_part tx))%nat then message_part tx
            else ["Transaction failed"]) as Hnosub.
  { unfold truthy_ostr, analyzeFailureReasons, message_part.
    destruct (substatus tx) as [s|]; [intros ->|intros _];
      destruct (substatusMessage tx) as [m|]; try reflexivity;
      destruct (truthy_str m); reflexivity. }
  repeat split.
  - intros s sentence Hs Hin.
    rewrite (analyzeFailureReasons_with_substatus tx s Hs).
    + unfold known_sentences in Hin. rewrite !elem_of_cons in Hin.
      destruct Hin as [H|[H|[H|[H|[H|H]]]]];
        [injection H as -> ->; reflexivity ..|inversion H].
    + intros ->. unfold known_sentences in Hin. rewrite !elem_of_cons in Hin.
      destruct Hin as [H|[H|[H|[H|[H|H]]]]]; [discriminate H ..|inversion H].
  - intros s Hs Hne Hnot.
    rewrite (analyzeFailureReasons_with_substatus tx s Hs Hne). f_equal.
    unfold known_sentences in Hnot. simpl in Hnot.
    rewrite !not_elem_of_cons in Hnot.
    destruct Hnot as (H1 & H2 & H3 & H4 & H5 & _).
    unfold substatus_sentence.
    apply String.eqb_neq in H1, H2, H3, H4, H5.
    now rewrite H1, H2, H3, H4, H5.
  - intros Hsub Hmsg. rewrite (Hnosub Hsub).
    destruct (message_part tx); [done|reflexivity].
  - intros Hsub Hmsg. rewrite (Hnosub Hsub), (Hnomsg Hmsg). reflexivity.
  - destruct (truthy_ostr (substatus tx)) eqn:Hsub.
    + unfold truthy_ostr in Hsub. destruct (substatus tx) as [s|] eqn:Hs; [|done].
      rewrite (analyzeFailureReasons_with_substatus tx s Hs); [done|].
      intros ->. discriminate Hsub.
    + rewrite (Hnosub eq_refl). destruct (message_part tx); done.
  - intros Hs Hmsg.
    rewrite (analyzeFailureReasons_with_substatus tx _ Hs); [|done].
    now rewrite (Hnomsg Hmsg).
Qed.

(** ** The comparison entry point *)

Lemma concat_map_nil {A B : Type} (f : A -> list B) (l : list A) :
  (forall x, x ∈ l -> f x = []) -> concat (map f l) = [].
Proof.
  induction l as [|a l IH]; intros H; simpl; [done|].
  rewrite (H a (list_elem_of_here _ _)), IH; [done|].
  intros x Hx. apply H. now apply list_elem_of_further.
Qed.

Lemma extractRouteParameters_source (tx : StatusResponse) (p : RoutesRequest) :
  extractRouteParameters tx = Some p ->
  truthy_oint (req_fromChainId p) = true.
Proof.
  unfold extractRouteParameters.
  destruct (tx_token (sending tx)) as [tok|]; [|done].
  destruct (truthy_oint (tx_chainId (sending tx))) eqn:E; simpl; [|done].
  intros H.
  repeat match type of H with
         | context [match ?x with _ => _ end] => destruct x
         end; injection H as <-; exact E.
Qed.

Lemma generateAlternativeConfigs_length (p : RoutesRequest) :
  length (generateAlternativeConfigs p) = 7%nat.
Proof. reflexivity. Qed.

Section Comparison.
Variable parseFloat : string -> Q.
Variable getRoutes : RoutesRequest -> option RoutesResponse.

Local Abbreviation fetch := (fetchAlternativeRoutes parseFloat getRoutes).

(** C6. When the parameters are extracted with both chains determined,
    and each of the seven requests is rejected or answered with no route,
    the result is a comparison (not null, and nothing is thrown) with no
    alternative route, the single failure reason
    "No alternative routes found" and no recommendation. *)
Theorem fetchAlternativeRoutes_no_candidates
    (tx : StatusResponse) (baseParams : RoutesRequest) :
  extractRouteParameters tx = Some baseParams ->
  truthy_oint (req_toChainId baseParams) = true ->
  (forall config resp,
      config ∈ generateAlternativeConfigs baseParams ->
      getRoutes config = Some resp -> routes resp = []) ->
  length (generateAlternativeConfigs baseParams) = 7%nat
  /\ fetch tx
     = Some {| originalRoute := None;
               alternativeRoutes := [];
               failureReasons := ["No alternative routes found"];
               recommendations := [] |}.
Proof.
  intros Hp Hto Hnone. split; [reflexivity|].
  unfold fetchAlternativeRoutes. rewrite Hp.
  rewrite (extractRouteParameters_source tx baseParams Hp), Hto.
  cbn [negb orb]. rewrite concat_map_nil; [reflexivity|].
  intros config Hin. destruct (getRoutes config) as [resp|] eqn:E; [|done].
  exact (Hnone config resp Hin E).
Qed.

(** C10. In every comparison that is returned, the recommendations are
    as many as the alternative routes and correspond to them index by
    index in the sorted order: same category, same pros, same cons. *)
Theorem recommendations_aligned (tx : StatusResponse) (cmp : RouteComparison) :
  fetch tx = Some cmp ->
  length (recommendations cmp) = length (alternativeRoutes cmp)
  /\ forall i alt rec,
       alternativeRoutes cmp !! i = Some alt ->
       recommendations cmp !! i = Some rec ->
       rec_type rec = recommendation alt
       /\ rec_pros rec = pros alt
       /\ rec_cons rec = cons alt.
Proof.
  unfold fetchAlternativeRoutes.
  destruct (extractRouteParameters tx) as [baseParams|]; [|done].
  destruct (negb _ || negb _); [done|].
  set (allRoutes := concat _).
  destruct (length allRoutes =? 0)%nat.
  - intros [= <-]. simpl. split; [done|]. intros i alt rec H. inversion H.
  - set (uniqueRoutes := removeDuplicateRoutes allRoutes).
    set (sorted := sort _ _).
    intros [= <-]. cbn [recommendations alternativeRoutes]. split.
    + apply length_map.
    + intros i alt rec Halt Hrec.
      change (map ?f sorted) with (f <$> sorted) in Hrec.
      rewrite list_lookup_fmap, Halt in Hrec. injection Hrec as <-.
      assert (alt ∈ map (to_alternative parseFloat uniqueRoutes) uniqueRoutes)
        as Hin.
      { eapply sort_elem_of. eapply list_elem_of_lookup_2, Halt. }
      change (map ?f uniqueRoutes) with (f <$> uniqueRoutes) in Hin.
      apply list_elem_of_fmap in Hin as (r & -> & _).
      repeat split.
Qed.

(** Without a destination chain no request is made and no comparison is
    returned. *)
Lemma fetchAlternativeRoutes_insufficient
    (tx : StatusResponse) (baseParams : RoutesRequest) :
  extractRouteParameters tx = Some baseParams ->
  truthy_oint (req_toChainId baseParams) = false ->
  fetch tx = None.
Proof.
  intros Hp Hto. unfold fetchAlternativeRoutes. rewrite Hp, Hto.
  now rewrite orb_true_r.
Qed.

End Comparison.

(** ** Concrete instances *)

Import Sample.

Example metrics_via_hop :
  let m := calculateRouteMetrics readDecimal via_hop in
  totalFeesUSD m == 1.5 /\ totalGasUSD m == 0.5 /\ estimatedTime m == 120
  /\ complexityScore m == 3 /\ bridgeReliability m == 9
  /\ liquidityScore m == 3.
Proof. vm_compute. repeat split. Qed.

Example successProbability_all_zero :
  calculateSuccessProbability via_hop
    {| totalFeesUSD := 0; totalGasUSD := 0; estimatedTime := 0;
       priceImpact := 0; complexityScore := 0; gasEfficiency := 0;
       liquidityScore := 0; bridgeReliability := 0; slippageTolerance := 0 |}
  == 50.
Proof. vm_compute. reflexivity. Qed.

Example categories_of_three :
  map (label readDecimal [via_unknown; via_hop; via_across])
      [via_unknown; via_hop; via_across]
  = [ALTERNATIVE; CHEAPEST; FASTEST].
Proof. vm_compute. reflexivity. Qed.

(** C1, the rule as the specification words it fails on a tie.  [via_across] has the lowest
    total fees of the two candidates (the same as [via_hop]), so the
    worded rule labels it CHEAPEST; the code gives CHEAPEST to [via_hop],
    which comes first, and labels [via_across] FASTEST. *)
Lemma recommendation_tie_counterexample :
  via_across ∈ [via_hop; via_across]
  /\ fees_of readDecimal via_across == fees_of readDecimal via_hop
  /\ claimed_category readDecimal [via_hop; via_across] via_across = CHEAPEST
  /\ label readDecimal [via_hop; via_across] via_across = FASTEST
  /\ label readDecimal [via_hop; via_across] via_across
     <> claimed_category readDecimal [via_hop; via_across] via_across.
Proof.
  split; [apply list_elem_of_further, list_elem_of_here|].
  split; [vm_compute; reflexivity|].
  split; [vm_compute; reflexivity|].
  split; [vm_compute; reflexivity|].
  vm_compute. discriminate.
Qed.



Lemma analyzeFailureReasons_spec_witness :
  substatus (failed_tx (Some "INSUFFICIENT_BALANCE") None)
  = Some "INSUFFICIENT_BALANCE"
  /\ truthy_ostr (substatusMessage (failed_tx (Some "INSUFFICIENT_BALANCE") None))
     = false
  /\ analyzeFailureReasons (failed_tx (Some "INSUFFICIENT_BALANCE") None)
     = ["Insufficient balance to complete the transaction"].
Proof.
  split; [reflexivity|]. split; [reflexivity|].
  exact (proj2 (proj2 (proj2 (proj2 (proj2
           (analyzeFailureReasons_spec
              (failed_tx (Some "INSUFFICIENT_BALANCE") None))))))
           eq_refl eq_refl).
Defined.

Example analyzeFailureReasons_examples :
  analyzeFailureReasons (failed_tx (Some "OUT_OF_GAS") (Some "gas limit hit"))
  = ["Transaction ran out of gas"; "gas limit hit"]
  /\ analyzeFailureReasons (failed_tx (Some "EXPIRED") None)
     = ["Transaction failed due to unknown reasons"]
  /\ analyzeFailureReasons (failed_tx None None) = ["Transaction failed"].
Proof. repeat split. Qed.

Lemma fetchAlternativeRoutes_no_candidates_witness :
  extractRouteParameters (failed_tx (Some "SLIPPAGE_EXCEEDED") None)
  = Some failed_params
  /\ truthy_oint (req_toChainId failed_params) = true
  /\ (forall config resp,
         config ∈ generateAlternativeConfigs failed_params ->
         api_down config = Some resp -> routes resp = [])
  /\ length (generateAlternativeConfigs failed_params) = 7%nat
  /\ fetchAlternativeRoutes readDecimal api_down
       (failed_tx (Some "SLIPPAGE_EXCEEDED") None)
     = Some {| originalRoute := None;
               alternativeRoutes := [];
               failureReasons := ["No alternative routes found"];
               recommendations := [] |}.
Proof.
  assert (forall config resp,
             config ∈ generateAlternativeConfigs failed_params ->
             api_down config = Some resp -> routes resp = []) as H
    by (intros config resp _ E; discriminate E).
  split; [reflexivity|]. split; [reflexivity|]. split; [exact H|].
  exact (fetchAlternativeRoutes_no_candidates readDecimal api_down
           (failed_tx (Some "SLIPPAGE_EXCEEDED") None) failed_params
           eq_refl eq_refl H).
Defined.

Lemma recommendations_aligned_witness :
  exists cmp,
    fetchAlternativeRoutes readDecimal api_three
      (failed_tx (Some "SLIPPAGE_EXCEEDED") None) = Some cmp
    /\ map (fun a => route_id (route a)) (alternativeRoutes cmp)
       = ["route-1"; "route-2"; "route-3"]
    /\ map recommendation (alternativeRoutes cmp)
       = [CHEAPEST; FASTEST; ALTERNATIVE]
    /\ length (recommendations cmp) = length (alternativeRoutes cmp)
    /\ forall i alt rec,
         alternativeRoutes cmp !! i = Some alt ->
         recommendations cmp !! i = Some rec ->
         rec_type rec = recommendation alt
         /\ rec_pros rec = pros alt
         /\ rec_cons rec = cons alt.
Proof.
  eexists. split; [vm_compute; reflexivity|].
  split; [reflexivity|]. split; [reflexivity|].
  apply (recommendations_aligned readDecimal api_three
           (failed_tx (Some "SLIPPAGE_EXCEEDED") None)).
  vm_compute. reflexivity.
Defined.

(** ** Binary64 numbers: order and sign *)

Section Compare_facts.
Import Floats.

(** Comparing in the other direction gives the opposite answer. *)
Lemma SFcompare_antisym (X Y : spec_float) :
  SFcompare Y X = option_map CompOpp (SFcompare X Y).
Proof.
  destruct X as [sx|sx| |sx mx ex], Y as [sy|sy| |sy my ey]; simpl;
    try destruct sx; try destruct sy; try reflexivity.
  - rewrite (Z.compare_antisym ex ey). destruct (ex ?= ey)%Z; simpl; try reflexivity.
    rewrite (Pos.compare_cont_antisym mx my Eq). simpl. reflexivity.
  - rewrite (Z.compare_antisym ex ey). destruct (ex ?= ey)%Z; simpl; try reflexivity.
    now rewrite (Pos.compare_cont_antisym mx my Eq).
Qed.

Lemma SFcompare_refl (X : spec_float) :
  X <> S754_nan -> SFcompare X X = Some Eq.
Proof.
  destruct X as [s|s| |s m e]; simpl; try destruct s; try congruence;
    intros _; rewrite Z.compare_refl;
    change (Pos.compare_cont Eq m m) with (m ?= m)%positive;
    now rewrite Pos.compare_refl.
Qed.

Lemma SFcompare_None (X Y : spec_float) :
  SFcompare X Y = None <-> X = S754_nan \/ Y = S754_nan.
Proof.
  destruct X as [sx|sx| |sx mx ex], Y as [sy|sy| |sy my ey]; simpl;
    try destruct sx; try destruct sy; split; try congruence; try tauto;
    intros [H|H]; congruence.
Qed.

(** case analysis on the comparisons of exponents and mantissas *)
Ltac compare_cases :=
  repeat match goal with
  | H : context [Z.compare ?a ?b] |- _ => destruct (Z.compare_spec a b)
  | |- context [Z.compare ?a ?b] => destruct (Z.compare_spec a b)
  | H : context [Pos.compare_cont Eq ?a ?b] |- _ =>
      change (Pos.compare_cont Eq a b) with (Pos.compare a b) in H;
      destruct (Pos.compare_spec a b)
  | |- context [Pos.compare_cont Eq ?a ?b] =>
      change (Pos.compare_cont Eq a b) with (Pos.compare a b);
      destruct (Pos.compare_spec a b)
  end; simpl in *; try congruence; try lia.

Lemma SFcompare_trans (X Y Z : spec_float) (c : comparison) :
  SFcompare X Y = Some c -> SFcompare Y Z = Some c -> SFcompare X Z = Some c.
Proof.
  destruct X as [sx|sx| |sx mx ex], Y as [sy|sy| |sy my ey],
           Z as [sz|sz| |sz mz ez]; simpl;
    try destruct sx; try destruct sy; try destruct sz; try congruence;
    intros H1 H2; injection H1 as H1; injection H2 as H2; f_equal; subst c;
    compare_cases.
Qed.

Lemma SFcompare_Eq_l (X Y Z : spec_float) :
  SFcompare X Y = Some Eq -> SFcompare X Z = SFcompare Y Z.
Proof.
  destruct X as [sx|sx| |sx mx ex], Y as [sy|sy| |sy my ey],
           Z as [sz|sz| |sz mz ez]; simpl;
    try destruct sx; try destruct sy; try destruct sz; try congruence;
    intros H1; injection H1 as H1; try f_equal; compare_cases.
Qed.

Lemma SFcompare_Eq_r (X Y Z : spec_float) :
  SFcompare Y Z = Some Eq -> SFcompare X Y = SFcompare X Z.
Proof.
  intros H.
  assert (SFcompare Z Y = Some Eq) as H'
    by (rewrite SFcompare_antisym, H; reflexivity).
  pose proof (SFcompare_Eq_l Z Y X H') as E.
  rewrite (SFcompare_antisym Y X), (SFcompare_antisym Z X).
  now rewrite E.
Qed.

Lemma SFleb_trans (X Y Z : spec_float) :
  SFleb X Y = true -> SFleb Y Z = true -> SFleb X Z = true.
Proof.
  unfold SFleb.
  destruct (SFcompare X Y) as [[]|] eqn:E1; try discriminate; intros _;
    destruct (SFcompare Y Z) as [[]|] eqn:E2; try discriminate; intros _.
  - now rewrite (SFcompare_Eq_l _ _ _ E1), E2.
  - now rewrite (SFcompare_Eq_l _ _ _ E1), E2.
  - now rewrite <- (SFcompare_Eq_r _ _ _ E2), E1.
  - now rewrite (SFcompare_trans _ _ _ _ E1 E2).
Qed.

Lemma SFleb_ltb_trans (X Y Z : spec_float) :
  SFleb X Y = true -> SFltb Y Z = true -> SFltb X Z = true.
Proof.
  unfold SFleb, SFltb.
  destruct (SFcompare X Y) as [[]|] eqn:E1; try discriminate; intros _;
    destruct (SFcompare Y Z) as [[]|] eqn:E2; try discriminate; intros _.
  - now rewrite (SFcompare_Eq_l _ _ _ E1), E2.
  - now rewrite (SFcompare_trans _ _ _ _ E1 E2).
Qed.

Lemma SFltb_leb_trans (X Y Z : spec_float) :
  SFltb X Y = true -> SFleb Y Z = true -> SFltb X Z = true.
Proof.
  unfold SFleb, SFltb.
  destruct (SFcompare X Y) as [[]|] eqn:E1; try discriminate; intros _;
    destruct (SFcompare Y Z) as [[]|] eqn:E2; try discriminate; intros _.
  - now rewrite <- (SFcompare_Eq_r _ _ _ E2), E1.
  - now rewrite (SFcompare_trans _ _ _ _ E1 E2).
Qed.

End Compare_facts.

(** ** Binary64 numbers: the sign of a difference

    The specification of the binary64 operations rounds an integer
    mantissa at an exponent.  A non-zero integer at an exponent of the
    format never rounds to zero, so the difference of two numbers is above
    zero exactly when the first is above the second. *)

Section Rounding_facts.
Import Floats Zpower.
Local Open Scope Z_scope.

Lemma digits2_pos_bounds (m : positive) :
  2 ^ (Zpos (digits2_pos m) - 1) <= Zpos m < 2 ^ Zpos (digits2_pos m).
Proof.
  induction m as [m IH|m IH|]; cbn [digits2_pos].
  - rewrite Pos2Z.inj_succ.
    replace (Z.succ (Zpos (digits2_pos m)) - 1) with (Z.succ (Zpos (digits2_pos m) - 1)) by lia.
    rewrite !Z.pow_succ_r by lia. lia.
  - rewrite Pos2Z.inj_succ.
    replace (Z.succ (Zpos (digits2_pos m)) - 1) with (Z.succ (Zpos (digits2_pos m) - 1)) by lia.
    rewrite !Z.pow_succ_r by lia. lia.
  - simpl. lia.
Qed.

Lemma shr_1_m (r : shr_record) :
  0 <= shr_m r -> shr_m (shr_1 r) = shr_m r / 2.
Proof.
  destruct r as [m b1 b2]. cbn [shr_m]. intros H.
  rewrite <- Z.div2_div.
  destruct m as [|[p|p|]|p]; try reflexivity; lia.
Qed.

Lemma pow2_xI (p : positive) : 2 ^ Zpos p~1 = 2 * 2 ^ Zpos p * 2 ^ Zpos p.
Proof.
  assert (Zpos p~1 = 1 + Zpos p + Zpos p) as -> by lia.
  rewrite !Z.pow_add_r by lia. reflexivity.
Qed.

Lemma pow2_xO (p : positive) : 2 ^ Zpos p~0 = 2 ^ Zpos p * 2 ^ Zpos p.
Proof.
  assert (Zpos p~0 = Zpos p + Zpos p) as -> by lia.
  now rewrite Z.pow_add_r by lia.
Qed.

Lemma iter_shr_1_m (p : positive) (r : shr_record) :
  0 <= shr_m r ->
  shr_m (iter_pos shr_1 p r) = shr_m r / 2 ^ Zpos p.
Proof.
  revert r. induction p as [p IH|p IH|]; intros r Hr; cbn [iter_pos].
  - assert (0 < 2 ^ Zpos p) as Hp by (apply Z.pow_pos_nonneg; lia).
    assert (0 <= shr_m (shr_1 r)) as H1.
    { rewrite shr_1_m by exact Hr. apply Z.div_pos; lia. }
    assert (0 <= shr_m (iter_pos shr_1 p (shr_1 r))) as H2.
    { rewrite IH by exact H1. apply Z.div_pos; [exact H1|exact Hp]. }
    rewrite IH by exact H2. rewrite IH by exact H1. rewrite shr_1_m by exact Hr.
    rewrite pow2_xI. rewrite !Z.div_div by lia. f_equal. lia.
  - assert (0 < 2 ^ Zpos p) as Hp by (apply Z.pow_pos_nonneg; lia).
    assert (0 <= shr_m (iter_pos shr_1 p r)) as H2.
    { rewrite IH by exact Hr. apply Z.div_pos; [exact Hr|exact Hp]. }
    rewrite IH by exact H2. rewrite IH by exact Hr.
    rewrite pow2_xO. rewrite !Z.div_div by lia. reflexivity.
  - rewrite shr_1_m by exact Hr. reflexivity.
Qed.

Lemma shr_m_of_loc (m : Z) (l : location) : shr_m (shr_record_of_loc m l) = m.
Proof. destruct l as [|[]]; reflexivity. Qed.

(** Shifting to the exponent of the format keeps a positive mantissa
    positive when the exponent is not below the least exponent. *)
Lemma shr_fexp_pos (m : positive) (e : Z) (l : location) :
  emin <= e ->
  0 < shr_m (fst (shr_fexp prec emax (Zpos m) e l))
  /\ emin <= snd (shr_fexp prec emax (Zpos m) e l).
Proof.
  intros He. unfold shr_fexp, shr.
  pose proof (digits2_pos_bounds m) as [Hlo _].
  cbn [Zdigits2].
  set (d := Zpos (digits2_pos m)) in *.
  destruct (fexp prec emax (d + e) - e) as [|q|q] eqn:En; cbn [fst snd];
    rewrite ?shr_m_of_loc; try (split; lia).
  split.
  - rewrite iter_shr_1_m by (rewrite shr_m_of_loc; lia).
    rewrite shr_m_of_loc.
    apply Z.div_str_pos. split; [apply Z.pow_pos_nonneg; lia|].
    eapply Z.le_trans; [|exact Hlo].
    apply Z.pow_le_mono_r; [lia|].
    unfold fexp, SpecFloat.emin, prec, emax in *. lia.
  - unfold fexp, SpecFloat.emin, prec, emax in *. lia.
Qed.

Lemma round_nearest_even_pos (m : Z) (l : location) :
  0 < m -> 0 < round_nearest_even m l.
Proof.
  intros H. unfold round_nearest_even. destruct l as [|[]]; try lia.
  destruct (Z.even m); lia.
Qed.

Lemma binary_round_aux_null (s : bool) (m e : Z) (l : location) :
  Double.signed_or_null s (binary_round_aux prec emax s m e l).
Proof.
  unfold binary_round_aux.
  destruct (shr_fexp prec emax m e l) as [r1 e1].
  destruct (shr_fexp prec emax _ e1 loc_Exact) as [r2 e2].
  destruct (shr_m r2); [reflexivity| |exact I].
  destruct (e2 <=? emax - prec); reflexivity.
Qed.

Lemma binary_round_aux_signed (s : bool) (m : positive) (e : Z) (l : location) :
  emin <= e ->
  Double.signed s (binary_round_aux prec emax s (Zpos m) e l).
Proof.
  intros He. unfold binary_round_aux.
  pose proof (shr_fexp_pos m e l He) as [H1 H2].
  destruct (shr_fexp prec emax (Zpos m) e l) as [r1 e1]. cbn [fst snd] in *.
  pose proof (round_nearest_even_pos (shr_m r1) (loc_of_shr_record r1) H1) as H3.
  destruct (round_nearest_even (shr_m r1) (loc_of_shr_record r1)) as [|m2|m2];
    try lia.
  pose proof (shr_fexp_pos m2 e1 loc_Exact H2) as [H4 _].
  destruct (shr_fexp prec emax (Zpos m2) e1 loc_Exact) as [r2 e2].
  cbn [fst] in H4.
  destruct (shr_m r2); try lia.
  destruct (e2 <=? emax - prec); reflexivity.
Qed.

Lemma shl_align_snd (m : positive) (e e' : Z) :
  emin <= e -> emin <= e' -> emin <= snd (shl_align m e e').
Proof. unfold shl_align. destruct (e' - e); simpl; lia. Qed.

Lemma fexp_emin (e : Z) : emin <= fexp prec emax e.
Proof. unfold fexp. lia. Qed.

Lemma binary_round_signed (s : bool) (m : positive) (e : Z) :
  emin <= e -> Double.signed s (binary_round prec emax s m e).
Proof.
  intros He. unfold binary_round.
  pose proof (shl_align_snd m e (fexp prec emax (Zpos (digits2_pos m) + e))
                He (fexp_emin _)) as H.
  destruct (shl_align m e _) as [mz ez]. cbn [snd] in H.
  now apply binary_round_aux_signed.
Qed.

Lemma binary_round_null (s : bool) (m : positive) (e : Z) :
  Double.signed_or_null s (binary_round prec emax s m e).
Proof.
  unfold binary_round. destruct (shl_align m e _) as [mz ez].
  apply binary_round_aux_null.
Qed.

Lemma SFltb_zero_signed (s : bool) (X : spec_float) :
  Double.signed s X -> SFltb (S754_zero false) X = negb s.
Proof. destruct X as [| | |]; simpl; try tauto; intros ->; now destruct s. Qed.

Lemma SFltb_zero_null_true (X : spec_float) :
  Double.signed_or_null true X -> SFltb (S754_zero false) X = false.
Proof. destruct X as [| | |]; simpl; try tauto; intros ->; reflexivity. Qed.

(** A normalised integer is above zero exactly when the integer is. *)
Lemma SFltb_zero_normalize (m e : Z) :
  emin <= e ->
  SFltb (S754_zero false) (binary_normalize prec emax m e false) = (0 <? m).
Proof.
  intros He. destruct m as [|p|p]; cbn [binary_normalize].
  - reflexivity.
  - now rewrite (SFltb_zero_signed false) by now apply binary_round_signed.
  - now rewrite SFltb_zero_null_true by apply binary_round_null.
Qed.

Lemma shl_align_fst (m : positive) (e e' : Z) :
  e' <= e -> Zpos (fst (shl_align m e e')) = Zpos m * 2 ^ (e - e').
Proof.
  intros H. unfold shl_align.
  destruct (e' - e) as [|d|d] eqn:E; cbn [fst]; try lia.
  - replace (e - e') with 0 by lia. lia.
  - change (Pos.iter xO m d) with (shift_pos d m).
    rewrite shift_pos_correct, Z.pow_pos_fold.
    replace (e - e') with (Zpos d) by lia. lia.
Qed.

(** what a valid mantissa and exponent say *)
Lemma bounded_facts (m : positive) (e : Z) :
  bounded prec emax m e = true ->
  emin <= e /\ Zpos m < 2 ^ 53 /\ (emin < e -> 2 ^ 52 <= Zpos m).
Proof.
  unfold bounded, canonical_mantissa. rewrite andb_true_iff, Z.eqb_eq.
  intros [Hc _]. pose proof (digits2_pos_bounds m) as [Hlo Hhi].
  set (d := Zpos (digits2_pos m)) in *.
  assert (0 < d) by (unfold d; lia).
  unfold fexp, SpecFloat.emin, prec, emax in *.
  split; [lia|]. split.
  - eapply Z.lt_le_trans; [exact Hhi|]. apply Z.pow_le_mono_r; lia.
  - intros He. assert (d = 53) as Hd by lia. rewrite Hd in Hlo. exact Hlo.
Qed.

(** the aligned mantissas of two valid numbers compare as the numbers do *)
Lemma aligned_compare (mx my : positive) (ex ey : Z) :
  bounded prec emax mx ex = true -> bounded prec emax my ey = true ->
  (Zpos (fst (shl_align mx ex (Z.min ex ey)))
   ?= Zpos (fst (shl_align my ey (Z.min ex ey))))
  = match ex ?= ey with
    | Lt => Lt
    | Gt => Gt
    | Eq => Pos.compare_cont Eq mx my
    end.
Proof.
  intros Hx Hy.
  apply bounded_facts in Hx as (Hex & Hmx & Hnx).
  apply bounded_facts in Hy as (Hey & Hmy & Hny).
  rewrite !shl_align_fst by lia.
  destruct (Z.compare_spec ex ey) as [->|Hlt|Hgt].
  - rewrite Z.min_id, Z.sub_diag, !Z.mul_1_r. reflexivity.
  - rewrite Z.min_l by lia. rewrite Z.sub_diag, Z.mul_1_r.
    apply Z.compare_lt_iff.
    assert (2 ^ 1 <= 2 ^ (ey - ex)) as Hp by (apply Z.pow_le_mono_r; lia).
    specialize (Hny ltac:(lia)). simpl (2 ^ 1) in Hp.
    change (2 ^ 53) with (2 ^ 52 * 2) in Hmx. nia.
  - rewrite Z.min_r by lia. rewrite Z.sub_diag, Z.mul_1_r.
    apply Z.compare_gt_iff.
    assert (2 ^ 1 <= 2 ^ (ex - ey)) as Hp by (apply Z.pow_le_mono_r; lia).
    specialize (Hnx ltac:(lia)). simpl (2 ^ 1) in Hp.
    change (2 ^ 53) with (2 ^ 52 * 2) in Hmy. nia.
Qed.

(** The sign of a difference: for valid numbers other than NaN,
    [x - y] is above zero exactly when [y] is below [x]. *)
Lemma SFsub_pos (X Y : spec_float) :
  valid_binary X = true -> valid_binary Y = true ->
  X <> S754_nan -> Y <> S754_nan ->
  SFltb (S754_zero false) (SF64sub X Y) = SFltb Y X.
Proof.
  intros VX VY NX NY.
  destruct X as [sx|sx| |sx mx ex], Y as [sy|sy| |sy my ey];
    try congruence; try (destruct sx, sy; reflexivity);
    try (destruct sx; reflexivity); try (destruct sy; reflexivity).
  unfold SF64sub, SFsub. cbn [valid_binary] in VX, VY.
  pose proof (bounded_facts _ _ VX) as (Hex & _).
  pose proof (bounded_facts _ _ VY) as (Hey & _).
  rewrite SFltb_zero_normalize by lia.
  pose proof (aligned_compare mx my ex ey VX VY) as Hc.
  set (a := Zpos (fst (shl_align mx ex (Z.min ex ey)))) in *.
  set (b := Zpos (fst (shl_align my ey (Z.min ex ey)))) in *.
  assert (0 < a) by (unfold a; lia). assert (0 < b) by (unfold b; lia).
  unfold SFltb, SFcompare.
  rewrite (Z.compare_antisym ex ey).
  change (Pos.compare_cont Eq my mx) with (Pos.compare_cont (CompOpp Eq) my mx).
  rewrite <- (Pos.compare_cont_antisym mx my Eq).
  destruct sx, sy; cbn [cond_Zopp CompOpp].
  - (* both negative *)
    destruct (Z.compare_spec a b) as [E|E|E];
      destruct (ex ?= ey); try discriminate Hc;
      try (destruct (Pos.compare_cont Eq mx my); try discriminate Hc);
      cbn [CompOpp]; lia.
  - destruct (0 <? - a - b) eqn:E; [lia|reflexivity].
  - destruct (0 <? a - - b) eqn:E; [reflexivity|lia].
  - destruct (Z.compare_spec a b) as [E|E|E];
      destruct (ex ?= ey); try discriminate Hc;
      try (destruct (Pos.compare_cont Eq mx my); try discriminate Hc);
      cbn [CompOpp]; lia.
Qed.

End Rounding_facts.

(** ** Binary64 numbers: rounding keeps the order of sums

    A sum of two numbers that are not negative is the sum of their units,
    rounded to 53 digits at the nearest value, the even one at a tie.
    That rounding is monotone, so addition is monotone in both
    arguments. *)

Section Addition_facts.
Import Floats Zpower Double.
Local Open Scope Z_scope.





































End Addition_facts.

(** ** Binary64 numbers: comparisons in JavaScript *)

Section Number_facts.
Import Floats Double.
Local Open Scope float_scope.

Lemma is_nan_Prim2SF (x : float) : is_nan x = true <-> Prim2SF x = S754_nan.
Proof.
  unfold is_nan. rewrite eqb_spec, negb_true_iff. unfold SFeqb. split.
  - intros H. destruct (Prim2SF x) as [s|s| |s m e] eqn:E; [| |reflexivity|];
      rewrite SFcompare_refl in H by congruence; discriminate.
  - now intros ->.
Qed.

Lemma is_nan_false (x : float) : is_nan x = false <-> Prim2SF x <> S754_nan.
Proof. rewrite <- is_nan_Prim2SF. now destruct (is_nan x). Qed.

Lemma num_lt_le (x y : float) : lt x y -> le x y.
Proof.
  unfold lt, le. rewrite ltb_spec, leb_spec. unfold SFltb, SFleb.
  destruct SFcompare as [[]|]; congruence.
Qed.

(** a comparison that holds has no [NaN] on either side *)
Lemma num_le_not_nan (x y : float) :
  le x y -> is_nan x = false /\ is_nan y = false.
Proof.
  unfold le. rewrite leb_spec, !is_nan_false. unfold SFleb. intros H.
  split; intros E; rewrite E in H; [|destruct (Prim2SF x)]; discriminate.
Qed.

Lemma num_le_refl (x : float) : is_nan x = false -> le x x.
Proof.
  unfold le. rewrite leb_spec, is_nan_false. unfold SFleb. intros H.
  now rewrite SFcompare_refl.
Qed.

(** of two numbers other than [NaN], one is at most the other *)
Lemma num_le_total (x y : float) :
  is_nan x = false -> is_nan y = false -> (y <? x) = false -> le x y.
Proof.
  unfold le. rewrite leb_spec, ltb_spec, !is_nan_false. unfold SFleb, SFltb.
  intros Hx Hy. rewrite (SFcompare_antisym (Prim2SF x) (Prim2SF y)).
  destruct (SFcompare (Prim2SF x) (Prim2SF y)) as [[]|] eqn:E; try discriminate;
    try reflexivity.
  apply SFcompare_None in E. tauto.
Qed.

Lemma num_le_antisym (x y : float) : le x y -> le y x -> (x =? y) = true.
Proof.
  unfold le. rewrite !leb_spec, eqb_spec. unfold SFleb, SFeqb.
  rewrite (SFcompare_antisym (Prim2SF x) (Prim2SF y)).
  destruct (SFcompare (Prim2SF x) (Prim2SF y)) as [[]|]; try discriminate;
    reflexivity.
Qed.

Lemma num_le_trans (x y z : float) : le x y -> le y z -> le x z.
Proof. unfold le. rewrite !leb_spec. apply SFleb_trans. Qed.

Lemma num_le_lt_trans (x y z : float) : le x y -> lt y z -> lt x z.
Proof. unfold le, lt. rewrite leb_spec, !ltb_spec. apply SFleb_ltb_trans. Qed.

Lemma num_lt_le_trans (x y z : float) : lt x y -> le y z -> lt x z.
Proof. unfold le, lt. rewrite leb_spec, !ltb_spec. apply SFltb_leb_trans. Qed.

(** The sign of a difference, as the comparator of a sort reads it: for
    numbers other than [NaN], [x - y > 0] exactly when [y < x]. *)
Lemma num_sub_pos (x y : float) :
  is_nan x = false -> is_nan y = false -> (0 <? x - y) = (y <? x).
Proof.
  rewrite !is_nan_false. intros Hx Hy.
  rewrite !ltb_spec, sub_spec.
  change (Prim2SF 0) with (S754_zero false).
  apply SFsub_pos; auto using Prim2SF_valid.
Qed.

(** [NaN] spreads through subtraction and multiplication *)
Lemma num_sub_nan_l (x y : float) : is_nan x = true -> is_nan (x - y) = true.
Proof. rewrite !is_nan_Prim2SF, sub_spec. now intros ->. Qed.

Lemma num_sub_nan_r (x y : float) : is_nan y = true -> is_nan (x - y) = true.
Proof.
  rewrite !is_nan_Prim2SF, sub_spec. intros ->. now destruct (Prim2SF x).
Qed.

Lemma num_mul_nan_l (x y : float) : is_nan x = true -> is_nan (x * y) = true.
Proof. rewrite !is_nan_Prim2SF, mul_spec. now intros ->. Qed.

(** a truthy number is not [NaN], and [NaN] is falsy *)
Lemma truthy_num_not_nan (x : float) : truthy_num x = true -> is_nan x = false.
Proof.
  unfold truthy_num. rewrite orb_true_iff.
  intros [H|H]; apply num_lt_le, num_le_not_nan in H; tauto.
Qed.

Lemma or_num_number (x d : float) : is_nan d = false -> is_nan (or_num x d) = false.
Proof.
  intros Hd. unfold or_num. destruct (truthy_num x) eqn:E; [|exact Hd].
  now apply truthy_num_not_nan.
Qed.

Lemma or_num_nan (x d : float) : is_nan x = true -> or_num x d = d.
Proof.
  intros H. unfold or_num. destruct (truthy_num x) eqn:E; [|reflexivity].
  apply truthy_num_not_nan in E. congruence.
Qed.

(** [Math.min] and [Math.max] against a bound that is a number *)
Lemma Math_min_nan (a x : float) :
  is_nan x = true -> is_nan (Math_min a x) = true.
Proof. intros H. unfold Math_min. rewrite H, orb_true_r. reflexivity. Qed.

Lemma Math_max_nan (a x : float) :
  is_nan x = true -> is_nan (Math_max a x) = true.
Proof. intros H. unfold Math_max. rewrite H, orb_true_r. reflexivity. Qed.

Lemma Math_min_le (a x : float) :
  is_nan a = false -> is_nan x = false ->
  le (Math_min a x) a /\ is_nan (Math_min a x) = false.
Proof.
  intros Ha Hx. unfold Math_min. rewrite Ha, Hx. cbn [orb].
  destruct (a <? x) eqn:E1; [split; [now apply num_le_refl | exact Ha]|].
  destruct (x <? a) eqn:E2; [split; [now apply num_lt_le | exact Hx]|].
  destruct (get_sign a); (split; [|assumption]);
    [now apply num_le_refl | now apply num_le_total].
Qed.

Lemma Math_max_bounds (a b x : float) :
  le a b -> is_nan x = false -> le x b ->
  le a (Math_max a x) /\ le (Math_max a x) b.
Proof.
  intros Hab Hx Hxb. destruct (num_le_not_nan a b Hab) as [Ha Hb].
  unfold Math_max. rewrite Ha, Hx. cbn [orb].
  destruct (a <? x) eqn:E1; [split; [now apply num_lt_le | exact Hxb]|].
  destruct (x <? a) eqn:E2; [split; [now apply num_le_refl | exact Hab]|].
  destruct (get_sign a); split; try assumption; try (now apply num_le_refl).
  now apply num_le_total.
Qed.

End Number_facts.

(** ** Binary64 numbers: sums in JavaScript *)

Section Addition_numbers.
Import Floats Double.
Local Open Scope float_scope.






End Addition_numbers.

(** ** The stable sort over binary64 keys *)

Section Double_sort_facts.
Import Floats Double.
Local Open Scope float_scope.
Context {A : Type} (cmp : A -> A -> float).

Lemma double_insert_Permutation (x : A) (l : list A) :
  Double.insert cmp x l ≡ₚ x :: l.
Proof.
  induction l as [|y l IH]; simpl; [done|].
  destruct (0 <? cmp x y); [|done].
  rewrite IH. apply Permutation_swap.
Qed.

Lemma double_sort_Permutation (l : list A) : Double.sort cmp l ≡ₚ l.
Proof.
  induction l as [|x l IH]; simpl; [done|].
  rewrite double_insert_Permutation. now rewrite IH.
Qed.

Lemma double_sort_elem_of (l : list A) (x : A) :
  x ∈ Double.sort cmp l <-> x ∈ l.
Proof. now rewrite double_sort_Permutation. Qed.

Lemma double_sort_head (l : list A) :
  l <> [] -> exists x, head (Double.sort cmp l) = Some x /\ x ∈ l.
Proof.
  intros Hne. destruct (Double.sort cmp l) as [|x s] eqn:E.
  - exfalso. apply Hne. apply Permutation_nil_r.
    rewrite <- E. symmetry. apply double_sort_Permutation.
  - exists x. split; [reflexivity|].
    apply double_sort_elem_of. rewrite E. apply list_elem_of_here.
Qed.

Lemma numbers_elem_of (key : A -> float) (l : list A) (x : A) :
  numbers key l = true -> x ∈ l -> is_nan (key x) = false.
Proof.
  unfold numbers. rewrite forallb_forall. intros H Hx.
  apply list_elem_of_In, H in Hx. now apply negb_true_iff.
Qed.

Lemma numbers_cons (key : A -> float) (x : A) (l : list A) :
  numbers key (x :: l) = true ->
  is_nan (key x) = false /\ numbers key l = true.
Proof.
  unfold numbers. cbn [forallb]. rewrite andb_true_iff, negb_true_iff. tauto.
Qed.

(** When the comparator is the difference of a key and no key is [NaN],
    the sorted array starts with the first element of the input that has
    the lowest key. *)
Lemma double_head_sort_first_lowest (key : A -> float) (l : list A) :
  (forall a b, cmp a b = key a - key b) ->
  numbers key l = true ->
  l <> [] ->
  exists x, head (Double.sort cmp l) = Some x /\ first_lowest key l x.
Proof.
  intros Hcmp. induction l as [|a l IH]; [done|]. intros Hnum _.
  apply numbers_cons in Hnum as [Ha Hl].
  destruct l as [|b l'].
  - exists a. split; [done|]. exists [], []. repeat split; constructor.
  - destruct IH as (y & Hy & l1 & l2 & El & H1 & H2); [exact Hl|done|].
    assert (is_nan (key y) = false) as Hny.
    { apply (numbers_elem_of key (b :: l')); [exact Hl|].
      rewrite El, elem_of_app. right. apply list_elem_of_here. }
    change (Double.sort cmp (a :: b :: l'))
      with (Double.insert cmp a (Double.sort cmp (b :: l'))).
    destruct (Double.sort cmp (b :: l')) as [|y' rest]; [done|].
    simpl in Hy. injection Hy as ->. simpl.
    rewrite Hcmp, (num_sub_pos _ _ Ha Hny).
    destruct (key y <? key a) eqn:E.
    + exists y. split; [done|]. exists (a :: l1), l2. repeat split.
      * now rewrite El.
      * constructor; assumption.
      * assumption.
    + assert (le (key a) (key y)) as Hay by now apply num_le_total.
      exists a. split; [done|]. exists [], (b :: l'). repeat split; [constructor|].
      rewrite El. apply Forall_app. split.
      * eapply Forall_impl; [exact H1|]. simpl. intros z Hz.
        apply num_lt_le. eapply num_le_lt_trans; eassumption.
      * constructor; [exact Hay|].
        eapply Forall_impl; [exact H2|]. simpl. intros z Hz.
        eapply num_le_trans; eassumption.
Qed.

(** the same for a comparator that sorts downwards *)
Lemma double_head_sort_first_highest (key : A -> float) (l : list A) :
  (forall a b, cmp a b = key b - key a) ->
  numbers key l = true ->
  l <> [] ->
  exists x, head (Double.sort cmp l) = Some x /\ first_highest key l x.
Proof.
  intros Hcmp. induction l as [|a l IH]; [done|]. intros Hnum _.
  apply numbers_cons in Hnum as [Ha Hl].
  destruct l as [|b l'].
  - exists a. split; [done|]. exists [], []. repeat split; constructor.
  - destruct IH as (y & Hy & l1 & l2 & El & H1 & H2); [exact Hl|done|].
    assert (is_nan (key y) = false) as Hny.
    { apply (numbers_elem_of key (b :: l')); [exact Hl|].
      rewrite El, elem_of_app. right. apply list_elem_of_here. }
    change (Double.sort cmp (a :: b :: l'))
      with (Double.insert cmp a (Double.sort cmp (b :: l'))).
    destruct (Double.sort cmp (b :: l')) as [|y' rest]; [done|].
    simpl in Hy. injection Hy as ->. simpl.
    rewrite Hcmp, (num_sub_pos _ _ Hny Ha).
    destruct (key a <? key y) eqn:E.
    + exists y. split; [done|]. exists (a :: l1), l2. repeat split.
      * now rewrite El.
      * constructor; assumption.
      * assumption.
    + assert (le (key y) (key a)) as Hay by now apply num_le_total.
      exists a. split; [done|]. exists [], (b :: l'). repeat split; [constructor|].
      rewrite El. apply Forall_app. split.
      * eapply Forall_impl; [exact H1|]. simpl. intros z Hz.
        apply num_lt_le. eapply num_lt_le_trans; eassumption.
      * constructor; [exact Hay|].
        eapply Forall_impl; [exact H2|]. simpl. intros z Hz.
        eapply num_le_trans; eassumption.
Qed.

End Double_sort_facts.

(** ** The recommendation category in double precision *)

Section Double_category.
Import Floats Double.
Local Open Scope float_scope.
Variable parseFloat : string -> float.

Local Abbreviation dfees := (Double.fees_of parseFloat).
Local Abbreviation dtime := (Double.time_of parseFloat).
Local Abbreviation dreliability := (Double.reliability_of parseFloat).
Local Abbreviation dscore := (Double.score_of parseFloat).
Local Abbreviation dcategory := (Double.label parseFloat).
Local Abbreviation dtop := (Double.tops parseFloat).

Lemma double_head_byFees (allRoutes : list Route) :
  numbers dfees allRoutes = true -> allRoutes <> [] ->
  exists c, head (byFees parseFloat allRoutes) = Some c
            /\ first_lowest dfees allRoutes c.
Proof.
  intros Hn Hne. apply double_head_sort_first_lowest; [|exact Hn|exact Hne].
  reflexivity.
Qed.

Lemma double_head_byTime (allRoutes : list Route) :
  numbers dtime allRoutes = true -> allRoutes <> [] ->
  exists t, head (byTime parseFloat allRoutes) = Some t
            /\ first_lowest dtime allRoutes t.
Proof.
  intros Hn Hne. apply double_head_sort_first_lowest; [|exact Hn|exact Hne].
  reflexivity.
Qed.

Lemma double_head_byReliability (allRoutes : list Route) :
  numbers dreliability allRoutes = true -> allRoutes <> [] ->
  exists s, head (byReliability parseFloat allRoutes) = Some s
            /\ first_highest dreliability allRoutes s.
Proof.
  intros Hn Hne. apply double_head_sort_first_highest; [|exact Hn|exact Hne].
  reflexivity.
Qed.

Lemma double_isOptimal_tops
    (r : Route) (m : RouteMetrics) (allRoutes : list Route) :
  isOptimal parseFloat r m allRoutes = true
  <-> dtop allRoutes (route_id r) (calculateOptimalScore m).
Proof.
  unfold isOptimal, tops. rewrite forallb_forall. split.
  - intros H r' Hin Hid. apply list_elem_of_In, H in Hin.
    apply orb_true_iff in Hin as [Hge | Heq]; [exact Hge|].
    now apply String.eqb_eq in Heq.
  - intros H r' Hin. apply list_elem_of_In in Hin. apply orb_true_iff.
    destruct (String.eqb_spec (route_id r') (route_id r)) as [|Hne]; [now right|].
    left. now apply H.
Qed.

(** The category, as a cascade over the three sorted copies and the
    optimality test. *)
Lemma double_rec_type_cascade
    (r : Route) (m : RouteMetrics) (allRoutes : list Route) :
  rec_type (generateRouteRecommendation parseFloat r m allRoutes) =
  if first_is (byFees parseFloat allRoutes) r then CHEAPEST
  else if first_is (byTime parseFloat allRoutes) r then FASTEST
  else if first_is (byReliability parseFloat allRoutes) r then SAFEST
  else if isOptimal parseFloat r m allRoutes then OPTIMAL
  else ALTERNATIVE.
Proof.
  unfold generateRouteRecommendation.
  destruct (first_is (byFees parseFloat allRoutes) r);
    [destruct (isOptimal parseFloat r m allRoutes); reflexivity|].
  destruct (first_is (byTime parseFloat allRoutes) r);
    [destruct (isOptimal parseFloat r m allRoutes); reflexivity|].
  destruct (first_is (byReliability parseFloat allRoutes) r);
    destruct (isOptimal parseFloat r m allRoutes); reflexivity.
Qed.

Lemma double_first_is_head (sorted : list Route) (x r : Route) :
  head sorted = Some x ->
  first_is sorted r = true <-> route_id x = route_id r.
Proof. intros H. unfold first_is. rewrite H. apply String.eqb_eq. Qed.

Lemma double_first_is_same_id (sorted : list Route) (r1 r2 : Route) :
  first_is sorted r1 = true -> first_is sorted r2 = true ->
  route_id r1 = route_id r2.
Proof.
  unfold first_is. destruct (head sorted) as [x|]; [|done].
  rewrite !String.eqb_eq. congruence.
Qed.

(** C1 (as amended). In a candidate set in which no candidate's total
    fees, estimated time or bridge reliability is NaN, the category
    follows the priority rule with ties resolved by input order:
    CHEAPEST when the route carries the id of the first candidate with the
    lowest total fees; otherwise FASTEST when it carries the id of the
    first candidate with the lowest estimated time; otherwise SAFEST when
    it carries the id of the first candidate with the highest bridge
    reliability; otherwise OPTIMAL when its score is at least the score of
    every candidate with another id; otherwise ALTERNATIVE.  Fees, times,
    reliabilities and scores are the doubles the code computes. *)
Theorem recommendation_priority_rule (allRoutes : list Route) (r : Route) :
  r ∈ allRoutes ->
  numbers dfees allRoutes = true ->
  numbers dtime allRoutes = true ->
  numbers dreliability allRoutes = true ->
  exists c t s,
    first_lowest dfees allRoutes c
    /\ first_lowest dtime allRoutes t
    /\ first_highest dreliability allRoutes s
    /\ (route_id c = route_id r -> dcategory allRoutes r = CHEAPEST)
    /\ (route_id c <> route_id r -> route_id t = route_id r ->
        dcategory allRoutes r = FASTEST)
    /\ (route_id c <> route_id r -> route_id t <> route_id r ->
        route_id s = route_id r -> dcategory allRoutes r = SAFEST)
    /\ (route_id c <> route_id r -> route_id t <> route_id r ->
        route_id s <> route_id r ->
        dtop allRoutes (route_id r) (dscore r) ->
        dcategory allRoutes r = OPTIMAL)
    /\ (route_id c <> route_id r -> route_id t <> route_id r ->
        route_id s <> route_id r ->
        ~ dtop allRoutes (route_id r) (dscore r) ->
        dcategory allRoutes r = ALTERNATIVE).
Proof.
  intros Hin Hf Ht Hs.
  assert (allRoutes <> []) as Hne by (intros ->; inversion Hin).
  destruct (double_head_byFees allRoutes Hf Hne) as (c & Hc & Hcmin).
  destruct (double_head_byTime allRoutes Ht Hne) as (t & Htt & Htmin).
  destruct (double_head_byReliability allRoutes Hs Hne) as (s & Hss & Hsmax).
  exists c, t, s. do 3 (split; [assumption|]).
  unfold label. rewrite double_rec_type_cascade.
  pose proof (double_first_is_head _ _ r Hc) as Ec.
  pose proof (double_first_is_head _ _ r Htt) as Et.
  pose proof (double_first_is_head _ _ r Hss) as Es.
  pose proof (double_isOptimal_tops r (calculateRouteMetrics parseFloat r) allRoutes)
    as Eo.
  fold (dscore r) in Eo.
  destruct (first_is (byFees parseFloat allRoutes) r);
    [repeat split; intros; try reflexivity; exfalso; intuition congruence|].
  destruct (first_is (byTime parseFloat allRoutes) r);
    [repeat split; intros; try reflexivity; exfalso; intuition congruence|].
  destruct (first_is (byReliability parseFloat allRoutes) r);
    [repeat split; intros; try reflexivity; exfalso; intuition congruence|].
  destruct (isOptimal parseFloat r (calculateRouteMetrics parseFloat r) allRoutes);
    repeat split; intros; try reflexivity; exfalso; intuition congruence.
Qed.

Lemma double_category_CHEAPEST (allRoutes : list Route) (r : Route) :
  dcategory allRoutes r = CHEAPEST ->
  first_is (byFees parseFloat allRoutes) r = true.
Proof.
  unfold label. rewrite double_rec_type_cascade.
  repeat match goal with |- context [if ?b then _ else _] => destruct b end;
    congruence.
Qed.

Lemma double_category_FASTEST (allRoutes : list Route) (r : Route) :
  dcategory allRoutes r = FASTEST ->
  first_is (byTime parseFloat allRoutes) r = true.
Proof.
  unfold label. rewrite double_rec_type_cascade.
  repeat match goal with |- context [if ?b then _ else _] => destruct b end;
    congruence.
Qed.

Lemma double_category_SAFEST (allRoutes : list Route) (r : Route) :
  dcategory allRoutes r = SAFEST ->
  first_is (byReliability parseFloat allRoutes) r = true.
Proof.
  unfold label. rewrite double_rec_type_cascade.
  repeat match goal with |- context [if ?b then _ else _] => destruct b end;
    congruence.
Qed.

(** A candidate labelled OPTIMAL tops the others, and another candidate
    exists: the first element of the fee-sorted copy has another id. *)
Lemma double_category_OPTIMAL (allRoutes : list Route) (r : Route) :
  r ∈ allRoutes ->
  dcategory allRoutes r = OPTIMAL ->
  dtop allRoutes (route_id r) (dscore r)
  /\ exists c, c ∈ allRoutes /\ route_id c <> route_id r.
Proof.
  intros Hr. unfold label. rewrite double_rec_type_cascade. intros H.
  destruct (first_is (byFees parseFloat allRoutes) r) eqn:Ef; [discriminate|].
  split.
  - apply double_isOptimal_tops.
    repeat match type of H with context [if ?b then _ else _] =>
      destruct b eqn:? end; congruence.
  - destruct (double_sort_head
                (fun a b => totalFeesUSD (calculateRouteMetrics parseFloat a)
                            - totalFeesUSD (calculateRouteMetrics parseFloat b))
                allRoutes) as (c & Hc & Hin); [intros ->; inversion Hr|].
    exists c. split; [exact Hin|]. intros E.
    apply (double_first_is_head _ _ r Hc) in E. unfold byFees in Ef. congruence.
Qed.

Lemma double_primary_same_id (allRoutes : list Route) (r1 r2 : Route) :
  dcategory allRoutes r1 = dcategory allRoutes r2 ->
  dcategory allRoutes r1 ∈ [CHEAPEST; FASTEST; SAFEST] ->
  route_id r1 = route_id r2.
Proof.
  intros Heq Hin. rewrite !elem_of_cons in Hin.
  destruct Hin as [H | [H | [H | H]]]; [| | |inversion H].
  - pose proof H as H'. rewrite Heq in H'.
    eapply double_first_is_same_id; eapply double_category_CHEAPEST; eassumption.
  - pose proof H as H'. rewrite Heq in H'.
    eapply double_first_is_same_id; eapply double_category_FASTEST; eassumption.
  - pose proof H as H'. rewrite Heq in H'.
    eapply double_first_is_same_id; eapply double_category_SAFEST; eassumption.
Qed.

Lemma double_same_id_same_index
    (allRoutes : list Route) (i j : nat) (r1 r2 : Route) :
  NoDup (map route_id allRoutes) ->
  allRoutes !! i = Some r1 -> allRoutes !! j = Some r2 ->
  route_id r1 = route_id r2 -> i = j.
Proof.
  intros Hnd H1 H2 Hid.
  apply (NoDup_lookup (map route_id allRoutes) i j (route_id r1)); [exact Hnd| |].
  - now rewrite list_lookup_fmap, H1.
  - now rewrite list_lookup_fmap, H2, Hid.
Qed.

Lemma double_same_id_same_route (allRoutes : list Route) (r1 r2 : Route) :
  NoDup (map route_id allRoutes) ->
  r1 ∈ allRoutes -> r2 ∈ allRoutes ->
  route_id r1 = route_id r2 -> r1 = r2.
Proof.
  intros Hnd H1 H2 Hid.
  apply list_elem_of_lookup_1 in H1 as [i Hi].
  apply list_elem_of_lookup_1 in H2 as [j Hj].
  assert (i = j) as -> by (eapply double_same_id_same_index; eassumption).
  congruence.
Qed.

(** C8 (as amended). In a candidate set whose ids are pairwise different,
    at most one position is labelled CHEAPEST, at most one FASTEST and at
    most one SAFEST, and the candidates labelled OPTIMAL are tied at the
    top score of the set: their scores are equal and no candidate has a
    higher one. *)
Theorem primary_labels_unique (allRoutes : list Route) :
  NoDup (map route_id allRoutes) ->
  (forall i j r1 r2,
      allRoutes !! i = Some r1 -> allRoutes !! j = Some r2 ->
      dcategory allRoutes r1 = dcategory allRoutes r2 ->
      dcategory allRoutes r1 ∈ [CHEAPEST; FASTEST; SAFEST] ->
      i = j)
  /\ (forall r1 r2,
      r1 ∈ allRoutes -> r2 ∈ allRoutes ->
      dcategory allRoutes r1 = OPTIMAL -> dcategory allRoutes r2 = OPTIMAL ->
      (dscore r1 =? dscore r2) = true
      /\ forall r', r' ∈ allRoutes -> le (dscore r') (dscore r1)).
Proof.
  intros Hnd.
  assert (forall r1, r1 ∈ allRoutes -> dcategory allRoutes r1 = OPTIMAL ->
            forall r', r' ∈ allRoutes -> le (dscore r') (dscore r1)) as Htop.
  { intros r1 H1 O1 r' Hr'.
    destruct (double_category_OPTIMAL _ _ H1 O1) as (T1 & c & Hc & Hcid).
    destruct (decide (route_id r' = route_id r1)) as [Hid|Hne].
    - rewrite (double_same_id_same_route allRoutes r' r1); auto.
      apply num_le_refl. now apply (num_le_not_nan _ _ (T1 c Hc Hcid)).
    - now apply T1. }
  split.
  - intros i j r1 r2 Hi Hj Heq Hin.
    eapply double_same_id_same_index; try eassumption.
    eapply double_primary_same_id; eassumption.
  - intros r1 r2 H1 H2 O1 O2. split; [|now apply Htop].
    apply num_le_antisym; [apply (Htop r2) | apply (Htop r1)]; assumption.
Qed.

(** X21. Every non-empty candidate list in which no candidate's total
    fees are NaN has a CHEAPEST route: the first candidate with the lowest
    total fees receives that category. *)
Theorem cheapest_exists (allRoutes : list Route) :
  allRoutes <> [] ->
  numbers dfees allRoutes = true ->
  exists c,
    c ∈ allRoutes
    /\ first_lowest dfees allRoutes c
    /\ dcategory allRoutes c = CHEAPEST.
Proof.
  intros Hne Hn.
  destruct (double_head_byFees allRoutes Hn Hne) as (c & Hc & Hmin).
  exists c. split; [|split; [exact Hmin|]].
  - destruct Hmin as (l1 & l2 & -> & _).
    rewrite elem_of_app. right. apply list_elem_of_here.
  - unfold label. rewrite double_rec_type_cascade.
    now rewrite (proj2 (double_first_is_head _ _ c Hc) eq_refl).
Qed.

End Double_category.

(** ** Success probability in double precision *)

Section Double_probability.
Import Floats Double.
Local Open Scope float_scope.

(** a [NaN] complexity or reliability makes the probability [NaN] before
    it is clamped *)
Lemma probability_nan (r : Route) (m : RouteMetrics) :
  is_nan (complexityScore m) = true \/ is_nan (bridgeReliability m) = true ->
  is_nan (probability r m) = true.
Proof.
  intros H. unfold probability. cbv zeta.
  set (p2 := 95 - complexityScore m * 2 - (10 - bridgeReliability m) * 3).
  assert (is_nan p2 = true) as H2.
  { unfold p2. destruct H as [H|H].
    - apply num_sub_nan_l, num_sub_nan_r, num_mul_nan_l, H.
    - apply num_sub_nan_r, num_mul_nan_l, num_sub_nan_r, H. }
  repeat match goal with
         | |- context [if ?b then _ else _] => destruct b
         end;
    repeat first [exact H2 | apply num_sub_nan_l].
Qed.

(** C2 (as amended). The success probability lies between 50 and 98
    whenever the probability computed before clamping is a number; when
    that is NaN, as it is for a metrics record whose complexity score or
    bridge reliability is NaN, the result is NaN. *)
Theorem successProbability_bounds (r : Route) (m : RouteMetrics) :
  (is_nan (probability r m) = false ->
   le 50 (calculateSuccessProbability r m)
   /\ le (calculateSuccessProbability r m) 98)
  /\ (is_nan (probability r m) = true ->
      is_nan (calculateSuccessProbability r m) = true)
  /\ (is_nan (complexityScore m) = true \/ is_nan (bridgeReliability m) = true ->
      is_nan (calculateSuccessProbability r m) = true).
Proof.
  assert (is_nan (probability r m) = true ->
          is_nan (calculateSuccessProbability r m) = true) as Hnan.
  { intros H. unfold calculateSuccessProbability.
    now apply Math_max_nan, Math_min_nan. }
  split; [|split; [exact Hnan|]].
  - intros H. unfold calculateSuccessProbability.
    destruct (Math_min_le 98 (probability r m) eq_refl H) as [Hle Hn].
    apply Math_max_bounds; [reflexivity | exact Hn | exact Hle].
  - intros H. now apply Hnan, probability_nan.
Qed.

End Double_probability.

(** ** Price impact in double precision *)

Section Double_metrics.
Import Floats Double.
Local Open Scope float_scope.
Variable parseFloat : string -> float.

Local Abbreviation dmetrics_of := (Double.calculateRouteMetrics parseFloat).


(** operations that keep a result from falling below zero *)
Lemma SFabs_null (X : spec_float) : Double.signed_or_null false (SFabs X).
Proof. destruct X; simpl; auto. Qed.

Lemma SFmul_null (X : spec_float) (m : positive) (e : Z) :
  Double.signed_or_null false X ->
  Double.signed_or_null false (SF64mul X (S754_finite false m e)).
Proof.
  destruct X as [s|s| |s mx ex]; simpl; try (intros ->; reflexivity); [auto|].
  intros ->. apply binary_round_aux_null.
Qed.

Lemma SFdiv_null (X : spec_float) (m : positive) (e : Z) :
  Double.signed_or_null false X ->
  Double.signed_or_null false (SF64div X (S754_finite false m e)).
Proof.
  destruct X as [s|s| |s mx ex]; simpl; try (intros ->; reflexivity); [auto|].
  intros ->. unfold SF64div, SFdiv.
  destruct (SFdiv_core_binary prec emax (Z.pos mx) ex (Z.pos m) e) as [[mz ez] lz].
  apply binary_round_aux_null.
Qed.

Lemma SFltb_null_zero (X : spec_float) :
  Double.signed_or_null false X -> SFltb X (S754_zero false) = false.
Proof. destruct X as [s|s| |s m e]; simpl; try (intros ->); reflexivity. Qed.

(** X5. The price impact is never below zero: the comparison
    [priceImpact < 0] is false for every route, whatever its amounts are
    read as (the price impact itself may be NaN). *)
Theorem priceImpact_nonnegative (r : Route) :
  (priceImpact (dmetrics_of r) <? 0) = false.
Proof.
  unfold calculateRouteMetrics. cbn [priceImpact].
  destruct (gtb _ 0); [|reflexivity].
  rewrite ltb_spec, div_spec, mul_spec, abs_spec.
  change (Prim2SF 0) with (S754_zero false).
  change (Prim2SF 100) with (S754_finite false 7036874417766400 (-46)).
  apply SFltb_null_zero, SFdiv_null, SFmul_null, SFabs_null.
Qed.

(** X30. The fee subtotal and the gas subtotal of a step are never NaN:
    a sum of amounts that comes to NaN (an amount that is not a numeral)
    is replaced by 0, as a sum of 0 is. *)
Theorem step_subtotals_numbers (step : RouteStep) :
  is_nan (stepFees parseFloat step) = false
  /\ is_nan (gasFees parseFloat step) = false
  /\ (forall l, feeCosts (estimate step) = Some l ->
        is_nan (sum_feeCosts parseFloat l) = true ->
        stepFees parseFloat step = 0)
  /\ (forall l, gasCosts (estimate step) = Some l ->
        is_nan (sum_gasCosts parseFloat l) = true ->
        gasFees parseFloat step = 0).
Proof.
  unfold stepFees, gasFees. repeat split.
  - destruct (feeCosts (estimate step)); simpl; [|reflexivity].
    now apply or_num_number.
  - destruct (gasCosts (estimate step)); simpl; [|reflexivity].
    now apply or_num_number.
  - intros l -> H. simpl. now apply or_num_nan.
  - intros l -> H. simpl. now apply or_num_nan.
Qed.

Lemma get_score_inherited (key : string) :
  includes Object_prototype key = true -> get_score key = Inherited.
Proof.
  intros H. apply includes_cases in H.
  repeat (apply elem_of_cons in H as [->|H]; [reflexivity|]). inversion H.
Qed.

(** once the accumulator is a string it stays one, and an inherited
    member turns it into one *)
Lemma totalScore_text (l : list RouteStep) (acc : Accumulator) :
  acc = Text
  \/ (exists step, step ∈ l
                   /\ get_score (toLowerCase (tool step)) = Inherited) ->
  fold_left
    (fun sum step =>
       match sum, get_score (toLowerCase (tool step)) with
       | Num x, Own v => Num (x + or_num v 5)
       | Num x, Undefined => Num (x + 5)
       | _, _ => Text
       end)
    l acc = Text.
Proof.
  revert acc. induction l as [|s l IH]; intros acc H.
  - destruct H as [H|(step & Hin & _)]; [exact H | inversion Hin].
  - cbn [fold_left]. apply IH.
    destruct H as [->|(step & Hin & Hs)]; [now left|].
    apply elem_of_cons in Hin as [<-|Hin].
    + left. rewrite Hs. now destruct acc.
    + right. eauto.
Qed.

(** X31. A bridge step whose tool name, in lower case, is a property that
    every object inherits ("constructor", "__proto__") makes the bridge
    reliability NaN: the table lookup yields the inherited member, and the
    sum of the scores becomes a string. *)
Theorem bridgeReliability_inherited (r : Route) (step : RouteStep) :
  step ∈ steps r -> is_cross step = true ->
  includes Object_prototype (toLowerCase (tool step)) = true ->
  is_nan (calculateBridgeReliability r) = true
  /\ is_nan (bridgeReliability (dmetrics_of r)) = true.
Proof.
  intros Hin Hc Hk.
  assert (is_nan (calculateBridgeReliability r) = true) as H; [|now split].
  unfold calculateBridgeReliability.
  assert (step ∈ List.filter is_cross (steps r)) as Hf.
  { apply list_elem_of_In, filter_In. split; [now apply list_elem_of_In|exact Hc]. }
  destruct (List.filter is_cross (steps r)) as [|s0 l0] eqn:E; [inversion Hf|].
  cbn [length Nat.eqb]. rewrite <- E in *.
  rewrite totalScore_text; [reflexivity|].
  right. exists step. split; [exact Hf|]. now apply get_score_inherited.
Qed.

End Double_metrics.

(** ** The fee and gas totals in double precision *)

Section Double_totals.
Import Floats Double.
Local Open Scope float_scope.
Variable parseFloat : string -> float.

Local Abbreviation dmetrics_of := (Double.calculateRouteMetrics parseFloat).







End Double_totals.

(** ** Concrete instances in double precision *)

Section Double_instances.
Import Floats Double Double.Inputs.
Local Open Scope float_scope.
Local Set Warnings "-inexact-float".

(** the doubles the code computes: 31 seconds come back as
    31.000000000000004, and the price impact of 1000, 995 and fees 1.5 as
    0.0035000000000000005 *)
Example double_metrics_small_impact :
  totalFeesUSD (calculateRouteMetrics readNumber small_impact) = 1.5
  /\ estimatedTime (calculateRouteMetrics readNumber small_impact)
     = 31.000000000000004
  /\ priceImpact (calculateRouteMetrics readNumber small_impact)
     = 0.0035000000000000005
  /\ complexityScore (calculateRouteMetrics readNumber small_impact) = 3
  /\ bridgeReliability (calculateRouteMetrics readNumber small_impact) = 9.
Proof. repeat split; vm_compute; reflexivity. Qed.

(** a sum of gas costs that is NaN counts as 0, and infinite gas costs of
    opposite signs make both totals NaN *)
Example double_unreadable_amounts :
  totalGasUSD (calculateRouteMetrics readNumber unreadable_gas) = 0
  /\ is_nan (totalGasUSD (calculateRouteMetrics readNumber infinite_gas)) = true
  /\ is_nan (totalFeesUSD (calculateRouteMetrics readNumber infinite_gas)) = true
  /\ is_nan (priceImpact (calculateRouteMetrics readNumber unreadable_destination))
     = true.
Proof. repeat split; vm_compute; reflexivity. Qed.

(** a negative fee cost brings the fee total below the gas total: -0.5
    against 0.5 *)
Example double_totals_with_rebate :
  totalFeesUSD (calculateRouteMetrics readNumber with_rebate) = -0.5
  /\ totalGasUSD (calculateRouteMetrics readNumber with_rebate) = 0.5
  /\ lt (totalFeesUSD (calculateRouteMetrics readNumber with_rebate))
        (totalGasUSD (calculateRouteMetrics readNumber with_rebate)).
Proof. repeat split; vm_compute; reflexivity. Qed.

(** fees of 0.1 + 0.2 exceed fees of 0.3 *)
Example double_categories_of_split_fees :
  lt (fees_of readNumber whole_fee) (fees_of readNumber split_fees)
  /\ map (label readNumber [split_fees; whole_fee]) [split_fees; whole_fee]
     = [SAFEST; CHEAPEST].
Proof. split; vm_compute; reflexivity. Qed.

(** the candidates of the tie: both embeddings label them alike *)
Example double_categories_of_three :
  map (label readNumber [via_hop; via_across]) [via_hop; via_across]
  = [CHEAPEST; FASTEST]
  /\ map (label readNumber [via_unknown; via_hop; via_across])
       [via_unknown; via_hop; via_across]
     = [ALTERNATIVE; CHEAPEST; FASTEST].
Proof. split; vm_compute; reflexivity. Qed.

Lemma recommendation_priority_rule_witness :
  via_across ∈ [via_unknown; via_hop; via_across]
  /\ numbers (fees_of readNumber) [via_unknown; via_hop; via_across] = true
  /\ numbers (time_of readNumber) [via_unknown; via_hop; via_across] = true
  /\ numbers (reliability_of readNumber) [via_unknown; via_hop; via_across] = true
  /\ exists c t s,
    first_lowest (fees_of readNumber) [via_unknown; via_hop; via_across] c
    /\ first_lowest (time_of readNumber) [via_unknown; via_hop; via_across] t
    /\ first_highest (reliability_of readNumber)
         [via_unknown; via_hop; via_across] s
    /\ (route_id c = route_id via_across ->
        label readNumber [via_unknown; via_hop; via_across] via_across = CHEAPEST)
    /\ (route_id c <> route_id via_across ->
        route_id t = route_id via_across ->
        label readNumber [via_unknown; via_hop; via_across] via_across = FASTEST)
    /\ (route_id c <> route_id via_across ->
        route_id t <> route_id via_across ->
        route_id s = route_id via_across ->
        label readNumber [via_unknown; via_hop; via_across] via_across = SAFEST)
    /\ (route_id c <> route_id via_across ->
        route_id t <> route_id via_across ->
        route_id s <> route_id via_across ->
        tops readNumber [via_unknown; via_hop; via_across] (route_id via_across)
          (score_of readNumber via_across) ->
        label readNumber [via_unknown; via_hop; via_across] via_across = OPTIMAL)
    /\ (route_id c <> route_id via_across ->
        route_id t <> route_id via_across ->
        route_id s <> route_id via_across ->
        ~ tops readNumber [via_unknown; via_hop; via_across]
            (route_id via_across) (score_of readNumber via_across) ->
        label readNumber [via_unknown; via_hop; via_across] via_across
        = ALTERNATIVE).
Proof.
  assert (via_across ∈ [via_unknown; via_hop; via_across]) as Hin
    by (do 2 apply list_elem_of_further; apply list_elem_of_here).
  assert (numbers (fees_of readNumber) [via_unknown; via_hop; via_across] = true)
    as Hf by (vm_compute; reflexivity).
  assert (numbers (time_of readNumber) [via_unknown; via_hop; via_across] = true)
    as Ht by (vm_compute; reflexivity).
  assert (numbers (reliability_of readNumber)
            [via_unknown; via_hop; via_across] = true)
    as Hs by (vm_compute; reflexivity).
  split; [exact Hin|]. split; [exact Hf|]. split; [exact Ht|].
  split; [exact Hs|].
  exact (recommendation_priority_rule readNumber
           [via_unknown; via_hop; via_across] via_across Hin Hf Ht Hs).
Defined.

(** C2, the bounds fail for the metrics of a route that bridges
    through a tool named "constructor": the table lookup yields the
    inherited member, the reliability is NaN, and so is the success
    probability, which is neither at least 50 nor at most 98. *)
Lemma successProbability_counterexample :
  is_nan (bridgeReliability (calculateRouteMetrics readNumber via_constructor))
  = true
  /\ is_nan (calculateSuccessProbability via_constructor
               (calculateRouteMetrics readNumber via_constructor)) = true
  /\ ~ (le 50 (calculateSuccessProbability via_constructor
                 (calculateRouteMetrics readNumber via_constructor))
        /\ le (calculateSuccessProbability via_constructor
                 (calculateRouteMetrics readNumber via_constructor)) 98).
Proof.
  split; [vm_compute; reflexivity|]. split; [vm_compute; reflexivity|].
  intros [H _]. vm_compute in H. discriminate H.
Qed.

Lemma successProbability_bounds_witness :
  (is_nan (probability via_hop all_zero) = false
   /\ calculateSuccessProbability via_hop all_zero = 50
   /\ le 50 (calculateSuccessProbability via_hop all_zero)
   /\ le (calculateSuccessProbability via_hop all_zero) 98)
  /\ (is_nan (bridgeReliability (calculateRouteMetrics readNumber via_constructor))
      = true
      /\ is_nan (calculateSuccessProbability via_constructor
                   (calculateRouteMetrics readNumber via_constructor)) = true).
Proof.
  assert (is_nan (probability via_hop all_zero) = false) as H1
    by (vm_compute; reflexivity).
  assert (is_nan (bridgeReliability
                    (calculateRouteMetrics readNumber via_constructor)) = true)
    as H2 by (vm_compute; reflexivity).
  split; [split; [exact H1|split; [vm_compute; reflexivity|]]|split; [exact H2|]].
  - exact (proj1 (successProbability_bounds via_hop all_zero) H1).
  - exact (proj2 (proj2 (successProbability_bounds via_constructor
                           (calculateRouteMetrics readNumber via_constructor)))
             (or_intror H2)).
Defined.

(** the risk level that goes with a NaN probability and reliability: every
    comparison is false *)
Example double_risk_of_constructor :
  calculateRiskLevel (calculateRouteMetrics readNumber via_constructor)
    (calculateSuccessProbability via_constructor
       (calculateRouteMetrics readNumber via_constructor))
  = LOW.
Proof. vm_compute. reflexivity. Qed.


(** C8, two candidates that carry the same id are both labelled
    CHEAPEST: the label goes to every route with the id of the first
    element of the fee-sorted copy. *)
Lemma duplicate_ids_counterexample :
  twin_hop <> twin_relay
  /\ route_id twin_hop = route_id twin_relay
  /\ [twin_hop; twin_relay] !! 0%nat = Some twin_hop
  /\ [twin_hop; twin_relay] !! 1%nat = Some twin_relay
  /\ label readNumber [twin_hop; twin_relay] twin_hop = CHEAPEST
  /\ label readNumber [twin_hop; twin_relay] twin_relay = CHEAPEST.
Proof.
  split; [intros E; discriminate E|]. split; [reflexivity|].
  split; [reflexivity|]. split; [reflexivity|].
  split; vm_compute; reflexivity.
Qed.

Lemma primary_labels_unique_witness :
  NoDup (map route_id [via_unknown; via_hop; via_across])
  /\ label readNumber [via_unknown; via_hop; via_across] via_hop = CHEAPEST
  /\ forall j r2,
       [via_unknown; via_hop; via_across] !! j = Some r2 ->
       label readNumber [via_unknown; via_hop; via_across] r2 = CHEAPEST ->
       j = 1%nat.
Proof.
  assert (NoDup (map route_id [via_unknown; via_hop; via_across])) as Hnd.
  { apply (bool_decide_unpack _). vm_compute. exact I. }
  assert (label readNumber [via_unknown; via_hop; via_across] via_hop
          = CHEAPEST) as Hc by (vm_compute; reflexivity).
  split; [exact Hnd|]. split; [exact Hc|].
  intros j r2 Hj Hl. symmetry.
  apply (proj1 (primary_labels_unique readNumber
                  [via_unknown; via_hop; via_across] Hnd)
           1%nat j via_hop r2 eq_refl Hj).
  - now rewrite Hc, Hl.
  - rewrite Hc. apply list_elem_of_here.
Defined.

(** a reliability that is NaN: the comparator of the reliability sort
    yields NaN against it, and the route is labelled SAFEST although
    [via_hop] has reliability 9 *)
Example double_categories_nan_reliability :
  numbers (reliability_of readNumber) [via_constructor; via_across; via_hop]
  = false
  /\ reliability_of readNumber via_hop = 9
  /\ map (label readNumber [via_constructor; via_across; via_hop])
       [via_constructor; via_across; via_hop]
     = [SAFEST; CHEAPEST; ALTERNATIVE].
Proof. repeat split; vm_compute; reflexivity. Qed.

Lemma bridgeReliability_inherited_witness :
  step_of cross "Constructor" 120 [] [] ∈ steps
    (route_of "route-19" "1000" "990" [step_of cross "Constructor" 120 [] []])
  /\ is_cross (step_of cross "Constructor" 120 [] []) = true
  /\ includes Object_prototype
       (toLowerCase (tool (step_of cross "Constructor" 120 [] []))) = true
  /\ is_nan (calculateBridgeReliability
               (route_of "route-19" "1000" "990"
                  [step_of cross "Constructor" 120 [] []])) = true
  /\ is_nan (bridgeReliability
               (calculateRouteMetrics readNumber
                  (route_of "route-19" "1000" "990"
                     [step_of cross "Constructor" 120 [] []]))) = true.
Proof.
  assert (step_of cross "Constructor" 120 [] [] ∈ steps
            (route_of "route-19" "1000" "990"
               [step_of cross "Constructor" 120 [] []])) as Hin
    by apply list_elem_of_here.
  split; [exact Hin|]. split; [reflexivity|]. split; [reflexivity|].
  exact (bridgeReliability_inherited readNumber _ _ Hin eq_refl eq_refl).
Defined.

Lemma cheapest_exists_witness :
  [via_unknown; via_hop; via_across] <> []
  /\ numbers (fees_of readNumber) [via_unknown; via_hop; via_across] = true
  /\ exists c,
       c ∈ [via_unknown; via_hop; via_across]
       /\ first_lowest (fees_of readNumber) [via_unknown; via_hop; via_across] c
       /\ label readNumber [via_unknown; via_hop; via_across] c = CHEAPEST.
Proof.
  assert ([via_unknown; via_hop; via_across] <> []) as H by discriminate.
  assert (numbers (fees_of readNumber) [via_unknown; via_hop; via_across] = true)
    as Hn by (vm_compute; reflexivity).
  split; [exact H|]. split; [exact Hn|].
  exact (cheapest_exists readNumber _ H Hn).
Defined.


End Double_instances.

(** ** Sums and lengths *)

Lemma fold_left_plus {A : Type} (f : A -> Q) (l : list A) (a : Q) :
  fold_left (fun acc x => acc + f x) l a == a + total f l.
Proof.
  revert a. induction l as [|x l IH]; intros a; simpl; [ring|].
  rewrite IH. ring.
Qed.

Lemma len_cons {A : Type} (x : A) (l : list A) : len (x :: l) == len l + 1.
Proof.
  unfold len. cbn [length].
  rewrite Nat2Z.inj_succ, <- Z.add_1_r, inject_Z_plus. reflexivity.
Qed.

Lemma total_bounds {A : Type} (f : A -> Q) (lo hi : Q) (l : list A) :
  (forall x, x ∈ l -> lo <= f x /\ f x <= hi) ->
  lo * len l <= total f l /\ total f l <= hi * len l.
Proof.
  induction l as [|x l IH]; intros H.
  - change (len []) with 0. simpl. lra.
  - destruct IH as [IH1 IH2].
    { intros y Hy. apply H. now apply list_elem_of_further. }
    destruct (H x (list_elem_of_here _ _)) as [H1 H2].
    rewrite len_cons. cbn [total foldr]. fold (total f l). lra.
Qed.

Lemma len_nonneg {A : Type} (l : list A) : 0 <= len l.
Proof.
  unfold len. change 0 with (inject_Z 0). rewrite <- Zle_Qle. lia.
Qed.

Lemma len_filter_le {A : Type} (P : A -> bool) (l : list A) :
  len (List.filter P l) <= len l.
Proof.
  unfold len. rewrite <- Zle_Qle. apply inj_le, List.filter_length_le.
Qed.

(** ** Ranges of the derived metrics *)

Lemma reliabilityScores_range (k : string) (v : Q) :
  reliabilityScores !! k = Some v -> 55 # 10 <= v /\ v <= 95 # 10.
Proof.
  intros H. apply elem_of_list_to_map_2 in H.
  repeat (apply elem_of_cons in H as [H|H];
          [injection H as _ ->; split; unfold Qle; simpl; lia|]).
  inversion H.
Qed.

Lemma reliability_term_range (k : string) :
  5 <= or_onum (reliabilityScores !! k) 5
  /\ or_onum (reliabilityScores !! k) 5 <= 95 # 10.
Proof.
  destruct (reliabilityScores !! k) as [v|] eqn:E; simpl; [|lra].
  apply reliabilityScores_range in E. unfold or_num.
  destruct (truthy_num v); lra.
Qed.

Lemma filter_is_cross_nil (l : list RouteStep) :
  (length (List.filter is_cross l) =? 0)%nat = negb (existsb is_cross l).
Proof.
  induction l as [|s l IH]; [reflexivity|]. simpl.
  destruct (is_cross s); simpl; [reflexivity | exact IH].
Qed.

Lemma calculateBridgeReliability_no_cross (r : Route) :
  existsb is_cross (steps r) = false -> calculateBridgeReliability r = 9.
Proof.
  intros H. unfold calculateBridgeReliability.
  now rewrite filter_is_cross_nil, H.
Qed.

Lemma calculateBridgeReliability_range (r : Route) :
  5 <= calculateBridgeReliability r /\ calculateBridgeReliability r <= 95 # 10.
Proof.
  unfold calculateBridgeReliability.
  destruct (length (List.filter is_cross (steps r)) =? 0)%nat eqn:E; [lra|].
  apply Nat.eqb_neq in E.
  set (l := List.filter is_cross (steps r)) in *.
  assert (0 < len l) as Hlen.
  { unfold len. change 0 with (inject_Z 0). rewrite <- Zlt_Qlt. lia. }
  rewrite (fold_left_plus
             (fun step => or_onum (reliabilityScores !! toLowerCase (tool step)) 5)).
  destruct (total_bounds
              (fun step => or_onum (reliabilityScores !! toLowerCase (tool step)) 5)
              5 (95 # 10) l) as [H1 H2].
  { intros step _. apply reliability_term_range. }
  split.
  - apply Qle_shift_div_l; [exact Hlen|]. lra.
  - apply Qle_shift_div_r; [exact Hlen|]. lra.
Qed.

Section Ranges.
Variable parseFloat : string -> Q.

Local Abbreviation metrics_of := (calculateRouteMetrics parseFloat).

Lemma complexityScore_lower (r : Route) :
  len (steps r) + (if existsb is_cross (steps r) then 2 else 0)
  <= complexityScore (metrics_of r).
Proof.
  unfold calculateRouteMetrics. cbn [complexityScore].
  pose proof (len_nonneg (List.filter is_swap (steps r))). lra.
Qed.

(** X3. The complexity score of a route lies between its number of steps
    and one and a half times that number plus 2; it is at least 3 when a
    step crosses chains, and 0 for a route without steps. *)
Theorem complexityScore_bounds (r : Route) :
  len (steps r) <= complexityScore (metrics_of r)
  /\ complexityScore (metrics_of r) <= len (steps r) * (3 # 2) + 2
  /\ (existsb is_cross (steps r) = true -> 3 <= complexityScore (metrics_of r))
  /\ (steps r = [] -> complexityScore (metrics_of r) == 0).
Proof.
  pose proof (complexityScore_lower r) as Hlow.
  pose proof (len_filter_le is_swap (steps r)) as Hswap.
  pose proof (len_nonneg (List.filter is_swap (steps r))) as Hnn.
  repeat split.
  - destruct (existsb is_cross (steps r)); lra.
  - unfold calculateRouteMetrics. cbn [complexityScore].
    destruct (existsb is_cross (steps r)); lra.
  - intros Hc. rewrite Hc in Hlow.
    destruct (steps r) as [|s l]; [discriminate Hc|].
    rewrite len_cons in Hlow. pose proof (len_nonneg l). lra.
  - intros H. unfold calculateRouteMetrics. cbn [complexityScore].
    rewrite H. reflexivity.
Qed.

(** X4. For a route whose bridge steps use no name that the reliability
    table inherits, the bridge reliability lies between 5 and 9.5: it is
    the average, over the cross-chain steps, of table scores between 5.5
    and 9.5 with 5 for tools outside the table, and 9 without a cross-chain
    step. *)
Theorem bridgeReliability_range (r : Route) :
  no_inherited_tool r = true ->
  5 <= bridgeReliability (metrics_of r)
  /\ bridgeReliability (metrics_of r) <= 95 # 10
  /\ (existsb is_cross (steps r) = false ->
      bridgeReliability (metrics_of r) == 9).
Proof.
  intros _. unfold calculateRouteMetrics. cbn [bridgeReliability].
  destruct (calculateBridgeReliability_range r) as [H1 H2].
  repeat split; [exact H1 | exact H2 |].
  intros H. now rewrite calculateBridgeReliability_no_cross.
Qed.

Lemma extractSlippageTolerance_none (r : Route) :
  Forall (fun step => has_slippage step = false) (steps r) ->
  extractSlippageTolerance r = None.
Proof.
  unfold extractSlippageTolerance. fold has_slippage.
  induction 1 as [|s l Hs _ IH]; [reflexivity|].
  simpl. now rewrite Hs.
Qed.

Lemma extractSlippageTolerance_first
    (r : Route) (l1 l2 : list RouteStep) (s : RouteStep) (v : Q) :
  steps r = l1 ++ s :: l2 ->
  Forall (fun step => has_slippage step = false) l1 ->
  slippage (action s) = Some v -> ~ v == 0 ->
  extractSlippageTolerance r = Some (v * 100).
Proof.
  intros Hsteps Hl1 Hs Hv. unfold extractSlippageTolerance. fold has_slippage.
  rewrite Hsteps. clear Hsteps.
  assert (truthy_num v = true) as Ht.
  { unfold truthy_num. apply negb_true_iff, not_true_iff_false.
    intros E. apply Hv. now apply Qeq_bool_eq. }
  induction Hl1 as [|s' l Hs' _ IH]; cbn [app List.filter].
  - unfold has_slippage at 1. rewrite Hs. cbn [truthy_onum]. rewrite Ht, Hs.
    cbn [or_onum]. unfold or_num. now rewrite Ht.
  - now rewrite Hs'.
Qed.

(** X6. The slippage tolerance is 2 when no step carries a non-zero
    slippage, otherwise 100 times the slippage of the first step that
    carries one; it is never 0. *)
Theorem slippageTolerance_first (r : Route) :
  (Forall (fun step => has_slippage step = false) (steps r) ->
   slippageTolerance (metrics_of r) = 2)
  /\ (forall l1 l2 s v,
         steps r = l1 ++ s :: l2 ->
         Forall (fun step => has_slippage step = false) l1 ->
         slippage (action s) = Some v -> ~ v == 0 ->
         slippageTolerance (metrics_of r) = v * 100)
  /\ ~ slippageTolerance (metrics_of r) == 0.
Proof.
  unfold calculateRouteMetrics. cbn [slippageTolerance]. repeat split.
  - intros H. now rewrite extractSlippageTolerance_none.
  - intros l1 l2 s v Hsteps Hl1 Hs Hv.
    rewrite (extractSlippageTolerance_first r l1 l2 s v Hsteps Hl1 Hs Hv).
    simpl. unfold or_num, truthy_num.
    destruct (Qeq_bool (v * 100) 0) eqn:E; [|reflexivity].
    apply Qeq_bool_eq in E. exfalso. apply Hv. lra.
  - destruct (extractSlippageTolerance r) as [q|]; simpl; [|lra].
    unfold or_num, truthy_num. destruct (Qeq_bool q 0) eqn:E; simpl; [lra|].
    intros H. apply Qeq_eq_bool in H. congruence.
Qed.

End Ranges.

(** ** Tables, success probability and risk *)

Lemma liquidity_tool_unknown (s : string) :
  includes highLiquidityTools s = true \/ includes mediumLiquidityTools s = true ->
  includes wellKnownBridges s = false.
Proof.
  intros [H|H]; apply includes_cases in H;
    repeat (apply elem_of_cons in H as [->|H]; [reflexivity|]); inversion H.
Qed.

Lemma wellKnown_score (s : string) :
  includes wellKnownBridges s = true ->
  exists v, reliabilityScores !! s = Some v /\ 7 <= v.
Proof.
  intros H. apply includes_cases in H.
  repeat (apply elem_of_cons in H as [->|H];
          [eexists; split; [vm_compute; reflexivity | unfold Qle; simpl; lia]|]).
  inversion H.
Qed.

(** X7. The two tool tables agree with the list of well-known bridges:
    every well-known bridge has a score of at least 7 in the reliability
    table, whatever the letter case of its name, and no tool of the high
    or medium liquidity lists is a well-known bridge. *)
Theorem tool_tables_consistent :
  (forall t, isWellKnownBridge t = true ->
             exists v, reliabilityScores !! toLowerCase t = Some v /\ 7 <= v)
  /\ (forall t,
         includes highLiquidityTools (toLowerCase t) = true
         \/ includes mediumLiquidityTools (toLowerCase t) = true ->
         isWellKnownBridge t = false).
Proof.
  split.
  - intros t H. now apply wellKnown_score.
  - intros t H. now apply liquidity_tool_unknown.
Qed.

Lemma depth_unknown (r : Route) :
  estimateLiquidityDepth r <> DEPTH_LOW ->
  existsb (fun step => negb (isWellKnownBridge (tool step))) (steps r) = true.
Proof.
  unfold estimateLiquidityDepth.
  assert (forall step,
             includes highLiquidityTools (toLowerCase (tool step)) = true
             \/ includes mediumLiquidityTools (toLowerCase (tool step)) = true ->
             negb (isWellKnownBridge (tool step)) = true) as Hstep.
  { intros step Hs. unfold isWellKnownBridge.
    now rewrite liquidity_tool_unknown. }
  destruct (existsb
              (fun step => includes highLiquidityTools (toLowerCase (tool step)))
              (steps r)) eqn:E1.
  - intros _. apply existsb_exists in E1 as (step & Hin & Hs).
    apply existsb_exists. exists step. auto.
  - destruct (existsb
                (fun step => includes mediumLiquidityTools (toLowerCase (tool step)))
                (steps r)) eqn:E2.
    + intros _. apply existsb_exists in E2 as (step & Hin & Hs).
      apply existsb_exists. exists step. auto.
    + intros H. exfalso. now apply H.
Qed.

Lemma depth_high_steps (r : Route) :
  estimateLiquidityDepth r <> DEPTH_LOW -> 1 <= len (steps r).
Proof.
  intros H. apply depth_unknown in H.
  destruct (steps r) as [|s l]; [discriminate H|].
  rewrite len_cons. pose proof (len_nonneg l). lra.
Qed.

Section Probability.
Variable parseFloat : string -> Q.

Local Abbreviation metrics_of := (calculateRouteMetrics parseFloat).

Lemma liquidityScore_depth (r : Route) :
  liquidityScore (metrics_of r)
  = match estimateLiquidityDepth r with
    | DEPTH_HIGH => 9
    | DEPTH_MEDIUM => 6
    | DEPTH_LOW => 3
    end.
Proof. reflexivity. Qed.

Lemma successProbability_derived_le (r : Route) :
  calculateSuccessProbability r (metrics_of r) <= 80.
Proof.
  pose proof (complexityScore_lower parseFloat r) as Hc.
  pose proof (len_nonneg (steps r)) as Hlen.
  pose proof (calculateBridgeReliability_range r) as [_ Hrel].
  pose proof (calculateBridgeReliability_no_cross r) as Hnc.
  pose proof (depth_unknown r) as Hunk.
  pose proof (depth_high_steps r) as Hone.
  unfold calculateSuccessProbability.
  rewrite liquidityScore_depth.
  change (bridgeReliability (metrics_of r)) with (calculateBridgeReliability r).
  apply Q.max_lub; [lra|].
  eapply Qle_trans; [apply Q.le_min_r|].
  destruct (gtb (priceImpact (metrics_of r)) (2 # 100));
    [|destruct (gtb (priceImpact (metrics_of r)) (1 # 100))];
  (destruct (gtb (gasEfficiency (metrics_of r)) 10);
    [|destruct (gtb (gasEfficiency (metrics_of r)) 5)]);
  (destruct (estimateLiquidityDepth r);
    [ rewrite Hunk by discriminate; specialize (Hone ltac:(discriminate));
      change (ltb 9 4) with false; change (ltb 9 7) with false;
      destruct (existsb is_cross (steps r));
        [|rewrite (Hnc eq_refl)]; lra
    | rewrite Hunk by discriminate;
      change (ltb 6 4) with false; change (ltb 6 7) with true;
      destruct (existsb is_cross (steps r)); lra
    | change (ltb 3 4) with true;
      destruct (existsb (fun step => negb (isWellKnownBridge (tool step)))
                  (steps r));
      destruct (existsb is_cross (steps r)); lra ]).
Qed.

(** X8. For the metrics derived from a route whose bridge steps use no
    name that the reliability table inherits, the success probability is
    at most 80 (every route pays at least the liquidity penalty or the
    unknown-bridge penalty), so the risk level computed from them is never
    LOW. *)
Theorem derived_risk_never_low (r : Route) :
  no_inherited_tool r = true ->
  calculateSuccessProbability r (metrics_of r) <= 80
  /\ calculateRiskLevel (metrics_of r)
       (calculateSuccessProbability r (metrics_of r)) <> LOW.
Proof.
  intros _. pose proof (successProbability_derived_le r) as H.
  split; [exact H|]. unfold calculateRiskLevel.
  assert (ltb (calculateSuccessProbability r (metrics_of r)) 85 = true) as ->
    by (apply ltb_lt; lra).
  destruct (_ || _ || _); discriminate.
Qed.

End Probability.

(** X9. The risk level is monotone: a success probability that is no
    higher, a complexity that is no lower and a reliability that is no
    higher never give a lower risk level. *)
Theorem calculateRiskLevel_monotone (m1 m2 : RouteMetrics) (p1 p2 : Q) :
  p2 <= p1 ->
  complexityScore m1 <= complexityScore m2 ->
  bridgeReliability m2 <= bridgeReliability m1 ->
  (risk_rank (calculateRiskLevel m1 p1) <= risk_rank (calculateRiskLevel m2 p2))%nat.
Proof.
  intros Hp Hc Hr. unfold calculateRiskLevel.
  repeat match goal with
         | |- context [ltb ?a ?b] =>
             let E := fresh "E" in
             destruct (ltb a b) eqn:E;
             [apply ltb_lt in E | apply ltb_ge in E]
         | |- context [gtb ?a ?b] =>
             let E := fresh "E" in
             destruct (gtb a b) eqn:E;
             [apply gtb_gt in E | apply gtb_le in E]
         end; simpl; try lia; exfalso; lra.
Qed.

(** X10. The optimal score is monotone: of two metrics records with
    reliabilities that are not negative, the one that is no worse in fees,
    time, reliability and complexity never scores lower, and neither score
    is negative. *)
Theorem calculateOptimalScore_monotone (m1 m2 : RouteMetrics) :
  totalFeesUSD m1 <= totalFeesUSD m2 ->
  estimatedTime m1 <= estimatedTime m2 ->
  0 <= bridgeReliability m2 ->
  bridgeReliability m2 <= bridgeReliability m1 ->
  complexityScore m1 <= complexityScore m2 ->
  0 <= calculateOptimalScore m2
  /\ calculateOptimalScore m2 <= calculateOptimalScore m1.
Proof.
  intros Hf Ht Hr0 Hr Hc. unfold calculateOptimalScore.
  assert (estimatedTime m1 / 60 <= estimatedTime m2 / 60) as Ht'
    by (apply Qmult_le_compat_r; [exact Ht | vm_compute; discriminate]).
  set (t1 := estimatedTime m1 / 60) in *.
  set (t2 := estimatedTime m2 / 60) in *.
  assert (Qmax 0 (100 - totalFeesUSD m2) <= Qmax 0 (100 - totalFeesUSD m1))
    as H1 by (apply Q.max_le_compat_l; lra).
  assert (Qmax 0 (100 - t2 * 2) <= Qmax 0 (100 - t1 * 2)) as H2
    by (apply Q.max_le_compat_l; lra).
  assert (Qmax 0 (100 - complexityScore m2 * 10)
          <= Qmax 0 (100 - complexityScore m1 * 10)) as H3
    by (apply Q.max_le_compat_l; lra).
  pose proof (Q.le_max_l 0 (100 - totalFeesUSD m2)).
  pose proof (Q.le_max_l 0 (100 - t2 * 2)).
  pose proof (Q.le_max_l 0 (100 - complexityScore m2 * 10)).
  split; lra.
Qed.

(** ** Request variants and parameter extraction *)

(** X11. Every variant asks for the route of the base request: chains,
    token addresses, amount and addresses are those of the base.  The
    first variant is the base itself, and the options that no variant sets
    (integrator, fee, maximal price impact, referrer, destination calls)
    are carried over from the base to every variant. *)
Theorem generateAlternativeConfigs_keeps_request (baseParams : RoutesRequest) :
  head (generateAlternativeConfigs baseParams) = Some baseParams
  /\ forall config,
       config ∈ generateAlternativeConfigs baseParams ->
       endpoints config = endpoints baseParams
       /\ untouched_options (options config)
          = untouched_options (options baseParams).
Proof.
  split; [reflexivity|]. intros config H.
  unfold generateAlternativeConfigs in H. cbn [app] in H.
  repeat (apply elem_of_cons in H as [->|H];
          [split; [reflexivity|];
           unfold untouched_options; destruct (options baseParams); reflexivity|]).
  inversion H.
Qed.

(** X12. Every variant after the first asks for a slippage between 1% and
    5%, and when the base carries no options (as the parameters extracted
    from a transaction do) the seven variants are pairwise different. *)
Theorem generateAlternativeConfigs_variants (baseParams : RoutesRequest) :
  (forall i config,
      generateAlternativeConfigs baseParams !! S i = Some config ->
      exists v, requested_slippage config = Some v
                /\ 1 # 100 <= v /\ v <= 5 # 100)
  /\ (options baseParams = None -> NoDup (generateAlternativeConfigs baseParams)).
Proof.
  split.
  - intros i config H. unfold generateAlternativeConfigs in H. cbn [app] in H.
    do 6 (destruct i as [|i];
          [injection H as <-; eexists; split; [reflexivity|];
           split; unfold Qle; simpl; lia|]).
    destruct i; discriminate H.
  - intros Hnone. unfold generateAlternativeConfigs. cbn [app].
    unfold spread_options. rewrite Hnone.
    assert (forall o, baseParams <> with_options baseParams o) as Hbase.
    { intros o E. apply (f_equal options) in E. rewrite Hnone in E.
      discriminate E. }
    repeat (apply NoDup_cons; split;
            [rewrite ?not_elem_of_cons; repeat split;
             try apply Hbase; try apply not_elem_of_nil;
             intros E; discriminate E|]).
    apply NoDup_nil_2.
Qed.

Lemma extractRouteParameters_shape (tx : StatusResponse) (p : RoutesRequest) :
  extractRouteParameters tx = Some p ->
  exists tok dest,
    tx_token (sending tx) = Some tok
    /\ p = {| req_fromChainId := tx_chainId (sending tx);
              req_toChainId := fst <$> dest;
              fromTokenAddress := Some (address tok);
              toTokenAddress := snd <$> dest;
              req_fromAmount := Some (or_ostr (tx_amount (sending tx)) "0");
              req_fromAddress := st_fromAddress tx;
              req_toAddress := st_toAddress tx;
              fromAmountForGas := None;
              options := None |}.
Proof.
  unfold extractRouteParameters.
  destruct (tx_token (sending tx)) as [tok|]; [|done].
  destruct (negb _); [done|]. intros H. exists tok.
  destruct (receiving_leg tx) as [[c a]|].
  { injection H as <-. now exists (Some (c, a)). }
  destruct (includedSteps (sending tx)) as [stps|];
    [|injection H as <-; now exists None].
  destruct (last stps) as [lastStep|]; [|injection H as <-; now exists None].
  destruct (inc_toToken lastStep) as [t|];
    injection H as <-; [now exists (Some (token_chainId t, address t))
                       | now exists None].
Qed.

(** X13. The parameters are withheld exactly when the sending leg lacks a
    token or a non-zero chain id.  Parameters that are returned name the
    source chain and token of the sending leg, carry the amount of the
    sending leg, or "0" when that amount is missing or empty (so the
    amount is never empty), carry no options, and name a destination chain
    exactly when they name a destination token. *)
Theorem extractRouteParameters_source_side (tx : StatusResponse) :
  (extractRouteParameters tx = None
   <-> tx_token (sending tx) = None
       \/ truthy_oint (tx_chainId (sending tx)) = false)
  /\ forall p,
       extractRouteParameters tx = Some p ->
       req_fromChainId p = tx_chainId (sending tx)
       /\ truthy_oint (req_fromChainId p) = true
       /\ fromTokenAddress p = address <$> tx_token (sending tx)
       /\ (exists a, req_fromAmount p = Some a /\ a <> "")
       /\ (forall a, tx_amount (sending tx) = Some a -> a <> "" ->
           req_fromAmount p = Some a)
       /\ (tx_amount (sending tx) = None \/ tx_amount (sending tx) = Some "" ->
           req_fromAmount p = Some "0")
       /\ options p = None
       /\ (is_Some (req_toChainId p) <-> is_Some (toTokenAddress p)).
Proof.
  split.
  - unfold extractRouteParameters.
    destruct (tx_token (sending tx)) as [tok|]; [|tauto].
    destruct (truthy_oint (tx_chainId (sending tx))); simpl.
    + split; [|intros [?|?]; discriminate].
      repeat match goal with
             | |- context [match ?x with _ => _ end] => destruct x
             end; discriminate.
    + tauto.
  - intros p H.
    pose proof (extractRouteParameters_source tx p H) as Htruthy.
    destruct (extractRouteParameters_shape tx p H) as (tok & dest & Htok & ->).
    cbn. rewrite Htok. repeat split; try assumption.
    + eexists. split; [reflexivity|].
      unfold or_ostr, truthy_str.
      destruct (tx_amount (sending tx)) as [a|]; [|discriminate].
      destruct (String.eqb_spec a ""); simpl; [discriminate|assumption].
    + intros a Ha Hne. rewrite Ha. unfold or_ostr, truthy_str.
      apply String.eqb_neq in Hne. now rewrite Hne.
    + intros [Ha|Ha]; rewrite Ha; reflexivity.
    + destruct dest; simpl; intros [x Hx]; eauto; discriminate.
    + destruct dest; simpl; intros [x Hx]; eauto; discriminate.
Qed.

(** X14. The destination comes from the receiving leg when that leg has a
    token and a non-zero chain id, whatever the included steps say;
    failing that, from the destination token of the last included step of
    the sending leg; and there is none when that step has no destination
    token or no step is included. *)
Theorem extractRouteParameters_destination
    (tx : StatusResponse) (p : RoutesRequest) :
  extractRouteParameters tx = Some p ->
  (forall leg tok chain,
      receiving tx = Some leg -> tx_token leg = Some tok ->
      tx_chainId leg = Some chain -> chain <> 0%Z ->
      req_toChainId p = Some chain /\ toTokenAddress p = Some (address tok))
  /\ (receiving_leg tx = None ->
      forall stps lastStep,
        includedSteps (sending tx) = Some (stps ++ [lastStep]) ->
        req_toChainId p = token_chainId <$> inc_toToken lastStep
        /\ toTokenAddress p = address <$> inc_toToken lastStep)
  /\ (receiving_leg tx = None ->
      includedSteps (sending tx) = None \/ includedSteps (sending tx) = Some [] ->
      req_toChainId p = None /\ toTokenAddress p = None).
Proof.
  unfold extractRouteParameters.
  destruct (tx_token (sending tx)) as [stok|]; [|done].
  destruct (negb _); [done|]. intros H. split; [|split].
  - intros leg tok chain Hleg Htok Hchain Hnz.
    unfold receiving_leg in H. rewrite Hleg, Htok, Hchain in H.
    simpl in H. apply Z.eqb_neq in Hnz. rewrite Hnz in H. simpl in H.
    now injection H as <-.
  - intros Hnoleg stps lastStep Hsteps.
    rewrite Hnoleg, Hsteps, last_snoc in H.
    destruct (inc_toToken lastStep); now injection H as <-.
  - intros Hnoleg Hsteps. rewrite Hnoleg in H.
    destruct Hsteps as [E|E]; rewrite E in H; now injection H as <-.
Qed.

(** ** More on deduplication *)

Lemma first_occurrences_app `{EqDecision K}
    (key : Route -> K) (earlier : list K) (l l' : list Route) :
  first_occurrences key earlier (l ++ l')
  = first_occurrences key earlier l
    ++ first_occurrences key (earlier ++ (key <$> l)) l'.
Proof.
  revert earlier. induction l as [|r l IH]; intros earlier; cbn [app first_occurrences].
  - now rewrite fmap_nil, app_nil_r.
  - rewrite IH, fmap_cons, <- app_assoc. cbn [app].
    destruct (bool_decide (key r ∈ earlier)); reflexivity.
Qed.

Lemma first_occurrences_filter `{EqDecision K}
    (key : Route -> K) (seen earlier : list K) (rs : list Route) :
  first_occurrences key (seen ++ earlier) rs
  = List.filter (fun r => negb (bool_decide (key r ∈ seen)))
      (first_occurrences key earlier rs).
Proof.
  revert earlier. induction rs as [|r rs IH]; intros earlier;
    cbn [first_occurrences]; [reflexivity|].
  rewrite <- app_assoc, IH.
  destruct (bool_decide (key r ∈ earlier)) eqn:E1.
  - rewrite bool_decide_eq_true_2; [reflexivity|].
    apply bool_decide_eq_true in E1. rewrite elem_of_app. now right.
  - apply bool_decide_eq_false in E1. cbn [List.filter].
    destruct (bool_decide (key r ∈ seen)) eqn:E2; cbn [negb].
    + rewrite bool_decide_eq_true_2; [reflexivity|].
      apply bool_decide_eq_true in E2. rewrite elem_of_app. now left.
    + rewrite bool_decide_eq_false_2; [reflexivity|].
      apply bool_decide_eq_false in E2. rewrite elem_of_app. tauto.
Qed.

Lemma first_occurrences_fixed `{EqDecision K}
    (key : Route -> K) (earlier : list K) (rs : list Route) :
  NoDup (earlier ++ (key <$> rs)) -> first_occurrences key earlier rs = rs.
Proof.
  revert earlier. induction rs as [|r rs IH]; intros earlier H;
    cbn [first_occurrences]; [reflexivity|].
  rewrite fmap_cons in H.
  rewrite bool_decide_eq_false_2.
  - f_equal. apply IH. now rewrite <- app_assoc.
  - apply NoDup_app in H as (_ & H & _). intros Hin.
    apply (H _ Hin), list_elem_of_here.
Qed.

Lemma filter_none {A : Type} (f : A -> bool) (l : list A) :
  (forall x, x ∈ l -> f x = false) -> List.filter f l = [].
Proof.
  induction l as [|x l IH]; intros H; [reflexivity|]. cbn [List.filter].
  rewrite (H x (list_elem_of_here _ _)). apply IH.
  intros y Hy. apply H. now apply list_elem_of_further.
Qed.

(** X15. The deduplicated list is a subsequence of the input that starts
    with the same route; its signature strings are pairwise different and
    are exactly those of the input; and a route is kept whenever no route
    before it in the input has its signature string. *)
Theorem removeDuplicateRoutes_sound (rs : list Route) :
  removeDuplicateRoutes rs `sublist_of` rs
  /\ head (removeDuplicateRoutes rs) = head rs
  /\ NoDup (signature <$> removeDuplicateRoutes rs)
  /\ (forall s, s ∈ signature <$> removeDuplicateRoutes rs
                <-> s ∈ signature <$> rs)
  /\ (forall l1 r l2,
         rs = l1 ++ r :: l2 -> signature r ∉ signature <$> l1 ->
         r ∈ removeDuplicateRoutes rs).
Proof.
  rewrite removeDuplicateRoutes_first_occurrences. repeat split.
  - apply first_occurrences_sublist.
  - destruct rs as [|r rs]; [reflexivity|]. cbn [first_occurrences].
    rewrite bool_decide_eq_false_2 by apply not_elem_of_nil. reflexivity.
  - apply first_occurrences_NoDup.
  - rewrite first_occurrences_keys. tauto.
  - intros H. rewrite first_occurrences_keys. split; [exact H|].
    apply not_elem_of_nil.
  - intros l1 r l2 -> H. now apply first_occurrences_keeps_first.
Qed.

(** X16. A list is left unchanged by the deduplication exactly when its
    signature strings are pairwise different. *)
Theorem removeDuplicateRoutes_fixed (rs : list Route) :
  removeDuplicateRoutes rs = rs <-> NoDup (signature <$> rs).
Proof.
  rewrite removeDuplicateRoutes_first_occurrences. split.
  - intros H. rewrite <- H at 1. apply first_occurrences_NoDup.
  - intros H. now apply first_occurrences_fixed.
Qed.

(** X17. Deduplicating two lists in sequence keeps the deduplicated first
    list and, of the deduplicated second list, the routes whose signature
    string does not occur in the first.  So routes that repeat signatures
    already returned add nothing. *)
Theorem removeDuplicateRoutes_app (l l' : list Route) :
  removeDuplicateRoutes (l ++ l')
  = removeDuplicateRoutes l
    ++ List.filter
         (fun r => negb (bool_decide (signature r ∈ signature <$> l)))
         (removeDuplicateRoutes l')
  /\ ((forall r, r ∈ l' -> signature r ∈ signature <$> l) ->
      removeDuplicateRoutes (l ++ l') = removeDuplicateRoutes l).
Proof.
  assert (removeDuplicateRoutes (l ++ l')
          = removeDuplicateRoutes l
            ++ List.filter
                 (fun r => negb (bool_decide (signature r ∈ signature <$> l)))
                 (removeDuplicateRoutes l')) as H.
  { rewrite !removeDuplicateRoutes_first_occurrences.
    rewrite first_occurrences_app. f_equal. cbn [app].
    rewrite <- (app_nil_r (signature <$> l)) at 1.
    apply first_occurrences_filter. }
  split; [exact H|]. intros Hall. rewrite H.
  rewrite <- (app_nil_r (removeDuplicateRoutes l)) at 2. f_equal.
  apply filter_none. intros r Hr. apply negb_false_iff, bool_decide_eq_true.
  apply Hall.
  eapply elem_of_sublist; [exact Hr|].
  rewrite removeDuplicateRoutes_first_occurrences.
  apply first_occurrences_sublist.
Qed.

(** ** More on the recommendation *)

Lemma elem_of_push_if (b : bool) (l : list string) (s x : string) :
  x ∈ push_if b l s <-> x ∈ l \/ (b = true /\ x = s).
Proof.
  unfold push_if, push. destruct b.
  - rewrite elem_of_app, list_elem_of_singleton. tauto.
  - split; [tauto | intros [?|[? _]]; [assumption | discriminate]].
Qed.

Section Recommendation.
Variable parseFloat : string -> Q.

Local Abbreviation recommend := (generateRouteRecommendation parseFloat).

Lemma rec_pros_chain (r : Route) (m : RouteMetrics) (allRoutes : list Route) :
  rec_pros (recommend r m allRoutes)
  = push_if (gtb (liquidityScore m) 7)
      (push_if (ltb (gasEfficiency m) 2)
         (push_if (ltb (complexityScore m) 3)
            (push_if (gtb (bridgeReliability m) 8)
               (push_if (ltb (estimatedTime m) 300)
                  (push_if (ltb (totalFeesUSD m) 10) [] "Low transaction fees")
                  "Fast execution time")
               "Uses reliable, battle-tested bridges")
            "Simple, straightforward route")
         "Gas efficient")
      "High liquidity depth".
Proof.
  unfold generateRouteRecommendation.
  repeat match goal with
         | |- context [match ?e with pair _ _ => _ end] => destruct e
         end.
  reflexivity.
Qed.

Lemma rec_cons_chain (r : Route) (m : RouteMetrics) (allRoutes : list Route) :
  rec_cons (recommend r m allRoutes)
  = push_if (gtb (priceImpact m) (1 # 100))
      (push_if (gtb (gasEfficiency m) 5)
         (push_if (gtb (complexityScore m) 5)
            (push_if (ltb (bridgeReliability m) 6)
               (push_if (gtb (estimatedTime m) 900)
                  (push_if (gtb (totalFeesUSD m) 50) [] "Higher transaction fees")
                  "Longer execution time")
               "Uses less proven bridges")
            "Complex multi-step route")
         "Higher gas costs")
      "Higher price impact".
Proof.
  unfold generateRouteRecommendation.
  repeat match goal with
         | |- context [match ?e with pair _ _ => _ end] => destruct e
         end.
  reflexivity.
Qed.

(** membership in a chain of conditional pushes of known sentences *)
Ltac chain_member H :=
  repeat (apply elem_of_push_if in H as [H|[H ?]];
          [|first [discriminate | idtac]]);
  try (apply elem_of_nil in H; destruct H).

(** X18. No dimension is praised and blamed at once: a recommendation
    never lists low fees among the pros together with higher fees among
    the cons, nor fast with longer execution, reliable with less proven
    bridges, simple with complex route, or gas efficient with higher gas
    costs. *)
Theorem pros_cons_exclusive
    (r : Route) (m : RouteMetrics) (allRoutes : list Route) :
  let rec := recommend r m allRoutes in
  ~ ("Low transaction fees" ∈ rec_pros rec
     /\ "Higher transaction fees" ∈ rec_cons rec)
  /\ ~ ("Fast execution time" ∈ rec_pros rec
        /\ "Longer execution time" ∈ rec_cons rec)
  /\ ~ ("Uses reliable, battle-tested bridges" ∈ rec_pros rec
        /\ "Uses less proven bridges" ∈ rec_cons rec)
  /\ ~ ("Simple, straightforward route" ∈ rec_pros rec
        /\ "Complex multi-step route" ∈ rec_cons rec)
  /\ ~ ("Gas efficient" ∈ rec_pros rec /\ "Higher gas costs" ∈ rec_cons rec).
Proof.
  cbv zeta. rewrite rec_pros_chain, rec_cons_chain.
  repeat split; intros [Hp Hc]; chain_member Hp; chain_member Hc;
    repeat match goal with
           | H : ltb _ _ = true |- _ => apply ltb_lt in H
           | H : gtb _ _ = true |- _ => apply gtb_gt in H
           end; lra.
Qed.

(** X19. The reasons tell the category: a recommendation carries exactly
    one reason, the sentence of its category, and none when the category
    is ALTERNATIVE. *)
Theorem reasons_match_type
    (r : Route) (m : RouteMetrics) (allRoutes : list Route) :
  reasons (recommend r m allRoutes)
  = match rec_type (recommend r m allRoutes) with
    | CHEAPEST => ["Lowest total fees among all options"]
    | FASTEST => ["Shortest estimated execution time"]
    | SAFEST => ["Uses most reliable bridges and exchanges"]
    | OPTIMAL => ["Best balance of cost, time, and reliability"]
    | ALTERNATIVE => []
    end.
Proof.
  unfold generateRouteRecommendation.
  destruct (first_is (byFees parseFloat allRoutes) r);
    [destruct (isOptimal parseFloat r m allRoutes); reflexivity|].
  destruct (first_is (byTime parseFloat allRoutes) r);
    [destruct (isOptimal parseFloat r m allRoutes); reflexivity|].
  destruct (first_is (byReliability parseFloat allRoutes) r);
    destruct (isOptimal parseFloat r m allRoutes); reflexivity.
Qed.

Lemma first_is_foreign (sorted : list Route) (r : Route) :
  (forall x, x ∈ sorted -> route_id x <> route_id r) ->
  first_is sorted r = false.
Proof.
  intros H. unfold first_is. destruct sorted as [|x l]; [reflexivity|].
  simpl. apply String.eqb_neq, H, list_elem_of_here.
Qed.

(** X20. Edge cases of the category.  Against an empty candidate list
    every route is OPTIMAL; a route that is the only candidate is
    CHEAPEST; and a route whose id no candidate carries is never CHEAPEST,
    FASTEST or SAFEST: it is OPTIMAL when its score is at least every
    candidate's score and ALTERNATIVE otherwise. *)
Theorem generateRouteRecommendation_edges (r : Route) (m : RouteMetrics) :
  rec_type (recommend r m []) = OPTIMAL
  /\ rec_type (recommend r m [r]) = CHEAPEST
  /\ forall allRoutes,
       route_id r ∉ route_id <$> allRoutes ->
       ((forall r', r' ∈ allRoutes ->
                    score_of parseFloat r' <= calculateOptimalScore m) ->
        rec_type (recommend r m allRoutes) = OPTIMAL)
       /\ (~ (forall r', r' ∈ allRoutes ->
                         score_of parseFloat r' <= calculateOptimalScore m) ->
           rec_type (recommend r m allRoutes) = ALTERNATIVE).
Proof.
  split; [reflexivity|]. split.
  - rewrite rec_type_cascade. unfold byFees, first_is. cbn.
    now rewrite String.eqb_refl.
  - intros allRoutes Hid. rewrite rec_type_cascade.
    assert (forall cmp, first_is (sort cmp allRoutes) r = false) as Hf.
    { intros cmp. apply first_is_foreign. intros x Hx E.
      apply sort_elem_of in Hx. apply Hid. rewrite <- E.
      now apply list_elem_of_fmap_2. }
    unfold byFees, byTime, byReliability. rewrite !Hf.
    pose proof (isOptimal_tops parseFloat r m allRoutes) as Ho.
    assert (tops parseFloat allRoutes (route_id r) (calculateOptimalScore m)
            <-> forall r', r' ∈ allRoutes ->
                           score_of parseFloat r' <= calculateOptimalScore m)
      as Ht.
    { unfold tops. split; intros H r' Hin; [|intros _; now apply H].
      apply H; [exact Hin|]. intros E. apply Hid. rewrite <- E.
      now apply list_elem_of_fmap_2. }
    destruct (isOptimal parseFloat r m allRoutes); split; intros H;
      try reflexivity; exfalso; intuition congruence.
Qed.

End Recommendation.

(** ** More on the comparison entry point *)

Lemma concat_nil_inv {A : Type} (ls : list (list A)) :
  concat ls = [] -> forall l, l ∈ ls -> l = [].
Proof.
  induction ls as [|x ls IH]; intros H l Hl; [inversion Hl|].
  simpl in H. apply app_eq_nil in H as [Hx Hls].
  apply elem_of_cons in Hl as [->|Hl]; [exact Hx | now apply IH].
Qed.

Lemma removeDuplicateRoutes_nonempty (rs : list Route) :
  rs <> [] -> removeDuplicateRoutes rs <> [].
Proof.
  destruct rs as [|r rs]; [done|]. intros _.
  unfold removeDuplicateRoutes. simpl.
  now rewrite bool_decide_eq_false_2 by apply not_elem_of_empty.
Qed.

Section More_comparison.
Variable parseFloat : string -> Q.
Variable getRoutes : RoutesRequest -> option RoutesResponse.

Local Abbreviation fetch := (fetchAlternativeRoutes parseFloat getRoutes).

(** The two ways in which a comparison is returned. *)
Lemma fetch_cases (tx : StatusResponse) (cmp : RouteComparison) :
  fetch tx = Some cmp ->
  exists p,
    extractRouteParameters tx = Some p
    /\ truthy_oint (req_toChainId p) = true
    /\ ((gathered getRoutes p = []
         /\ cmp = {| originalRoute := None;
                     alternativeRoutes := [];
                     failureReasons := ["No alternative routes found"];
                     recommendations := [] |})
        \/ (gathered getRoutes p <> []
            /\ exists unique,
                unique = removeDuplicateRoutes (gathered getRoutes p)
                /\ alternativeRoutes cmp
                   ≡ₚ map (to_alternative parseFloat unique) unique
                /\ failureReasons cmp = analyzeFailureReasons tx
                /\ originalRoute cmp = extractOriginalRoute tx)).
Proof.
  unfold fetchAlternativeRoutes.
  destruct (extractRouteParameters tx) as [p|]; [|done].
  destruct (truthy_oint (req_fromChainId p)); [|done].
  destruct (truthy_oint (req_toChainId p)) eqn:Et; [|done]. cbn [negb orb].
  intros H. exists p. split; [reflexivity|]. split; [exact Et|].
  unfold gathered, answered.
  match type of H with
  | context [(length ?l =? 0)%nat] => destruct l as [|r0 l'] eqn:E
  end.
  - left. split; [reflexivity|]. simpl in H. now injection H as <-.
  - right. split; [done|]. simpl in H. injection H as <-.
    eexists. split; [reflexivity|]. cbn [alternativeRoutes failureReasons originalRoute].
    split; [apply sort_Permutation|]. split; reflexivity.
Qed.

Lemma alternative_origin (tx : StatusResponse) (cmp : RouteComparison)
    (a : AlternativeRoute) :
  fetch tx = Some cmp -> a ∈ alternativeRoutes cmp ->
  exists unique r, r ∈ unique /\ a = to_alternative parseFloat unique r.
Proof.
  intros H Ha. destruct (fetch_cases tx cmp H) as (p & _ & _ & [[_ ->]|(_ & U & _ & HP & _)]).
  - inversion Ha.
  - rewrite HP in Ha. change (map ?f U) with (f <$> U) in Ha.
    apply list_elem_of_fmap in Ha as (r & -> & Hr). eauto.
Qed.

(** X22. No comparison is returned exactly when no parameters with a
    non-zero destination chain can be extracted from the transaction;
    what the routing API answers, or whether it fails, has no part in
    it. *)
Theorem fetchAlternativeRoutes_null (tx : StatusResponse) :
  fetch tx = None
  <-> forall p, extractRouteParameters tx = Some p ->
                truthy_oint (req_toChainId p) = false.
Proof.
  unfold fetchAlternativeRoutes.
  destruct (extractRouteParameters tx) as [p|] eqn:E;
    [|split; [intros _ p H; discriminate H | reflexivity]].
  rewrite (extractRouteParameters_source tx p E). cbn [negb orb].
  destruct (truthy_oint (req_toChainId p)) eqn:Et; cbn [negb].
  - split; [intros H; destruct (_ =? _)%nat in H; discriminate H|].
    intros H. specialize (H p eq_refl). congruence.
  - split; [|reflexivity]. intros _ p' [= <-]. exact Et.
Qed.

(** X23. One answered route suffices: when some variant is answered with
    at least one route, the returned comparison lists at least one
    alternative, and it never lists more alternatives than routes were
    answered. *)
Theorem alternativeRoutes_present
    (tx : StatusResponse) (p : RoutesRequest) (cmp : RouteComparison)
    (config : RoutesRequest) :
  extractRouteParameters tx = Some p ->
  fetch tx = Some cmp ->
  config ∈ generateAlternativeConfigs p ->
  answered getRoutes config <> [] ->
  alternativeRoutes cmp <> []
  /\ (length (alternativeRoutes cmp) <= length (gathered getRoutes p))%nat.
Proof.
  intros Hp H Hc Hans.
  destruct (fetch_cases tx cmp H) as (p' & Hp' & _ & Hcases).
  assert (p' = p) as -> by congruence.
  destruct Hcases as [[Hg ->]|(Hg & U & -> & HP & _)].
  - exfalso. apply Hans. apply (concat_nil_inv _ Hg).
    change (map ?f ?l) with (f <$> l). now apply list_elem_of_fmap_2.
  - split.
    + intros E. rewrite E in HP. symmetry in HP.
      apply Permutation_nil_r in HP. apply map_eq_nil in HP.
      now apply (removeDuplicateRoutes_nonempty _ Hg).
    + rewrite HP, length_map. apply sublist_length.
      rewrite removeDuplicateRoutes_first_occurrences.
      apply first_occurrences_sublist.
Qed.

(** X24. The alternatives of a returned comparison are routes the API
    answered: each was returned to some variant, their signature strings
    are pairwise different, and every signature string of a returned
    route occurs among them. *)
Theorem alternativeRoutes_from_answers
    (tx : StatusResponse) (p : RoutesRequest) (cmp : RouteComparison) :
  extractRouteParameters tx = Some p ->
  fetch tx = Some cmp ->
  (forall a, a ∈ alternativeRoutes cmp ->
             exists config,
               config ∈ generateAlternativeConfigs p
               /\ route a ∈ answered getRoutes config)
  /\ NoDup (map (fun a => signature (route a)) (alternativeRoutes cmp))
  /\ (forall config r,
         config ∈ generateAlternativeConfigs p ->
         r ∈ answered getRoutes config ->
         signature r ∈ map (fun a => signature (route a)) (alternativeRoutes cmp)).
Proof.
  intros Hp H.
  destruct (fetch_cases tx cmp H) as (p' & Hp' & _ & Hcases).
  assert (p' = p) as -> by congruence.
  assert (forall config r,
             config ∈ generateAlternativeConfigs p ->
             r ∈ answered getRoutes config -> r ∈ gathered getRoutes p) as Hin.
  { intros config r Hc Hr. apply list_elem_of_In, in_concat.
    exists (answered getRoutes config). split; [|now apply list_elem_of_In].
    apply in_map. now apply list_elem_of_In. }
  destruct Hcases as [[Hg ->]|(Hg & U & HU & HP & _)].
  - cbn [alternativeRoutes]. split; [intros a Ha; inversion Ha|].
    split; [constructor|]. intros config r Hc Hr.
    specialize (Hin config r Hc Hr). rewrite Hg in Hin. inversion Hin.
  - assert (map (fun a => signature (route a)) (alternativeRoutes cmp)
            ≡ₚ signature <$> U) as Hsig.
    { rewrite HP. rewrite map_map. reflexivity. }
    pose proof (first_occurrences_NoDup signature [] (gathered getRoutes p)) as Hnd.
    pose proof (first_occurrences_keys signature [] (gathered getRoutes p)) as Hkeys.
    pose proof (first_occurrences_sublist signature [] (gathered getRoutes p)) as Hsub.
    rewrite <- removeDuplicateRoutes_first_occurrences, <- HU in Hnd, Hkeys, Hsub.
    split; [|split].
    + intros a Ha. rewrite HP in Ha. change (map ?f U) with (f <$> U) in Ha.
      apply list_elem_of_fmap in Ha as (r & -> & Hr). cbn [route to_alternative].
      pose proof (elem_of_sublist _ _ _ Hr Hsub) as Hg'.
      apply list_elem_of_In, in_concat in Hg' as (l & Hl & Hrl).
      apply in_map_iff in Hl as (config & <- & Hc).
      exists config. split; now apply list_elem_of_In.
    + now rewrite Hsig.
    + intros config r Hc Hr. rewrite Hsig. apply Hkeys.
      split; [|apply not_elem_of_nil].
      apply list_elem_of_fmap_2. now apply (Hin config).
Qed.

(** X26. Every alternative of a returned comparison whose route uses no
    bridge name that the reliability table inherits has a success
    probability between 50 and 80 and a risk level of MEDIUM or HIGH,
    never LOW. *)
Theorem alternatives_never_low_risk
    (tx : StatusResponse) (cmp : RouteComparison) :
  fetch tx = Some cmp ->
  forall a, a ∈ alternativeRoutes cmp ->
    no_inherited_tool (route a) = true ->
    50 <= successProbability a
    /\ successProbability a <= 80
    /\ riskLevel a <> LOW.
Proof.
  intros H a Ha _. destruct (alternative_origin tx cmp a H Ha) as (U & r & _ & ->).
  cbn [successProbability riskLevel to_alternative].
  pose proof (successProbability_derived_le parseFloat r) as Hle.
  split; [apply Q.le_max_l|]. split; [exact Hle|].
  unfold calculateRiskLevel.
  assert (ltb (calculateSuccessProbability r (calculateRouteMetrics parseFloat r)) 85
          = true) as -> by (apply ltb_lt; lra).
  destruct (_ || _ || _); discriminate.
Qed.

(** X27. A comparison with alternatives always holds an alternative
    labelled CHEAPEST, the failure reasons of the analyzer, and the
    reconstructed original route, with id "original", without steps and on
    the source chain of the transaction. *)
Theorem comparison_with_candidates
    (tx : StatusResponse) (cmp : RouteComparison) :
  fetch tx = Some cmp ->
  alternativeRoutes cmp <> [] ->
  (exists a, a ∈ alternativeRoutes cmp /\ recommendation a = CHEAPEST)
  /\ failureReasons cmp = analyzeFailureReasons tx
  /\ exists o,
       originalRoute cmp = Some o
       /\ p_id o = Some "original"
       /\ p_steps o = Some []
       /\ p_fromChainId o = tx_chainId (sending tx).
Proof.
  intros H Hne.
  destruct (fetch_cases tx cmp H) as (p & Hp & _ & [[_ ->]|(Hg & U & HU & HP & Hf & Ho)]);
    [done|].
  split; [|split; [exact Hf|]].
  - assert (U <> []) as HUne
      by (rewrite HU; now apply removeDuplicateRoutes_nonempty).
    destruct (head_byFees parseFloat U HUne) as (c & Hc & (l1 & l2 & Hl & _)).
    exists (to_alternative parseFloat U c). split.
    + rewrite HP. change (map ?f U) with (f <$> U). apply list_elem_of_fmap_2.
      rewrite Hl, elem_of_app. right. apply list_elem_of_here.
    + cbn [recommendation to_alternative]. rewrite rec_type_cascade.
      now rewrite (proj2 (first_is_head _ _ c Hc) eq_refl).
  - rewrite Ho. unfold extractOriginalRoute.
    pose proof (extractRouteParameters_source tx p Hp) as Hsrc.
    destruct (extractRouteParameters_shape tx p Hp) as (tok & dest & Htok & ->).
    rewrite Htok. eexists. split; [reflexivity|]. cbn in *.
    repeat split.
    destruct (tx_chainId (sending tx)) as [c|]; [|discriminate Hsrc].
    simpl in *. destruct (Z.eqb c 0); [discriminate Hsrc | reflexivity].
Qed.

End More_comparison.

(** ** The expanded-routes state *)

(** X28. Toggling a route id twice restores the state; one toggle flips
    the membership of that id and of no other, and leaves every other
    field of the state as it was: the loading flag, the alternatives, the
    error and the copied text. *)
Theorem toggleExpanded_twice (routeId : string) (prev : RouteComparisonState) :
  toggleExpanded routeId (toggleExpanded routeId prev) = prev
  /\ (routeId ∈ expandedRoutes (toggleExpanded routeId prev)
      <-> routeId ∉ expandedRoutes prev)
  /\ (forall other, other <> routeId ->
        other ∈ expandedRoutes (toggleExpanded routeId prev)
        <-> other ∈ expandedRoutes prev)
  /\ loading (toggleExpanded routeId prev) = loading prev
  /\ alternatives (toggleExpanded routeId prev) = alternatives prev
  /\ error (toggleExpanded routeId prev) = error prev
  /\ copiedText (toggleExpanded routeId prev) = copiedText prev.
Proof.
  destruct prev as [l a e s c]. unfold toggleExpanded. cbn.
  destruct (bool_decide (routeId ∈ s)) eqn:E.
  - apply bool_decide_eq_true in E.
    rewrite bool_decide_eq_false_2 by set_solver.
    repeat split; try set_solver. f_equal.
    apply set_eq. intros x. destruct (decide (x = routeId)); set_solver.
  - apply bool_decide_eq_false in E.
    rewrite bool_decide_eq_true_2 by set_solver.
    repeat split; try set_solver. f_equal. set_solver.
Qed.

(** ** Further concrete instances *)

Import Sample More.

Example successProbability_attains_80 :
  calculateSuccessProbability via_1inch (calculateRouteMetrics readDecimal via_1inch)
  == 80.
Proof. vm_compute. reflexivity. Qed.

Example slippageTolerance_with_slippage :
  slippageTolerance (calculateRouteMetrics readDecimal with_slippage) == 0.5.
Proof. vm_compute. reflexivity. Qed.

Example configs_of_tuned_params :
  map requested_slippage (generateAlternativeConfigs tuned_params)
  = [Some (1 # 1000); Some (3 # 100); Some (5 # 100); Some (2 # 100);
     Some (2 # 100); Some (25 # 1000); Some (1 # 100)]
  /\ map (fun c => options c ≫= integrator) (generateAlternativeConfigs tuned_params)
     = replicate 7 (Some "lifi-lens").
Proof. split; reflexivity. Qed.

Example blind_tx_not_compared :
  fetchAlternativeRoutes readDecimal Sample.api_three blind_tx = None.
Proof. reflexivity. Qed.

Lemma calculateRiskLevel_monotone_witness :
  let m1 := calculateRouteMetrics readDecimal via_hop in
  let m2 := calculateRouteMetrics readDecimal via_unknown in
  50 <= 71
  /\ complexityScore m1 <= complexityScore m2
  /\ bridgeReliability m2 <= bridgeReliability m1
  /\ (risk_rank (calculateRiskLevel m1 71) <= risk_rank (calculateRiskLevel m2 50))%nat.
Proof.
  cbv zeta.
  assert (50 <= 71) as H1 by (vm_compute; discriminate).
  assert (complexityScore (calculateRouteMetrics readDecimal via_hop)
          <= complexityScore (calculateRouteMetrics readDecimal via_unknown))
    as H2 by (vm_compute; discriminate).
  assert (bridgeReliability (calculateRouteMetrics readDecimal via_unknown)
          <= bridgeReliability (calculateRouteMetrics readDecimal via_hop))
    as H3 by (vm_compute; discriminate).
  split; [exact H1|]. split; [exact H2|]. split; [exact H3|].
  exact (calculateRiskLevel_monotone _ _ 71 50 H1 H2 H3).
Defined.

Lemma calculateOptimalScore_monotone_witness :
  let m1 := calculateRouteMetrics readDecimal via_hop in
  let m2 := calculateRouteMetrics readDecimal via_unknown in
  totalFeesUSD m1 <= totalFeesUSD m2
  /\ estimatedTime m1 <= estimatedTime m2
  /\ 0 <= bridgeReliability m2
  /\ bridgeReliability m2 <= bridgeReliability m1
  /\ complexityScore m1 <= complexityScore m2
  /\ 0 <= calculateOptimalScore m2
  /\ calculateOptimalScore m2 <= calculateOptimalScore m1.
Proof.
  cbv zeta.
  assert (totalFeesUSD (calculateRouteMetrics readDecimal via_hop)
          <= totalFeesUSD (calculateRouteMetrics readDecimal via_unknown))
    as H1 by (vm_compute; discriminate).
  assert (estimatedTime (calculateRouteMetrics readDecimal via_hop)
          <= estimatedTime (calculateRouteMetrics readDecimal via_unknown))
    as H2 by (vm_compute; discriminate).
  assert (0 <= bridgeReliability (calculateRouteMetrics readDecimal via_unknown))
    as H0 by (vm_compute; discriminate).
  assert (bridgeReliability (calculateRouteMetrics readDecimal via_unknown)
          <= bridgeReliability (calculateRouteMetrics readDecimal via_hop))
    as H3 by (vm_compute; discriminate).
  assert (complexityScore (calculateRouteMetrics readDecimal via_hop)
          <= complexityScore (calculateRouteMetrics readDecimal via_unknown))
    as H4 by (vm_compute; discriminate).
  split; [exact H1|]. split; [exact H2|]. split; [exact H0|].
  split; [exact H3|]. split; [exact H4|].
  exact (calculateOptimalScore_monotone _ _ H1 H2 H0 H3 H4).
Defined.

Lemma bridgeReliability_range_witness :
  no_inherited_tool via_unknown = true
  /\ 5 <= bridgeReliability (calculateRouteMetrics readDecimal via_unknown)
  /\ bridgeReliability (calculateRouteMetrics readDecimal via_unknown) <= 95 # 10
  /\ (existsb is_cross (steps via_unknown) = false ->
      bridgeReliability (calculateRouteMetrics readDecimal via_unknown) == 9).
Proof.
  assert (no_inherited_tool via_unknown = true) as H by reflexivity.
  split; [exact H|]. exact (bridgeReliability_range readDecimal via_unknown H).
Defined.

Lemma derived_risk_never_low_witness :
  no_inherited_tool via_1inch = true
  /\ calculateSuccessProbability via_1inch
       (calculateRouteMetrics readDecimal via_1inch) <= 80
  /\ calculateRiskLevel (calculateRouteMetrics readDecimal via_1inch)
       (calculateSuccessProbability via_1inch
          (calculateRouteMetrics readDecimal via_1inch)) <> LOW.
Proof.
  assert (no_inherited_tool via_1inch = true) as H by reflexivity.
  split; [exact H|]. exact (derived_risk_never_low readDecimal via_1inch H).
Defined.

Lemma extractRouteParameters_destination_witness :
  exists p,
    extractRouteParameters hinted_tx = Some p
    /\ receiving_leg hinted_tx = None
    /\ req_toChainId p = Some 10%Z
    /\ toTokenAddress p = Some "0x0b2C".
Proof.
  eexists. split; [reflexivity|]. split; [reflexivity|].
  exact (proj1 (proj2 (extractRouteParameters_destination hinted_tx _ eq_refl))
           eq_refl
           [hint "uniswap" (Some (Sample.usdc "0xdAC1" 1))]
           (hint "hop" (Some (Sample.usdc "0x0b2C" 10)))
           eq_refl).
Defined.

(** the comparison of the sample transaction against the API that answers
    the base request only *)
Lemma alternativeRoutes_present_witness :
  exists cmp,
    extractRouteParameters (Sample.failed_tx None None) = Some Sample.failed_params
    /\ fetchAlternativeRoutes readDecimal api_base_only (Sample.failed_tx None None)
       = Some cmp
    /\ Sample.failed_params ∈ generateAlternativeConfigs Sample.failed_params
    /\ answered api_base_only Sample.failed_params <> []
    /\ alternativeRoutes cmp <> []
    /\ (length (alternativeRoutes cmp)
        <= length (gathered api_base_only Sample.failed_params))%nat.
Proof.
  eexists. split; [reflexivity|]. split; [vm_compute; reflexivity|].
  assert (Sample.failed_params ∈ generateAlternativeConfigs Sample.failed_params)
    as Hin by apply list_elem_of_here.
  assert (answered api_base_only Sample.failed_params <> []) as Hans
    by discriminate.
  split; [exact Hin|]. split; [exact Hans|].
  apply (alternativeRoutes_present readDecimal api_base_only
           (Sample.failed_tx None None) Sample.failed_params _
           Sample.failed_params eq_refl); [vm_compute; reflexivity | exact Hin | exact Hans].
Defined.

Lemma alternativeRoutes_from_answers_witness :
  exists cmp,
    extractRouteParameters (Sample.failed_tx None None) = Some Sample.failed_params
    /\ fetchAlternativeRoutes readDecimal api_base_only (Sample.failed_tx None None)
       = Some cmp
    /\ map (fun a => route_id (route a)) (alternativeRoutes cmp)
       = ["route-1"; "route-2"]
    /\ (forall a, a ∈ alternativeRoutes cmp ->
                  exists config,
                    config ∈ generateAlternativeConfigs Sample.failed_params
                    /\ route a ∈ answered api_base_only config)
    /\ NoDup (map (fun a => signature (route a)) (alternativeRoutes cmp))
    /\ (forall config r,
           config ∈ generateAlternativeConfigs Sample.failed_params ->
           r ∈ answered api_base_only config ->
           signature r ∈ map (fun a => signature (route a)) (alternativeRoutes cmp)).
Proof.
  eexists. split; [reflexivity|]. split; [vm_compute; reflexivity|].
  split; [reflexivity|].
  apply (alternativeRoutes_from_answers readDecimal api_base_only
           (Sample.failed_tx None None) Sample.failed_params _ eq_refl).
  vm_compute. reflexivity.
Defined.

Lemma alternatives_never_low_risk_witness :
  exists cmp,
    fetchAlternativeRoutes readDecimal Sample.api_three (Sample.failed_tx None None)
    = Some cmp
    /\ map riskLevel (alternativeRoutes cmp) = [MEDIUM; HIGH; HIGH]
    /\ map (fun a => no_inherited_tool (route a)) (alternativeRoutes cmp)
       = [true; true; true]
    /\ forall a, a ∈ alternativeRoutes cmp ->
         no_inherited_tool (route a) = true ->
         50 <= successProbability a
         /\ successProbability a <= 80
         /\ riskLevel a <> LOW.
Proof.
  eexists. split; [vm_compute; reflexivity|]. split; [reflexivity|].
  split; [reflexivity|].
  apply (alternatives_never_low_risk readDecimal Sample.api_three
           (Sample.failed_tx None None)).
  vm_compute. reflexivity.
Defined.

Lemma comparison_with_candidates_witness :
  exists cmp,
    fetchAlternativeRoutes readDecimal Sample.api_three (Sample.failed_tx None None)
    = Some cmp
    /\ alternativeRoutes cmp <> []
    /\ (exists a, a ∈ alternativeRoutes cmp /\ recommendation a = CHEAPEST)
    /\ failureReasons cmp = analyzeFailureReasons (Sample.failed_tx None None)
    /\ exists o,
         originalRoute cmp = Some o
         /\ p_id o = Some "original"
         /\ p_steps o = Some []
         /\ p_fromChainId o = tx_chainId (sending (Sample.failed_tx None None)).
Proof.
  eexists. split; [vm_compute; reflexivity|].
  match goal with |- ?A /\ _ => assert A as Hne by discriminate end.
  split; [exact Hne|].
  apply (comparison_with_candidates readDecimal Sample.api_three
           (Sample.failed_tx None None)); [vm_compute; reflexivity | exact Hne].
Defined.

(** ** The slippage suggestion *)

Section Adjustment.
Variable parseFloat : string -> Q.

Lemma adjustments_cases (r : Route) (m : RouteMetrics) (allRoutes : list Route) :
  adjustments (generateRouteRecommendation parseFloat r m allRoutes)
  = if ltb (slippageTolerance m) 2 && gtb (priceImpact m) (5 # 1000)
    then Some {| adj_slippage := Some 3; adj_amount := None;
                 adj_timing := None |}
    else None.
Proof.
  unfold generateRouteRecommendation.
  repeat match goal with
         | |- context [match ?e with pair _ _ => _ end] => destruct e
         end.
  reflexivity.
Qed.

(** X29. A suggested adjustment always raises the slippage: when a
    recommendation carries adjustments they consist of the slippage 3
    alone, and the slippage tolerance of the metrics is below 2 with a
    price impact above 0.5%.  For the metrics derived from a route in
    which no step carries a non-zero slippage, nothing is suggested. *)
Theorem adjustments_raise_slippage
    (r : Route) (m : RouteMetrics) (allRoutes : list Route) :
  (forall adj,
      adjustments (generateRouteRecommendation parseFloat r m allRoutes)
      = Some adj ->
      adj = {| adj_slippage := Some 3; adj_amount := None; adj_timing := None |}
      /\ slippageTolerance m < 2
      /\ 5 # 1000 < priceImpact m)
  /\ (Forall (fun step => has_slippage step = false) (steps r) ->
      adjustments
        (generateRouteRecommendation parseFloat r
           (calculateRouteMetrics parseFloat r) allRoutes)
      = None).
Proof.
  split.
  - intros adj. rewrite adjustments_cases.
    destruct (ltb (slippageTolerance m) 2) eqn:E1; [|discriminate].
    destruct (gtb (priceImpact m) (5 # 1000)) eqn:E2; [|discriminate].
    intros [= <-]. apply ltb_lt in E1. apply gtb_gt in E2. auto.
  - intros H. rewrite adjustments_cases.
    unfold calculateRouteMetrics at 1. cbn [slippageTolerance].
    now rewrite (extractSlippageTolerance_none r H).
Qed.

End Adjustment.
